(** * tools-email: the mail delivery pipeline

    A shallow embedding of the Go packages [email] (the engine: its
    queue, [SendEmail] and [Shutdown]) and [env] (the stand-alone relay:
    its configuration, its inbound SMTP session and its suppression of
    repeated auto-replies), together with their properties.

    Conventions.
    - A Go [error] is an [option string]: [None] is [nil], [Some m] is an
      error whose [Error()] text is [m].
    - Calls that leave the process (DNS, SMTP hand-off, MIME building,
      DKIM) are oracles collected in a record; every call that touches
      the network is appended to an event log that also serves as the
      state of the outside world.
    - A Go run-time panic is an explicit outcome. *)

From Stdlib Require Import ZArith Lia Ascii String Sorting.Sorted DecimalString.
From Stdlib Require Import Floats.SpecFloat.
From stdpp Require Import base option list strings gmap.

Open Scope string_scope.
Open Scope Z_scope.

(** ** Go values *)

Definition error := option string.
Definition bytes := list Byte.byte.

(** Outcome of running Go code that may panic. *)
Inductive Res (A : Type) : Type :=
| Val (a : A)
| Panic (msg : string).
Arguments Val {A} a.
Arguments Panic {A} msg.

(** ** Package [strings], [fmt], [strconv]: the few functions used *)
Module GoStr.

(** [cut c s]: the text before and after the first occurrence of the
    character [c] in [s], if there is one. *)
Fixpoint cut (c : ascii) (s : string) : option (string * string) :=
  match s with
  | EmptyString => None
  | String a rest =>
      if Ascii.eqb a c then Some (EmptyString, rest)
      else match cut c rest with
           | Some (pre, post) => Some (String a pre, post)
           | None => None
           end
  end.

(** [strings.SplitN(s, sep, 2)] for a one-character separator: at most
    two substrings, the second being the unsplit remainder. *)
Definition SplitN2 (s : string) (sep : ascii) : list string :=
  match cut sep s with
  | Some (pre, post) => [pre; post]
  | None => [s]
  end.

(** [strings.Join(elems, sep)]. *)
Fixpoint Join (elems : list string) (sep : string) : string :=
  match elems with
  | [] => ""
  | [e] => e
  | e :: rest => e +:+ sep +:+ Join rest sep
  end.

(** The verb [%d] of package [fmt] on an [int]. *)
Definition itoa (n : Z) : string :=
  NilZero.string_of_int (Z.to_int n).

(** Whether the character [c] occurs in [s]. *)
Fixpoint contains (c : ascii) (s : string) : bool :=
  match s with
  | EmptyString => false
  | String a rest => Ascii.eqb a c || contains c rest
  end.

End GoStr.

Definition at_sign : ascii := "@"%char.

(** ** Buffered channels

    The state of a Go channel as far as a non-blocking send can observe
    it.  A [nil] channel is [None].  Receivers take from the head of
    [buf]; a send that Go hands directly to a parked receiver is the
    same as an append followed at once by that receive. *)
Module GoChan.

Record Chan (A : Type) : Type := mkChan {
  buf : list A;       (* queued elements, oldest first *)
  cap : nat;          (* capacity given to [make] *)
  closed : bool       (* [close] has been called *)
}.
Arguments mkChan {A} buf cap closed.
Arguments buf {A} c.
Arguments cap {A} c.
Arguments closed {A} c.

(** [make(chan A, n)]. *)
Definition make {A} (n : nat) : option (Chan A) :=
  Some (mkChan [] n false).

(** What the send case of a [select] finds. *)
Inductive TrySend (A : Type) : Type :=
| Sent (c : Chan A)     (* ready: the element is queued *)
| NotReady              (* the send would block *)
| SendOnClosed.         (* ready, and panics: send on closed channel *)
Arguments Sent {A} c.
Arguments NotReady {A}.
Arguments SendOnClosed {A}.

Definition trySend {A} (ch : option (Chan A)) (x : A) : TrySend A :=
  match ch with
  | None => NotReady
  | Some c =>
      if closed c then SendOnClosed
      else if (length (buf c) <? cap c)%nat
           then Sent (mkChan (buf c ++ [x])%list (cap c) (closed c))
           else NotReady
  end.

(** [close(ch)] on an open channel. *)
Definition close {A} (c : Chan A) : Chan A :=
  mkChan (buf c) (cap c) true.

(** [len(ch)] and [cap(ch)], both 0 for a [nil] channel. *)
Definition len {A} (ch : option (Chan A)) : nat :=
  match ch with Some c => length (buf c) | None => 0%nat end.
Definition capacity {A} (ch : option (Chan A)) : nat :=
  match ch with Some c => cap c | None => 0%nat end.
Definition contents {A} (ch : option (Chan A)) : list A :=
  match ch with Some c => buf c | None => [] end.
Definition is_closed {A} (ch : option (Chan A)) : bool :=
  match ch with Some c => closed c | None => false end.

End GoChan.

(** ** Package [time] *)
Module GoTime.

(** A [time.Duration] counts nanoseconds; a [time.Time] is taken as
    nanoseconds since an arbitrary origin. *)
Definition Second : Z := 1000000000.
Definition Hour : Z := 3600 * Second.

(** [t.Add(d)] and [t.After(u)]. *)
Definition Add (t d : Z) : Z := t + d.
Definition After (t u : Z) : bool := u <? t.

End GoTime.

(** ** float64

    IEEE 754 binary64 arithmetic as the Standard Library specifies it,
    for the one float computation of the engine. *)
Module GoFloat.

Definition prec : Z := 53.
Definition emax : Z := 1024.

(** [float64(z)] for an integer [z]. *)
Definition ofInt (z : Z) : spec_float :=
  binary_normalize prec emax z 0 false.

(** [int(f)]: the fraction is dropped. *)
Definition toInt (f : spec_float) : Z :=
  match f with
  | S754_finite sign m e =>
      let magnitude :=
        if 0 <=? e then Zpos m * 2 ^ e else Z.quot (Zpos m) (2 ^ (- e)) in
      if sign then - magnitude else magnitude
  | _ => 0
  end.

(** [d.Seconds()] of package [time]:
    [float64(d / Second) + float64(d % Second) / 1e9]. *)
Definition Seconds (d : Z) : spec_float :=
  SFadd prec emax
        (ofInt (Z.quot d GoTime.Second))
        (SFdiv prec emax (ofInt (Z.rem d GoTime.Second)) (ofInt 1000000000)).

(** [int(d.Seconds() / 10)]. *)
Definition secondsOver10 (d : Z) : Z :=
  toInt (SFdiv prec emax (Seconds d) (ofInt 10)).

End GoFloat.

(** ** Package [sort]: [sort.Slice]

    [sort.Slice(x, less)] as the Go releases with a built-in [max]
    have it (the engine uses [max]): the pattern-defeating quicksort
    [pdqsort_func] on the slice, with insertion sort on ranges of at
    most 12 elements and heap sort once the limit of bad pivots is
    used up.  The slice is a list, changed through [Swap] alone; the
    indices are those of the Go code (all of them stay inside the
    slice, so they are natural numbers).  A loop takes as many
    iterations as it can need at most.  The pseudo-random generator
    of [breakPatterns_func] is a parameter. *)
Module GoSort.
Local Open Scope nat_scope.

Section Slice.
Context {A : Type}.
(* [Next] of the generator [xorshift], a step on a [uint64], from which
   [breakPatterns_func] draws; what it computes is left open *)
Variable xorshift_Next : Z -> Z.
(* the caller's [less(i, j)], on the elements at [i] and [j] *)
Variable less : A -> A -> bool.

Definition Less (data : list A) (i j : nat) : bool :=
  match data !! i, data !! j with
  | Some x, Some y => less x y
  | _, _ => false
  end.

Definition Swap (data : list A) (i j : nat) : list A :=
  match data !! i, data !! j with
  | Some x, Some y => <[i := y]> (<[j := x]> data)
  | _, _ => data
  end.

(** [for j := i; j > a && data.Less(j, j-1); j-- { data.Swap(j, j-1) }] *)
Fixpoint insertionShift (fuel : nat) (data : list A) (a j : nat) : list A :=
  match fuel with
  | O => data
  | S fuel' =>
      if (a <? j) && Less data j (j - 1)
      then insertionShift fuel' (Swap data j (j - 1)) a (j - 1)
      else data
  end.

(** [for i := a + 1; i < b; i++] *)
Fixpoint insertionLoop (fuel : nat) (data : list A) (a b i : nat) : list A :=
  match fuel with
  | O => data
  | S fuel' =>
      if i <? b then insertionLoop fuel' (insertionShift i data a i) a b (i + 1)
      else data
  end.

Definition insertionSort_func (data : list A) (a b : nat) : list A :=
  insertionLoop (b - a) data a b (a + 1).

(** [siftDown_func(data, lo, hi, first)]; [root] is the loop variable. *)
Fixpoint siftDown_func (fuel : nat) (data : list A) (root hi first : nat) : list A :=
  match fuel with
  | O => data
  | S fuel' =>
      let child := 2 * root + 1 in
      if hi <=? child then data
      else
        let child :=
          if (child + 1 <? hi) && Less data (first + child) (first + child + 1)
          then child + 1 else child in
        if negb (Less data (first + root) (first + child)) then data
        else siftDown_func fuel' (Swap data (first + root) (first + child)) child hi first
  end.

(** [for i := (hi - 1) / 2; i >= 0; i-- { siftDown_func(data, i, hi, first) }] *)
Fixpoint heapBuild (i : nat) (data : list A) (hi first : nat) : list A :=
  let data := siftDown_func hi data i hi first in
  match i with
  | O => data
  | S i' => heapBuild i' data hi first
  end.

(** [for i := hi - 1; i >= 0; i-- { data.Swap(first, first+i);
    siftDown_func(data, lo, i, first) }] *)
Fixpoint heapPop (i : nat) (data : list A) (lo first : nat) : list A :=
  let data := siftDown_func i (Swap data first (first + i)) lo i first in
  match i with
  | O => data
  | S i' => heapPop i' data lo first
  end.

Definition heapSort_func (data : list A) (a b : nat) : list A :=
  let first := a in
  let lo := 0 in
  let hi := b - a in
  let data := heapBuild ((hi - 1) / 2) data hi first in
  if hi =? 0 then data else heapPop (hi - 1) data lo first.

(** [for i <= j && p(i) { i++ }] and [for i <= j && p(j) { j-- }] *)
Fixpoint scanUp (fuel : nat) (p : nat -> bool) (i j : nat) : nat :=
  match fuel with
  | O => i
  | S fuel' => if (i <=? j) && p i then scanUp fuel' p (i + 1) j else i
  end.

Fixpoint scanDown (fuel : nat) (p : nat -> bool) (i j : nat) : nat :=
  match fuel with
  | O => j
  | S fuel' => if (i <=? j) && p j then scanDown fuel' p i (j - 1) else j
  end.

(** The [for] loop of [partition_func]: the slice and [j] at its [break]. *)
Fixpoint partitionLoop (fuel : nat) (data : list A) (a i j : nat) : list A * nat :=
  match fuel with
  | O => (data, j)
  | S fuel' =>
      let i := scanUp (S j) (fun i => Less data i a) i j in
      let j := scanDown (S j) (fun j => negb (Less data j a)) i j in
      if j <? i then (data, j)
      else partitionLoop fuel' (Swap data i j) a (i + 1) (j - 1)
  end.

(** [partition_func]: the slice, the new index of the pivot and
    [alreadyPartitioned]. *)
Definition partition_func (data : list A) (a b pivot : nat) : list A * nat * bool :=
  let data := Swap data a pivot in
  let i := a + 1 in
  let j := b - 1 in
  let i := scanUp (S j) (fun i => Less data i a) i j in
  let j := scanDown (S j) (fun j => negb (Less data j a)) i j in
  if j <? i then (Swap data j a, j, true)
  else
    let data := Swap data i j in
    let '(data, j) := partitionLoop (b - a) data a (i + 1) (j - 1) in
    (Swap data j a, j, false).

(** The [for] loop of [partitionEqual_func]: the slice and [i] at its
    [break]. *)
Fixpoint partitionEqualLoop (fuel : nat) (data : list A) (a i j : nat) : list A * nat :=
  match fuel with
  | O => (data, i)
  | S fuel' =>
      let i := scanUp (S j) (fun i => negb (Less data a i)) i j in
      let j := scanDown (S j) (fun j => Less data a j) i j in
      if j <? i then (data, i)
      else partitionEqualLoop fuel' (Swap data i j) a (i + 1) (j - 1)
  end.

Definition partitionEqual_func (data : list A) (a b pivot : nat) : list A * nat :=
  let data := Swap data a pivot in
  partitionEqualLoop (S (b - a)) data a (a + 1) (b - 1).

(** [for i < b && !data.Less(i, i-1) { i++ }] *)
Fixpoint scanSorted (fuel : nat) (data : list A) (i b : nat) : nat :=
  match fuel with
  | O => i
  | S fuel' =>
      if (i <? b) && negb (Less data i (i - 1)) then scanSorted fuel' data (i + 1) b
      else i
  end.

(** [for j := i - 1; j >= 1; j-- { if !data.Less(j, j-1) { break };
    data.Swap(j, j-1) }] *)
Fixpoint shiftSmaller (fuel : nat) (data : list A) (j : nat) : list A :=
  match fuel with
  | O => data
  | S fuel' =>
      if 1 <=? j then
        if negb (Less data j (j - 1)) then data
        else shiftSmaller fuel' (Swap data j (j - 1)) (j - 1)
      else data
  end.

(** [for j := i + 1; j < b; j++ { if !data.Less(j, j-1) { break };
    data.Swap(j, j-1) }] *)
Fixpoint shiftGreater (fuel : nat) (data : list A) (j b : nat) : list A :=
  match fuel with
  | O => data
  | S fuel' =>
      if j <? b then
        if negb (Less data j (j - 1)) then data
        else shiftGreater fuel' (Swap data j (j - 1)) (j + 1) b
      else data
  end.

(** [for j := 0; j < maxSteps; j++], with [steps] iterations left. *)
Fixpoint partialInsertionLoop (steps : nat) (data : list A) (a b i : nat)
  : list A * bool :=
  match steps with
  | O => (data, false)
  | S steps' =>
      let i := scanSorted b data i b in
      if i =? b then (data, true)
      else if b - a <? 50 then (data, false)      (* [shortestShifting] *)
      else
        let data := Swap data i (i - 1) in
        let data := if 2 <=? i - a then shiftSmaller i data (i - 1) else data in
        let data := if 2 <=? b - i then shiftGreater b data (i + 1) b else data in
        partialInsertionLoop steps' data a b i
  end.

Definition partialInsertionSort_func (data : list A) (a b : nat) : list A * bool :=
  partialInsertionLoop 5 data a b (a + 1).               (* [maxSteps] *)

(** [bits.Len(uint(n))]. *)
Definition bits_Len (n : nat) : nat :=
  if n =? 0 then 0 else S (Nat.log2 n).

Definition nextPowerOfTwo (length : nat) : Z :=
  Z.shiftl 1 (Z.of_nat (bits_Len length)).

Definition breakPatterns_func (data : list A) (a b : nat) : list A :=
  let length := b - a in
  if 8 <=? length then
    let modulus := nextPowerOfTwo length in
    let idx := a + (length / 4) * 2 - 1 in
    let round (st : list A * Z) (i : nat) : list A * Z :=
      let random := xorshift_Next (snd st) in
      let other := Z.to_nat (Z.land random (modulus - 1)) in
      let other := if length <=? other then other - length else other in
      (Swap (fst st) (idx - 1 + i) (a + other), random) in
    fst (foldl round (data, Z.of_nat length) [0; 1; 2])
  else data.

Inductive sortedHint : Type := unknownHint | increasingHint | decreasingHint.

(** [order2_func], [median_func], [medianAdjacent_func]: the indices,
    and the counter behind [swaps]. *)
Definition order2_func (data : list A) (a b swaps : nat) : nat * nat * nat :=
  if Less data b a then (b, a, swaps + 1) else (a, b, swaps).

Definition median_func (data : list A) (a b c swaps : nat) : nat * nat :=
  let '(a, b, swaps) := order2_func data a b swaps in
  let '(b, c, swaps) := order2_func data b c swaps in
  let '(a, b, swaps) := order2_func data a b swaps in
  (b, swaps).

Definition medianAdjacent_func (data : list A) (a swaps : nat) : nat * nat :=
  median_func data (a - 1) a (a + 1) swaps.

Definition choosePivot_func (data : list A) (a b : nat) : nat * sortedHint :=
  let l := b - a in
  let i := a + l / 4 * 1 in
  let j := a + l / 4 * 2 in
  let k := a + l / 4 * 3 in
  let '(j, swaps) :=
    if 8 <=? l then
      let '(i, j, k, swaps) :=
        if 50 <=? l then                                  (* [shortestNinther] *)
          let '(i, swaps) := medianAdjacent_func data i 0 in
          let '(j, swaps) := medianAdjacent_func data j swaps in
          let '(k, swaps) := medianAdjacent_func data k swaps in
          (i, j, k, swaps)
        else (i, j, k, 0) in
      median_func data i j k swaps
    else (j, 0) in
  if swaps =? 0 then (j, increasingHint)
  else if swaps =? 4 * 3 then (j, decreasingHint)         (* [maxSwaps] *)
  else (j, unknownHint).

(** [for i < j { data.Swap(i, j); i++; j-- }] *)
Fixpoint reverseLoop (fuel : nat) (data : list A) (i j : nat) : list A :=
  match fuel with
  | O => data
  | S fuel' => if i <? j then reverseLoop fuel' (Swap data i j) (i + 1) (j - 1) else data
  end.

Definition reverseRange_func (data : list A) (a b : nat) : list A :=
  reverseLoop (b - a) data a (b - 1).

Definition isIncreasing (hint : sortedHint) : bool :=
  match hint with increasingHint => true | _ => false end.

(** [pdqsort_func(data, a, b, limit)].  The flags [wasBalanced] and
    [wasPartitioned] are the locals of the call, [true] when it
    starts; an iteration of its [for] loop is a step that carries
    them on.  Each step shortens the range, so [b - a + 1] steps
    suffice. *)
Fixpoint pdqsort_loop (fuel : nat) (data : list A) (a b limit : nat)
    (wasBalanced wasPartitioned : bool) : list A :=
  match fuel with
  | O => data
  | S fuel' =>
      let length := b - a in
      if length <=? 12 then insertionSort_func data a b       (* [maxInsertion] *)
      else if limit =? 0 then heapSort_func data a b
      else
        let '(data, limit) :=
          if negb wasBalanced then (breakPatterns_func data a b, limit - 1)
          else (data, limit) in
        let '(pivot, hint) := choosePivot_func data a b in
        let '(data, pivot, hint) :=
          match hint with
          | decreasingHint =>
              (reverseRange_func data a b, (b - 1) - (pivot - a), increasingHint)
          | _ => (data, pivot, hint)
          end in
        let '(data, done) :=
          if wasBalanced && wasPartitioned && isIncreasing hint
          then partialInsertionSort_func data a b
          else (data, false) in
        if done then data
        else if (0 <? a) && negb (Less data (a - 1) pivot) then
          let '(data, mid) := partitionEqual_func data a b pivot in
          pdqsort_loop fuel' data mid b limit wasBalanced wasPartitioned
        else
          let '(data, mid, alreadyPartitioned) := partition_func data a b pivot in
          let leftLen := mid - a in
          let rightLen := b - mid in
          let balanceThreshold := length / 8 in
          if leftLen <? rightLen then
            let data := pdqsort_loop fuel' data a mid limit true true in
            pdqsort_loop fuel' data (mid + 1) b limit
                         (balanceThreshold <=? leftLen) alreadyPartitioned
          else
            let data := pdqsort_loop fuel' data (mid + 1) b limit true true in
            pdqsort_loop fuel' data a mid limit
                         (balanceThreshold <=? rightLen) alreadyPartitioned
  end.

Definition pdqsort_func (data : list A) (a b limit : nat) : list A :=
  pdqsort_loop (b - a + 1) data a b limit true true.

(** [sort.Slice(x, less)]. *)
Definition Slice (x : list A) : list A :=
  let length := List.length x in
  let limit := bits_Len length in
  pdqsort_func x 0 length limit.

End Slice.
End GoSort.

(** The insertion sort of the library read as a function on lists. *)
Module GoSortView.

Section Insertion.
Context {A : Type}.
Variable less : A -> A -> bool.

(** What the inner loop of the insertion sort does to the sorted
    prefix, read from its end: the new element moves past the elements
    it is less than. *)
Fixpoint sink (x : A) (rp : list A) : list A :=
  match rp with
  | [] => [x]
  | y :: r => if less x y then y :: sink x r else x :: rp
  end.

(** The elements taken one by one from the left; the result is the
    sorted prefix read from its end. *)
Definition sunk (l : list A) : list A :=
  foldl (fun acc x => sink x acc) [] l.

End Insertion.
End GoSortView.

(** ** Package [email]: the engine *)
Module Email.

Record Address : Type := mkAddress {
  Name : string;
  Addr : string      (* field [Address] of the Go struct *)
}.

Record Attachment : Type := mkAttachment {
  ContentType : string;
  Filename : string;
  Data : bytes;
  Inline : bool
}.

Record Email : Type := mkEmail {
  To : list Address;
  From : Address;
  Subject : string;
  Content : string;
  HTML : bool;
  Attachments : list Attachment
}.

(** [net.MX]. *)
Record MX : Type := mkMX {
  Host : string;
  Pref : Z
}.

(** The error of [net.LookupMX]: whether it is a [*net.DNSError], its
    [IsNotFound] flag, and its text. *)
Record LookupError : Type := mkLookupError {
  isDNSError : bool;
  IsNotFound : bool;
  lookupText : string
}.

(** What the [enmime] builder has been given. *)
Record BuilderPart : Type := mkPart {
  partInline : bool;
  partData : bytes;
  partContentType : string;
  partFilename : string;
  partContentID : string
}.

Record MailBuilder : Type := mkBuilder {
  bFromName : string;
  bFromAddr : string;
  bToName : string;
  bToAddr : string;
  bSubject : string;
  bIsHTML : bool;
  bBody : bytes;
  bParts : list BuilderPart
}.

(** Calls that reach the network, in the order they were made. *)
Inductive Event : Type :=
| EvLookupMX (host : string)
| EvSendMail (addr : string) (from : string) (to : list string) (msg : bytes).

Definition isHandoff (ev : Event) : bool :=
  match ev with
  | EvSendMail _ _ _ _ => true
  | EvLookupMX _ => false
  end.

(** Whether the event hands a message for [rcpt] to a server. *)
Definition handsTo (rcpt : string) (ev : Event) : bool :=
  match ev with
  | EvSendMail _ _ to _ => existsb (String.eqb rcpt) to
  | EvLookupMX _ => false
  end.

(** The libraries and the outside world.  The network oracles see the
    history of calls, so a server may answer differently on a retry. *)
Record World : Type := mkWorld {
  enmime_Build : MailBuilder -> error;
  enmime_Encode : MailBuilder -> bytes * error;
  (* [dkim.Sign(w, r, opts)]: what is written to [w] having read [r] *)
  dkim_Sign : bytes -> string -> string -> bytes * error;
  net_LookupMX : list Event -> string -> list MX * option LookupError;
  (* [sort.Slice(x, less)] on a slice of MX records, [less] given on
     the records at the two indices *)
  sort_Slice : (MX -> MX -> bool) -> list MX -> list MX;
  smtp_SendMail : list Event -> string -> string -> list string -> bytes -> error
}.

(** The comparison both packages give to [sort.Slice]:
    [records[i].Pref < records[j].Pref]. *)
Definition lessByPref (ri rj : MX) : bool := Pref ri <? Pref rj.

(** [sort.Slice(records, func(i, j int) bool {
    return records[i].Pref < records[j].Pref })]. *)
Definition sort_Slice_byPref (w : World) (records : list MX) : list MX :=
  sort_Slice w lessByPref records.

(** A middleware gets the pointer to the email: it may change it, and
    answers whether to proceed. *)
Definition HandlerMiddleware : Type := Email -> Email * (bool * error).

Record Engine : Type := mkEngine {
  OutgoingTimeout : Z;                       (* a [time.Duration] *)
  outgoingQueue : option (GoChan.Chan Email);
  outgoingMiddleware : list HandlerMiddleware;
  OutgoingDKIMEnabled : bool;
  OutgoingSelectorName : string;
  Domain : string
}.

(** [New(domain)], on the fields above. *)
Definition New (domain : string) : Engine :=
  {| OutgoingTimeout := 30 * GoTime.Second;
     outgoingQueue := GoChan.make 1024;
     outgoingMiddleware := [];
     OutgoingDKIMEnabled := false;
     OutgoingSelectorName := "default";
     Domain := domain |}.

(** *** The monad of [SendEmail]: the event log, and panics *)

Definition M (A : Type) : Type := list Event -> list Event * Res A.

Definition ret {A} (a : A) : M A := fun log => (log, Val a).

Definition bind {A B} (m : M A) (k : A -> M B) : M B :=
  fun log =>
    match m log with
    | (log', Val a) => k a log'
    | (log', Panic msg) => (log', Panic msg)
    end.

Definition panic {A} (msg : string) : M A := fun log => (log, Panic msg).

Notation "'let*' x ':=' m 'in' k" := (bind m (fun x => k))
  (at level 10, x name, m at level 100, k at level 200).

(** How a loop body or a loop ends: it goes on (with the loop's
    variables), or the enclosing function returns. *)
Inductive Flow (S R : Type) : Type :=
| Next (s : S)
| Return (r : R).
Arguments Next {S R} s.
Arguments Return {S R} r.

(** [extractHostFromAddress]: the host and the error. *)
Definition extractHostFromAddress (address : string) : string * error :=
  let parts := GoStr.SplitN2 address at_sign in
  match parts with
  | [_; p1] =>
      if String.eqb p1 "" then ("", Some ("invalid email address: " +:+ address))
      else (p1, None)
  | _ => ("", Some ("invalid email address: " +:+ address))
  end.

Definition withQueue (e : Engine) (q : option (GoChan.Chan Email)) : Engine :=
  {| OutgoingTimeout := OutgoingTimeout e;
     outgoingQueue := q;
     outgoingMiddleware := outgoingMiddleware e;
     OutgoingDKIMEnabled := OutgoingDKIMEnabled e;
     OutgoingSelectorName := OutgoingSelectorName e;
     Domain := Domain e |}.

(** [QueueEmail]: the engine afterwards and the boolean returned. *)
Definition QueueEmail (e : Engine) (email : Email) : Res (Engine * bool) :=
  match GoChan.trySend (outgoingQueue e) email with
  | GoChan.Sent c => Val (withQueue e (Some c), true)
  | GoChan.NotReady => Val (e, false)
  | GoChan.SendOnClosed => Panic "send on closed channel"
  end.

(** [close(e.outgoingQueue)], the first step of the third goroutine of
    [Shutdown]. *)
Definition closeQueue (e : Engine) : Res Engine :=
  match outgoingQueue e with
  | None => Panic "close of nil channel"
  | Some c =>
      if GoChan.closed c then Panic "close of closed channel"
      else Val (withQueue e (Some (GoChan.close c)))
  end.

(** *** [SendEmail] *)

(** [attemptTotal := max(int(e.OutgoingTimeout.Seconds()/10), 1)],
    the quotient computed in float64 as the source does. *)
Definition attemptTotal (e : Engine) : Z :=
  Z.max (GoFloat.secondsOver10 (OutgoingTimeout e)) 1.

(** The text of [%s] applied to an [error]. *)
Definition fmt_error (err : error) : string :=
  match err with
  | Some m => m
  | None => "%!s(<nil>)"
  end.

(** The middleware loop: the email as the middlewares left it, and the
    error returned if one of them did not proceed. *)
Fixpoint runMiddleware (mws : list HandlerMiddleware) (email : Email)
  : Email * error :=
  match mws with
  | [] => (email, None)
  | mw :: rest =>
      let '(email', (proceed, err)) := mw email in
      if proceed then runMiddleware rest email'
      else (email', Some ("cancelled by middleware: " +:+ fmt_error err))
  end.

(** The builder calls made for one addressee. *)
Definition attachmentPart (a : Attachment) : BuilderPart :=
  if Inline a
  then mkPart true (Data a) (ContentType a) (Filename a) (Filename a)
  else mkPart false (Data a) (ContentType a) (Filename a) "".

Definition envelopeBuilder (email : Email) (addressee : Address) : MailBuilder :=
  {| bFromName := Addr (From email);    (* [From(email.From.Address, email.From.Name)] *)
     bFromAddr := Name (From email);
     bToName := Name addressee;
     bToAddr := Addr addressee;
     bSubject := Subject email;
     bIsHTML := HTML email;
     bBody := list_byte_of_string (Content email);
     bParts := map attachmentPart (Attachments email) |}.

Section Send.
Variable w : World.

Definition LookupMX (host : string) : M (list MX * option LookupError) :=
  fun log => ((log ++ [EvLookupMX host])%list, Val (net_LookupMX w log host)).

Definition SendMail (addr from : string) (to : list string) (msg : bytes)
  : M error :=
  fun log => ((log ++ [EvSendMail addr from to msg])%list,
              Val (smtp_SendMail w log addr from to msg)).

(** [records[i % len(records)]]. *)
Definition recordAt (records : list MX) (i : Z) : Res MX :=
  if (Z.of_nat (length records) =? 0)
  then Panic "runtime error: integer divide by zero"
  else
    let k := Z.rem i (Z.of_nat (length records)) in
    if k <? 0 then Panic "runtime error: index out of range"
    else match records !! Z.to_nat k with
         | Some r => Val r
         | None => Panic "runtime error: index out of range"
         end.

(** The attempt loop, [for i := 0; i < attemptTotal; i++], with [n]
    iterations left.  It either falls through with the messages
    collected, or the function returns [nil]. *)
Fixpoint attemptLoop (n : nat) (i total : Z) (records : list MX)
    (from rcpt : string) (complete : bytes) (attemptErrors : list string)
  : M (Flow (list string) error) :=
  match n with
  | O => ret (Next attemptErrors)
  | S n' =>
      match recordAt records i with
      | Panic msg => panic msg
      | Val r =>
          let* err := SendMail (Host r +:+ ":" +:+ GoStr.itoa 25) from [rcpt] complete in
          match err with
          | Some m =>
              let message := "attempt " +:+ GoStr.itoa (i + 1) +:+ "/"
                             +:+ GoStr.itoa total +:+ " failed: " +:+ m in
              attemptLoop n' (i + 1) total records from rcpt complete
                          (attemptErrors ++ [message])%list
          | None => ret (Return None)
          end
      end
  end.

(** From "Attempt to Deliver Envelope" to the end of the body of the
    loop over the recipients. *)
Definition deliverEnvelope (e : Engine) (email : Email) (addressee : Address)
    (complete : bytes) (records : list MX) : M error :=
  let total := attemptTotal e in
  let* fl := attemptLoop (Z.to_nat total) 0 total records
                         (Addr (From email)) (Addr addressee) complete [] in
  match fl with
  | Return r => ret r
  | Next attemptErrors =>
      ret (Some ("email delivery failed: " +:+ GoStr.Join attemptErrors (String "010"%char "")))
  end.

(** The resolver steps: host of the address, MX lookup, sort. *)
Definition resolve (address : string) : M (list MX + string) :=
  match extractHostFromAddress address with
  | (_, Some err) => ret (inr err)
  | (host, None) =>
      let* res := LookupMX host in
      match res with
      | (_, Some le) =>
          if isDNSError le && IsNotFound le
          then ret (inr ("no mx records present for " +:+ host))
          else ret (inr ("mx records unresolvable for " +:+ host +:+ ": " +:+ lookupText le))
      | (records, None) => ret (inl (sort_Slice_byPref w records))
      end
  end.

(** The body of [for _, addressee := range email.To]; every path
    through it returns from [SendEmail]. *)
Definition sendOne (e : Engine) (email : Email) (addressee : Address)
  : M (Flow unit error) :=
  let builder := envelopeBuilder email addressee in
  match enmime_Build w builder with
  | Some err => ret (Return (Some ("unable to build envelope: " +:+ err)))
  | None =>
      match enmime_Encode w builder with
      | (_, Some err) => ret (Return (Some ("unable to encode envelope: " +:+ err)))
      | (envelope, None) =>
          (* [dkim.Sign(&envelope, &complete, ...)] reads the still empty
             [complete] and writes to [envelope] *)
          let signed :=
            if OutgoingDKIMEnabled e
            then match dkim_Sign w [] (Domain e) (OutgoingSelectorName e) with
                 | (_, Some err) => inr ("unable to sign envelope: " +:+ err)
                 | (_, None) => inl []
                 end
            else inl envelope in
          match signed with
          | inr msg => ret (Return (Some msg))
          | inl complete =>
              let* rs := resolve (Addr addressee) in
              match rs with
              | inr msg => ret (Return (Some msg))
              | inl records =>
                  let* r := deliverEnvelope e email addressee complete records in
                  ret (Return r)
              end
          end
      end
  end.

(** [for _, addressee := range tos]. *)
Fixpoint rangeTo (tos : list Address) (body : Address -> M (Flow unit error))
  : M (Flow unit error) :=
  match tos with
  | [] => ret (Next tt)
  | addressee :: rest =>
      let* fl := body addressee in
      match fl with
      | Next _ => rangeTo rest body
      | Return r => ret (Return r)
      end
  end.

Definition SendEmail (e : Engine) (email : Email) : M error :=
  if (Z.of_nat (length (To email)) =? 0) then ret (Some "no recipients")
  else
    match runMiddleware (outgoingMiddleware e) email with
    | (_, Some err) => ret (Some err)
    | (email', None) =>
        let* fl := rangeTo (To email') (sendOne e email') in
        match fl with
        | Return r => ret r
        | Next _ => ret None
        end
    end.

End Send.

(** *** [Shutdown]

    [Shutdown] wraps its drain in [e.activeClosing.Do], a [sync.Once]:
    the first call to [Do] runs the function, a call made while it runs
    waits, and a call made after it has returned returns at once.  The
    function starts three goroutines (HTTP drain, SMTP drain, close of
    the queue and wait for the workers) and waits for the three.

    Several calls of [Shutdown] run interleaved; a schedule says which
    call moves next. *)

Inductive OncePhase : Type := OnceNew | OnceRunning | OnceDone.

Inductive Drain : Type := DrainHTTP | DrainSMTP | DrainQueue.

(** Where one call of [Shutdown] stands: before [Do], inside the
    function with the goroutines that have finished, or returned. *)
Inductive Call : Type :=
| Entering
| Draining (http smtp queue : bool)
| Returned.

Record Life : Type := mkLife {
  activeClosing : OncePhase;
  drains : list Drain;      (* drains performed, in order *)
  queueClosed : bool;       (* [close(e.outgoingQueue)] has run *)
  crashed : bool;           (* a goroutine panicked *)
  calls : list Call
}.

(** [n] calls of [Shutdown] on a running engine. *)
Definition lifeInit (n : nat) : Life :=
  mkLife OnceNew [] false false (replicate n Entering).

Inductive Action : Type :=
| ADo (k : nat)           (* call [k] reaches [activeClosing.Do] *)
| AHttp (k : nat)         (* its first goroutine finishes *)
| ASmtp (k : nat)         (* its second goroutine finishes *)
| AQueue (k : nat)        (* its third goroutine finishes *)
| AWait (k : nat).        (* [wg.Wait()] returns, and so does [Do] *)

Definition setCall (s : Life) (k : nat) (c : Call) : list Call :=
  <[k := c]> (calls s).

(** One move; [None] when the call cannot move (it is blocked, or has
    nothing of that kind to do). *)
Definition lifeStep (a : Action) (s : Life) : option Life :=
  match a with
  | ADo k =>
      match calls s !! k with
      | Some Entering =>
          match activeClosing s with
          | OnceNew =>
              Some (mkLife OnceRunning (drains s) (queueClosed s) (crashed s)
                           (setCall s k (Draining false false false)))
          | OnceRunning => None
          | OnceDone =>
              Some (mkLife OnceDone (drains s) (queueClosed s) (crashed s)
                           (setCall s k Returned))
          end
      | _ => None
      end
  | AHttp k =>
      match calls s !! k with
      | Some (Draining false sm q) =>
          Some (mkLife (activeClosing s) (drains s ++ [DrainHTTP])%list
                       (queueClosed s) (crashed s)
                       (setCall s k (Draining true sm q)))
      | _ => None
      end
  | ASmtp k =>
      match calls s !! k with
      | Some (Draining h false q) =>
          Some (mkLife (activeClosing s) (drains s ++ [DrainSMTP])%list
                       (queueClosed s) (crashed s)
                       (setCall s k (Draining h true q)))
      | _ => None
      end
  | AQueue k =>
      match calls s !! k with
      | Some (Draining h sm false) =>
          (* [close] of a closed channel panics *)
          Some (mkLife (activeClosing s) (drains s ++ [DrainQueue])%list
                       true (crashed s || queueClosed s)
                       (setCall s k (Draining h sm true)))
      | _ => None
      end
  | AWait k =>
      match calls s !! k with
      | Some (Draining true true true) =>
          Some (mkLife OnceDone (drains s) (queueClosed s) (crashed s)
                       (setCall s k Returned))
      | _ => None
      end
  end.

Fixpoint lifeRun (schedule : list Action) (s : Life) : option Life :=
  match schedule with
  | [] => Some s
  | a :: rest =>
      match lifeStep a s with
      | Some s' => lifeRun rest s'
      | None => None
      end
  end.

(** How often a drain was performed. *)
Definition drain_eqb (a b : Drain) : bool :=
  match a, b with
  | DrainHTTP, DrainHTTP | DrainSMTP, DrainSMTP | DrainQueue, DrainQueue => true
  | _, _ => false
  end.

Definition drainCount (d : Drain) (s : Life) : nat :=
  length (filter (fun x => drain_eqb d x = true) (drains s)).

(** One call after the other, each run to its end. *)
Definition callAlone (first : bool) (k : nat) : list Action :=
  if first then [ADo k; AHttp k; ASmtp k; AQueue k; AWait k] else [ADo k].

Fixpoint sequentialFrom (first : bool) (k n : nat) : list Action :=
  match n with
  | O => []
  | S n' => (callAlone first k ++ sequentialFrom false (S k) n')%list
  end.

Definition sequential (n : nat) : list Action := sequentialFrom true 0 n.

End Email.

(** ** Package [env]: the stand-alone relay *)
Module Env.

Record EmailAttachment : Type := mkAttachment {
  ContentType : string;
  Filename : string;
  Data : bytes;
  Inline : bool
}.

Record Email : Type := mkEmail {
  ToName : string;
  ToAddress : string;
  FromName : string;
  FromAddress : string;
  Subject : string;
  Content : string;
  HTML : bool;
  Attachments : list EmailAttachment
}.

(** *** Configuration *)

(** [envString(field, initial)] under the environment [getenv];
    [None] is [os.Exit(2)]. *)
Definition envString (getenv : string -> string) (field initial : string)
  : option string :=
  let Value := getenv field in
  if String.eqb Value "" then
    if String.eqb initial (String "000"%char "") then None else Some initial
  else Some Value.

Record Config : Type := mkConfig {
  SMTP_DOMAIN : string;
  SMTP_USERNAME_DMARC : string;
  SMTP_USERNAME_NOREPLY : string;
  SMTP_USERNAME_FORWARD : string;
  SMTP_FORWARD_ADDRESS : string;
  SMTP_DISABLE_NOREPLY : string
}.

(** The package-level [var] block. *)
Definition loadConfig (getenv : string -> string) : option Config :=
  domain ← envString getenv "SMTP_DOMAIN" "example.org";
  dmarc ← envString getenv "SMTP_USERNAME_DMARC" "dmarc";
  noreply ← envString getenv "SMTP_USERNAME_NOREPLY" "noreply";
  forward ← envString getenv "SMTP_USERNAME_FORWARD" "support";
  target ← envString getenv "SMTP_FORWARD_ADDRESS" "";
  disable ← envString getenv "SMTP_DISABLE_NOREPLY" "";
  Some (mkConfig domain dmarc noreply forward target disable).

(** The addresses computed by [init]. *)
Definition SMTP_ADDRESS_DMARC (c : Config) : string :=
  SMTP_USERNAME_DMARC c +:+ "@" +:+ SMTP_DOMAIN c.
Definition SMTP_ADDRESS_NOREPLY (c : Config) : string :=
  SMTP_USERNAME_NOREPLY c +:+ "@" +:+ SMTP_DOMAIN c.
Definition SMTP_ADDRESS_FORWARD (c : Config) : string :=
  SMTP_USERNAME_FORWARD c +:+ "@" +:+ SMTP_DOMAIN c.

(** *** The inbound session *)

(** The errors a session hands back to the SMTP library. *)
Inductive SessionError : Type :=
| SMTPError (code : Z) (message : string)
| ErrDataReset.

Definition ErrUnknownRecipient : SessionError :=
  SMTPError 550 "Unknown Recipient".

(** [mail.Address]. *)
Record MailAddress : Type := mkMailAddress {
  Name : string;
  Address : string
}.

(** An [io.Reader] as [io.ReadAll] finds it. *)
Record Reader : Type := mkReader {
  stream : bytes;
  readError : error
}.

(** The libraries used by [Data], and the embedded files of package
    [include]. *)
Record Libs : Type := mkLibs {
  (* [enmime.ReadEnvelope]: the [GetHeader] of the envelope, if it parses *)
  enmime_ReadEnvelope : bytes -> option (string -> string);
  mail_ParseAddress : string -> option MailAddress;
  dkim_Verify : bytes -> bool;
  NoreplyIndex : string;
  NoreplyImage : bytes
}.

(** The package-level variables [emailDebounce] and [emailQueue]. *)
Record State : Type := mkState {
  emailDebounce : gmap string Z;     (* sender address to expiry time *)
  emailQueue : option (GoChan.Chan Email)
}.

(** [QueueEmail] of this package: no result; a full queue drops the
    email (and writes a log line, left out). *)
Definition QueueEmail (st : State) (e : Email) : Res State :=
  match GoChan.trySend (emailQueue st) e with
  | GoChan.Sent c => Val (mkState (emailDebounce st) (Some c))
  | GoChan.NotReady => Val st
  | GoChan.SendOnClosed => Panic "send on closed channel"
  end.

Definition autoReply (c : Config) (l : Libs) (From : MailAddress) : Email :=
  {| FromName := SMTP_ADDRESS_NOREPLY c;
     FromAddress := SMTP_ADDRESS_NOREPLY c;
     ToName := Name From;
     ToAddress := Address From;
     Subject := "Need Help?";
     Content := NoreplyIndex l;
     HTML := true;
     Attachments := [ mkAttachment "image/png" "robot.png" (NoreplyImage l) true ] |}.

Definition forwarded (c : Config) (From : MailAddress) (subject : string)
    (data : bytes) : Email :=
  {| FromName := Address From;
     FromAddress := "catchall@" +:+ SMTP_DOMAIN c;
     ToName := "";
     ToAddress := SMTP_FORWARD_ADDRESS c;
     Subject := "Fwd: " +:+ subject;
     Content := "Forwarding an email from: " +:+ Address From;
     HTML := false;
     Attachments := [ mkAttachment "message/rfc822" "forwarded_email.eml" data false ] |}.

Module Session.

(** [Session.Rcpt]; the line written with [log.Println] is left out. *)
Definition Rcpt (c : Config) (toAddress : string) : option SessionError :=
  if negb (String.eqb toAddress (SMTP_ADDRESS_DMARC c)) ||
     negb (String.eqb toAddress (SMTP_ADDRESS_NOREPLY c)) ||
     negb (String.eqb toAddress (SMTP_ADDRESS_FORWARD c))
  then Some ErrUnknownRecipient
  else None.

(** [Session.Data] at time [now]: the state afterwards and the error
    returned. *)
Definition Data (c : Config) (l : Libs) (now : Z) (r : Reader) (st : State)
  : Res (State * option SessionError) :=
  match readError r with
  | Some _ => Val (st, Some ErrDataReset)
  | None =>
  let data := stream r in
  match enmime_ReadEnvelope l data with
  | None => Val (st, Some ErrDataReset)
  | Some GetHeader =>
  match mail_ParseAddress l (GetHeader "To") with
  | None => Val (st, Some ErrDataReset)
  | Some To =>
  match mail_ParseAddress l (GetHeader "From") with
  | None => Val (st, Some ErrDataReset)
  | Some From =>
  if negb (dkim_Verify l data) then Val (st, Some ErrDataReset)
  else if String.eqb (Address To) (SMTP_ADDRESS_DMARC c) then Val (st, None)
  else if String.eqb (Address To) (SMTP_ADDRESS_NOREPLY c) then
    if String.eqb (SMTP_DISABLE_NOREPLY c) "" then Val (st, Some ErrUnknownRecipient)
    else
      match emailDebounce st !! Address From with
      | Some _ => Val (st, None)
      | None =>
          let st1 := mkState (<[Address From := GoTime.Add now GoTime.Hour]> (emailDebounce st))
                             (emailQueue st) in
          match QueueEmail st1 (autoReply c l From) with
          | Val st2 => Val (st2, None)
          | Panic msg => Panic msg
          end
      end
  else if String.eqb (SMTP_FORWARD_ADDRESS c) "" then Val (st, Some ErrUnknownRecipient)
  else
    match QueueEmail st (forwarded c From (GetHeader "Subject") data) with
    | Val st2 => Val (st2, None)
    | Panic msg => Panic msg
    end
  end end end end.

End Session.

(** *** The goroutine started by [init]

    [t := time.NewTimer(time.Hour)] delivers one value on [t.C], an
    hour after [init]; [for range t.C] runs its body for each value
    delivered and then waits for the next. *)

(** The body: [emailDebounce.Range] deleting every entry whose time
    lies before [now]. *)
Definition sweep (now : Z) (m : gmap string Z) : gmap string Z :=
  filter (fun kv => GoTime.After now (snd kv) = false) m.

(** The relay: its state, the time of [init], and whether the timer
    has delivered its value. *)
Record Relay : Type := mkRelay {
  state : State;
  initTime : Z;
  timerFired : bool
}.

Inductive Input : Type :=
| TimerChannel                  (* the goroutine of [init] is scheduled *)
| Inbound (r : Reader).         (* a session receives DATA *)

(** One input at time [now], with the error given to the SMTP peer. *)
Definition relayStep (c : Config) (l : Libs) (now : Z) (i : Input) (s : Relay)
  : Res (Relay * option SessionError) :=
  match i with
  | TimerChannel =>
      if negb (timerFired s) && (initTime s + GoTime.Hour <=? now)
      then Val (mkRelay (mkState (sweep now (emailDebounce (state s)))
                                 (emailQueue (state s)))
                        (initTime s) true, None)
      else Val (s, None)
  | Inbound r =>
      match Session.Data c l now r (state s) with
      | Val (st, err) => Val (mkRelay st (initTime s) (timerFired s), err)
      | Panic msg => Panic msg
      end
  end.

Fixpoint relayRun (c : Config) (l : Libs) (inputs : list (Z * Input)) (s : Relay)
  : Res Relay :=
  match inputs with
  | [] => Val s
  | (now, i) :: rest =>
      match relayStep c l now i s with
      | Val (s', _) => relayRun c l rest s'
      | Panic msg => Panic msg
      end
  end.

(** The relay as [init] and the package-level declarations leave it. *)
Definition relayInit (t0 : Z) : Relay :=
  mkRelay (mkState ∅ (GoChan.make 1000)) t0 false.

(** The emails waiting in the queue. *)
Definition queued (s : Relay) : list Email :=
  GoChan.contents (emailQueue (state s)).

End Env.

(** ** What the properties of the engine speak about *)
Module EmailView.
Import Email.

Definition lacksAt (address : string) : Prop :=
  GoStr.contains at_sign address = false.

(** Nothing follows the "@" that ends the local part. *)
Definition emptyDomain (address : string) : Prop :=
  exists loc, GoStr.contains at_sign loc = false /\ address = loc +:+ "@".

(** The candidate of attempt [i] (counted from 0). *)
Definition candidate (records : list MX) (i : nat) : MX :=
  nth (i mod length records) records (mkMX "" 0).

(** What [sort.Slice] promises for the comparison by [Pref]: the
    slice holds the same records, in an order in which no record is
    smaller than one before it.  (The package states that the sort is
    not guaranteed to be stable.) *)
Definition byPref (a b : MX) : Prop := Pref a <= Pref b.

Definition sortsByPref (f : list MX -> list MX) : Prop :=
  forall l, Permutation l (f l) /\ StronglySorted byPref (f l).

(** [sort.SliceIsSorted(l, less)]: no record is less than the one
    before it. *)
Definition sliceIsSorted (less : MX -> MX -> bool) (l : list MX) : Prop :=
  forall i a b, l !! i = Some a -> l !! S i = Some b -> less b a = false.

(** What a call of [sort.Slice] with [less] has done when it returns:
    the slice holds the records it held, sorted for [less]. *)
Definition sliceSorted (less : MX -> MX -> bool) (before after : list MX) : Prop :=
  Permutation before after /\ sliceIsSorted less after.

(** The record at a smaller index never has the larger rank. *)
Definition ascendingByPref (l : list MX) : Prop :=
  forall i j a b, (i < j)%nat -> l !! i = Some a -> l !! j = Some b -> Pref a <= Pref b.

(** The records of rank [p], in the order they have in [l]. *)
Definition ofRank (p : Z) (l : list MX) : list MX :=
  List.filter (fun r => Pref r =? p) l.

(** Records of equal rank keep their order. *)
Definition keepsTies (f : list MX -> list MX) : Prop :=
  forall l p, ofRank p (f l) = ofRank p l.

Section Attempts.
Variable w : World.
Variable records : list MX.
Variables from rcpt : string.
Variable complete : bytes.

Definition attemptAddr (i : nat) : string :=
  Host (candidate records i) +:+ ":" +:+ GoStr.itoa 25.

Definition attemptEvent (i : nat) : Event :=
  EvSendMail (attemptAddr i) from [rcpt] complete.

(** The hand-offs of attempts [i], ..., [i + n - 1]. *)
Definition attemptEvents (i n : nat) : list Event :=
  map attemptEvent (seq i n).

Definition attemptMessage (total : Z) (errs : nat -> string) (i : nat) : string :=
  "attempt " +:+ GoStr.itoa (Z.of_nat i + 1) +:+ "/" +:+ GoStr.itoa total
    +:+ " failed: " +:+ errs i.

(** The answer of the server to attempt [j], after the attempts
    before it. *)
Definition answered (log : list Event) (j : nat) (a : error) : Prop :=
  smtp_SendMail w (log ++ attemptEvents 0 j)%list (attemptAddr j) from [rcpt] complete = a.

End Attempts.

(** The goroutine flags of a call that is inside the drain. *)
Definition flagsOf (c : Call) : list (bool * bool * bool) :=
  match c with
  | Draining h sm q => [(h, sm, q)]
  | _ => []
  end.

(** The calls that are inside the drain. *)
Definition inflight (cs : list Call) : list (bool * bool * bool) :=
  flat_map flagsOf cs.

Definition b2n (b : bool) : nat := if b then 1%nat else 0%nat.

(** What holds in every state the calls of [Shutdown] can reach. *)
Definition lifeInv (s : Life) : Prop :=
  crashed s = false /\
  match activeClosing s with
  | OnceNew =>
      inflight (calls s) = [] /\ Forall (fun c => c <> Returned) (calls s)
      /\ drains s = [] /\ queueClosed s = false
  | OnceRunning =>
      exists h sm q,
        inflight (calls s) = [(h, sm, q)]
        /\ Forall (fun c => c <> Returned) (calls s)
        /\ drainCount DrainHTTP s = b2n h
        /\ drainCount DrainSMTP s = b2n sm
        /\ drainCount DrainQueue s = b2n q
        /\ queueClosed s = q
  | OnceDone =>
      inflight (calls s) = []
      /\ (forall d, drainCount d s = 1%nat)
      /\ queueClosed s = true
  end.

End EmailView.

(** ** Sample worlds and messages *)
Module Samples.
Import Email.

(** A sort that meets the contract of [sort.Slice] on every slice:
    insertion before the first record that is not less. *)
Fixpoint insertBefore (less : MX -> MX -> bool) (x : MX) (l : list MX) : list MX :=
  match l with
  | [] => [x]
  | y :: rest => if less y x then y :: insertBefore less x rest else x :: l
  end.

Definition sortKeepingTies (less : MX -> MX -> bool) (l : list MX) : list MX :=
  foldr (insertBefore less) [] l.

(** [sort.Slice] of the Go library with a generator for
    [breakPatterns_func]; the samples below do not get there. *)
Definition goSlice : (MX -> MX -> bool) -> list MX -> list MX :=
  GoSort.Slice (fun r => r).

(** How many hand-offs the log holds. *)
Definition handoffs (log : list Event) : nat :=
  length (List.filter isHandoff log).

(** A world in which the exchangers of a domain are given by [mx],
    and in which the first [failures] hand-offs are refused. *)
Definition worldWith (mx : string -> list MX) (failures : nat)
    (sorter : (MX -> MX -> bool) -> list MX -> list MX) : World :=
  {| enmime_Build := fun _ => None;
     enmime_Encode := fun b => (list_byte_of_string (bToAddr b), None);
     dkim_Sign := fun r _ _ => (r, None);
     net_LookupMX := fun _ host => (mx host, None);
     sort_Slice := sorter;
     smtp_SendMail := fun log _ _ _ _ =>
       if (handoffs log <? failures)%nat then Some "refused" else None |}.

(** Every domain has the exchangers [mx2] (rank 20) and [mx1] (rank 10). *)
Definition twoRanks (host : string) : list MX :=
  [mkMX ("mx2." +:+ host) 20; mkMX ("mx1." +:+ host) 10].

(** Every domain has the exchangers [mx2] (rank 20), [mxa] and [mxb]
    (both of rank 10), answered in that order. *)
Definition tiedRanks (host : string) : list MX :=
  [mkMX ("mx2." +:+ host) 20; mkMX ("mxa." +:+ host) 10; mkMX ("mxb." +:+ host) 10].

(** Every domain has twelve exchangers of rank 10 and, last in the
    answer, one of rank 5. *)
Definition thirteen (host : string) : list MX :=
  map (fun name => mkMX (name +:+ "." +:+ host) 10)
      ["mx01"; "mx02"; "mx03"; "mx04"; "mx05"; "mx06";
       "mx07"; "mx08"; "mx09"; "mx10"; "mx11"; "mx12"]
  ++ [mkMX ("mx13." +:+ host) 5].

(** Every domain has the one exchanger [mx1]. *)
Definition oneExchanger (host : string) : list MX :=
  [mkMX ("mx1." +:+ host) 10].

Definition world : nat -> ((MX -> MX -> bool) -> list MX -> list MX) -> World :=
  worldWith twoRanks.

Definition noreply : Address := mkAddress "Robot" "noreply@example.org".
Definition alice : Address := mkAddress "Alice" "alice@a.test".
Definition bob : Address := mkAddress "Bob" "bob@b.test".

Definition toBoth : Email := mkEmail [alice; bob] noreply "Hello" "Hi" false [].
Definition toAlice : Email := mkEmail [alice] noreply "Hello" "Hi" false [].

Definition engine : Engine := New "example.org".

(** The engine once [Shutdown] has closed its queue. *)
Definition engineClosed : Engine :=
  withQueue engine (Some (GoChan.mkChan [] 1024 true)).

(** An engine whose queue of capacity 2 is full. *)
Definition engineFull : Engine :=
  withQueue engine (Some (GoChan.mkChan [toAlice; toAlice] 2 false)).

Definition mxOfAlice : list MX :=
  [mkMX "mx1.a.test" 10; mkMX "mx2.a.test" 20].

End Samples.

(** ** What the properties of the relay speak about, and samples *)
Module EnvView.
Import Env.

(** The libraries accept the data of [r] as a signed message from
    [From] to [To]. *)
Definition verified (l : Libs) (r : Reader) (To From : MailAddress) : Prop :=
  readError r = None
  /\ exists GetHeader,
       enmime_ReadEnvelope l (stream r) = Some GetHeader
       /\ mail_ParseAddress l (GetHeader "To") = Some To
       /\ mail_ParseAddress l (GetHeader "From") = Some From
       /\ dkim_Verify l (stream r) = true.

(** The queue and the suppression entry of a sender after a run. *)
Definition queuedAfter (c : Config) (l : Libs) (inputs : list (Z * Input))
    (s : Relay) : option (list Email) :=
  match relayRun c l inputs s with
  | Val s' => Some (queued s')
  | Panic _ => None
  end.

Definition entryAfter (c : Config) (l : Libs) (inputs : list (Z * Input))
    (s : Relay) (sender : string) : option Z :=
  match relayRun c l inputs s with
  | Val s' => emailDebounce (state s') !! sender
  | Panic _ => None
  end.

(** The configuration when no variable is set, and the same with
    [SMTP_DISABLE_NOREPLY] set. *)
Definition configDefault : Config :=
  mkConfig "example.org" "dmarc" "noreply" "support" "" "".

Definition configDisableSet : Config :=
  mkConfig "example.org" "dmarc" "noreply" "support" "" "1".

(** Toy libraries: the data are the recipient, a line feed, and the
    sender; every message verifies. *)
Definition line_feed : ascii := "010"%char.

Definition toyLibs : Libs :=
  {| enmime_ReadEnvelope := fun data =>
       match GoStr.cut line_feed (string_of_list_byte data) with
       | Some (to, from) =>
           Some (fun name => if String.eqb name "To" then to
                             else if String.eqb name "From" then from
                             else "")
       | None => None
       end;
     mail_ParseAddress := fun text =>
       if String.eqb text "" then None else Some (mkMailAddress "" text);
     dkim_Verify := fun _ => true;
     NoreplyIndex := "<h1>Need help?</h1>";
     NoreplyImage := [] |}.

Definition letter (to from : string) : Reader :=
  mkReader (list_byte_of_string (to +:+ String line_feed from)) None.

Definition toNoreply : Reader := letter "noreply@example.org" "alice@a.test".

Definition alice : MailAddress := mkMailAddress "" "alice@a.test".

Definition fresh : State := mkState ∅ (GoChan.make 1000).

Definition second : Z := GoTime.Second.
Definition hour : Z := GoTime.Hour.

(** The timer of [init] delivers its value after one hour; Alice
    writes to the no-reply inbox a second and two seconds later; the
    goroutine of [init] is scheduled again after two hours; Alice
    writes once more after three hours. *)
Definition firstTrigger : list (Z * Input) :=
  [(hour, TimerChannel); (hour + second, Inbound toNoreply)].

Definition secondTrigger : list (Z * Input) :=
  (firstTrigger ++ [(hour + 2 * second, Inbound toNoreply)])%list.

Definition thirdTrigger : list (Z * Input) :=
  (secondTrigger ++ [(2 * hour + 5 * second, TimerChannel); (3 * hour, Inbound toNoreply)])%list.

End EnvView.

(** ** Package [email]: the rest of the outgoing side *)
Module EmailMore.
Import Email.

(** [UseOutgoing]: the handler is appended to the middleware. *)
Definition UseOutgoing (e : Engine) (handler : HandlerMiddleware) : Engine :=
  {| OutgoingTimeout := OutgoingTimeout e;
     outgoingQueue := outgoingQueue e;
     outgoingMiddleware := (outgoingMiddleware e ++ [handler])%list;
     OutgoingDKIMEnabled := OutgoingDKIMEnabled e;
     OutgoingSelectorName := OutgoingSelectorName e;
     Domain := Domain e |}.

(** Several calls of [QueueEmail] in a row: the engine afterwards and
    the boolean of each call. *)
Fixpoint QueueEmails (e : Engine) (emails : list Email) : Res (Engine * list bool) :=
  match emails with
  | [] => Val (e, [])
  | email :: rest =>
      match QueueEmail e email with
      | Val (e1, ok) =>
          match QueueEmails e1 rest with
          | Val (e2, oks) => Val (e2, ok :: oks)
          | Panic msg => Panic msg
          end
      | Panic msg => Panic msg
      end
  end.

(** What a receive from a channel finds, as in [for email := range ch]. *)
Inductive Recv (A : Type) : Type :=
| Got (x : A) (c : GoChan.Chan A)   (* the oldest element, and the channel without it *)
| Empty                             (* nothing queued: the receive waits *)
| Drained.                          (* closed and empty: the loop ends *)
Arguments Got {A} x c.
Arguments Empty {A}.
Arguments Drained {A}.

Definition recv {A} (ch : option (GoChan.Chan A)) : Recv A :=
  match ch with
  | None => Empty
  | Some c =>
      match GoChan.buf c with
      | x :: rest => Got x (GoChan.mkChan rest (GoChan.cap c) (GoChan.closed c))
      | [] => if GoChan.closed c then Drained else Empty
      end
  end.

(** One worker goroutine of [Start] and what it acts on: the engine
    with its queue, the event log, and the errors given to
    [e.HandlerError]. *)
Record Pool : Type := mkPool {
  engine : Engine;
  netlog : list Event;
  handled : list string
}.

Inductive Exit : Type :=
| Finished                 (* the queue was closed and is drained *)
| Waiting                  (* the queue is empty and open *)
| Crashed (msg : string)   (* [SendEmail] panicked; nothing recovers it *)
| Unfinished.              (* the bound on iterations was reached *)

(** The worker loop
    [for email := range e.outgoingQueue { if err := e.SendEmail(email); err != nil { e.HandlerError(err) } }],
    for at most [fuel] iterations. *)
Fixpoint worker (w : World) (fuel : nat) (p : Pool) : Pool * Exit :=
  match fuel with
  | O => (p, Unfinished)
  | S fuel' =>
      match recv (outgoingQueue (engine p)) with
      | Drained => (p, Finished)
      | Empty => (p, Waiting)
      | Got email c =>
          let e := withQueue (engine p) (Some c) in
          match SendEmail w e email (netlog p) with
          | (log, Val None) => worker w fuel' (mkPool e log (handled p))
          | (log, Val (Some err)) =>
              worker w fuel' (mkPool e log (handled p ++ [err])%list)
          | (log, Panic msg) => (mkPool e log (handled p), Crashed msg)
          end
      end
  end.

(** *** [SetupDKIM] *)

(** What [x509.ParsePKCS8PrivateKey] may return as key. *)
Inductive PrivateKey : Type :=
| RSAKey (id : string)
| OtherKey (id : string).

(** The file system and the parsers. *)
Record KeyFiles : Type := mkKeyFiles {
  os_ReadFile : string -> bytes * error;
  (* [pem.Decode]: the bytes of the first block, or a [nil] block *)
  pem_Decode : bytes -> option bytes;
  x509_ParsePKCS8PrivateKey : bytes -> PrivateKey * error
}.

(** The engine together with its field [OutgoingDKIMSigner]. *)
Record Signing : Type := mkSigning {
  base : Engine;
  OutgoingDKIMSigner : option string
}.

Definition enableDKIM (e : Engine) : Engine :=
  {| OutgoingTimeout := OutgoingTimeout e;
     outgoingQueue := outgoingQueue e;
     outgoingMiddleware := outgoingMiddleware e;
     OutgoingDKIMEnabled := true;
     OutgoingSelectorName := OutgoingSelectorName e;
     Domain := Domain e |}.

(** [SetupDKIM(key)]: the engine afterwards and the error returned. *)
Definition SetupDKIM (f : KeyFiles) (s : Signing) (key : string)
  : Res (Signing * error) :=
  match os_ReadFile f key with
  | (_, Some err) => Val (s, Some err)
  | (b, None) =>
      match pem_Decode f b with
      | None => Panic "runtime error: invalid memory address or nil pointer dereference"
      | Some block =>
          match x509_ParsePKCS8PrivateKey f block with
          | (_, Some err) => Val (s, Some err)
          | (RSAKey id, None) => Val (mkSigning (enableDKIM (base s)) (Some id), None)
          | (OtherKey _, None) => Val (s, Some "expected rsa private key")
          end
      end
  end.

End EmailMore.

(** ** Package [env]: [SendEmail] *)
Module EnvSend.
Import Env.

(** The libraries of [Email.World], and [url.Parse] followed by
    [Hostname]: the host of the URL, if it parses. *)
Record Net : Type := mkNet {
  world : Email.World;
  url_Parse_Hostname : string -> option string
}.

Definition attachmentPart (a : EmailAttachment) : Email.BuilderPart :=
  if Inline a
  then Email.mkPart true (Data a) (ContentType a) (Filename a) (Filename a)
  else Email.mkPart false (Data a) (ContentType a) (Filename a) "".

Definition envelopeBuilder (e : Email) : Email.MailBuilder :=
  {| Email.bFromName := FromName e;
     Email.bFromAddr := FromAddress e;
     Email.bToName := ToName e;
     Email.bToAddr := ToAddress e;
     Email.bSubject := Subject e;
     Email.bIsHTML := HTML e;
     Email.bBody := list_byte_of_string (Content e);
     Email.bParts := map attachmentPart (Attachments e) |}.

(** [mxRecords = mxRecords[:3]] when there are more than three. *)
Definition capAt3 (mxRecords : list Email.MX) : list Email.MX :=
  if (3 <? length mxRecords)%nat then take 3 mxRecords else mxRecords.

(** [for _, mx := range mxRecords]: the function returns [nil] at the
    first hand-off that succeeds, or the loop ends with the errors. *)
Fixpoint deliverLoop (n : Net) (mxRecords : list Email.MX) (e : Email)
    (envelope : bytes) (sendError : list string)
  : Email.M (Email.Flow (list string) error) :=
  match mxRecords with
  | [] => Email.ret (Email.Next sendError)
  | mx :: rest =>
      Email.bind
        (Email.SendMail (world n) (Email.Host mx +:+ ":" +:+ GoStr.itoa 25)
                        (FromAddress e) [ToAddress e] envelope)
        (fun err =>
           match err with
           | None => Email.ret (Email.Return None)
           | Some m => deliverLoop n rest e envelope (sendError ++ [m])%list
           end)
  end.

(** [SendEmail] of package [env]. *)
Definition SendEmail (c : Config) (n : Net) (e : Email) : Email.M error :=
  let builder := envelopeBuilder e in
  match Email.enmime_Build (world n) builder with
  | Some err => Email.ret (Some ("building error " +:+ err))
  | None =>
      match Email.enmime_Encode (world n) builder with
      | (_, Some err) => Email.ret (Some ("encoding error " +:+ err))
      | (output, None) =>
          (* [dkim.Sign(&envelope, &output, ...)] *)
          match Email.dkim_Sign (world n) output (SMTP_DOMAIN c) "default" with
          | (_, Some err) => Email.ret (Some ("signing error " +:+ err))
          | (envelope, None) =>
              match url_Parse_Hostname n ("email://" +:+ ToAddress e) with
              | None => Email.ret (Some "malformed email address <nil>")
              | Some host =>
                  Email.bind (Email.LookupMX (world n) host)
                    (fun res =>
                       match res with
                       | (_, Some le) =>
                           if Email.isDNSError le && Email.IsNotFound le
                           then Email.ret (Some ("no mx records available for " +:+ host))
                           else Email.ret (Some ("dns lookup failed for " +:+ host))
                       | (mxRecords, None) =>
                           let mxRecords := capAt3 (Email.sort_Slice_byPref (world n) mxRecords) in
                           Email.bind (deliverLoop n mxRecords e envelope [])
                             (fun fl =>
                                match fl with
                                | Email.Return r => Email.ret r
                                | Email.Next sendError =>
                                    Email.ret (Some ("cannot send email: "
                                                     +:+ GoStr.Join sendError ", "))
                                end)
                       end)
              end
          end
      end
  end.

End EnvSend.

(** ** What the further properties speak about *)
Module MoreView.
Import Email EmailView EmailMore.

(** The bytes [SendEmail] hands to [smtp.SendMail] for an addressee:
    those of the buffer [complete]. *)
Definition handedOff (w : World) (e : Engine) (email : Email) (a : Address) : bytes :=
  if OutgoingDKIMEnabled e then []
  else fst (enmime_Encode w (envelopeBuilder email a)).

(** The events [SendEmail] may add for the addressee [a]: nothing, or
    the lookup of the host of [a] followed by [m] attempts on the
    sorted answer. *)
Definition deliveryEvents (w : World) (e : Engine) (email : Email) (a : Address)
    (log evs : list Event) : Prop :=
  evs = []
  \/ exists host m,
       extractHostFromAddress (Addr a) = (host, None)
       /\ (m <= Z.to_nat (attemptTotal e))%nat
       /\ evs = EvLookupMX host
                :: attemptEvents (sort_Slice_byPref w (fst (net_LookupMX w log host)))
                                 (Addr (From email)) (Addr a) (handedOff w e email a) 0 m.

(** The emails of a queue delivered one after the other, with the
    result of each. *)
Inductive Delivered (w : World) (e : Engine)
  : list Email -> list Event -> list error -> list Event -> Prop :=
| Delivered_nil log : Delivered w e [] log [] log
| Delivered_cons email rest log log1 r rs log2 :
    SendEmail w e email log = (log1, Val r) ->
    Delivered w e rest log1 rs log2 ->
    Delivered w e (email :: rest) log (r :: rs) log2.

(** The errors among the results, in order. *)
Definition errorsOf (results : list error) : list string :=
  omap (fun r : error => r) results.

(** The moves left to [n] calls of [Shutdown]: one for each call that
    has not reached [Do], and the four moves of the drain. *)
Definition entering (cs : list Call) : nat :=
  length (List.filter (fun c => match c with Entering => true | _ => false end) cs).

Definition isEntering (c : Call) : nat :=
  match c with Entering => 1%nat | _ => 0%nat end.

Definition movesLeft (s : Life) : nat :=
  (entering (calls s)
   + match activeClosing s with
     | OnceNew => 4
     | OnceRunning => 4 - length (drains s)
     | OnceDone => 0
     end)%nat.

(** The envelope for [a] builds, encodes and, where signing is on,
    signs without error. *)
Definition envelopeReady (w : World) (e : Engine) (email : Email) (a : Address) : Prop :=
  enmime_Build w (envelopeBuilder email a) = None
  /\ snd (enmime_Encode w (envelopeBuilder email a)) = None
  /\ (OutgoingDKIMEnabled e = true ->
      snd (dkim_Sign w [] (Domain e) (OutgoingSelectorName e)) = None).

(** The error text for a failed lookup. *)
Definition lookupFailure (host : string) (le : LookupError) : string :=
  if isDNSError le && IsNotFound le
  then "no mx records present for " +:+ host
  else "mx records unresolvable for " +:+ host +:+ ": " +:+ lookupText le.

(** Samples: middlewares, an engine that signs, worlds whose signer or
    resolver fails. *)
Definition tagSubject : HandlerMiddleware :=
  fun em => (mkEmail (To em) (From em) ("[out] " +:+ Subject em) (Content em)
                     (HTML em) (Attachments em), (true, None)).

Definition block : HandlerMiddleware :=
  fun em => (em, (false, Some "blocked")).

Definition engineSigning : Engine := enableDKIM Samples.engine.

Definition worldSignerFails : World :=
  {| enmime_Build := fun _ => None;
     enmime_Encode := fun b => (list_byte_of_string (bToAddr b), None);
     dkim_Sign := fun _ _ _ => ([], Some "no header");
     net_LookupMX := fun _ host => (Samples.twoRanks host, None);
     sort_Slice := Samples.sortKeepingTies;
     smtp_SendMail := fun _ _ _ _ _ => None |}.

Definition worldNoSuchHost : World :=
  {| enmime_Build := fun _ => None;
     enmime_Encode := fun b => (list_byte_of_string (bToAddr b), None);
     dkim_Sign := fun r _ _ => (r, None);
     net_LookupMX := fun _ _ => ([], Some (mkLookupError true true "no such host"));
     sort_Slice := Samples.sortKeepingTies;
     smtp_SendMail := fun _ _ _ _ _ => None |}.

(** A pool whose queue, already closed, holds the given emails. *)
Definition poolClosed (emails : list Email) : Pool :=
  mkPool (withQueue Samples.engine (Some (GoChan.mkChan emails 1024 true))) [] [].

(** An email to a domain that has no exchanger in [worldNoExchanger]. *)
Definition worldNoExchanger : World :=
  Samples.worldWith (fun host => if String.eqb host "b.test" then []
                                 else Samples.twoRanks host)
                    3 Samples.sortKeepingTies.

Definition toBob : Email :=
  mkEmail [Samples.bob] Samples.noreply "Hello" "Hi" false [].

(** A file system with an RSA key in [rsa.pem], an elliptic-curve key
    in [ec.pem], a file that is no PEM in [notes.txt], and nothing
    else. *)
Definition sampleFiles : KeyFiles :=
  {| os_ReadFile := fun name =>
       if String.eqb name "rsa.pem" then (list_byte_of_string "rsa", None)
       else if String.eqb name "ec.pem" then (list_byte_of_string "ec", None)
       else if String.eqb name "notes.txt" then (list_byte_of_string "hello", None)
       else ([], Some "open: no such file or directory");
     pem_Decode := fun b =>
       if String.eqb (string_of_list_byte b) "hello" then None else Some b;
     x509_ParsePKCS8PrivateKey := fun block =>
       if String.eqb (string_of_list_byte block) "rsa" then (RSAKey "k1", None)
       else (OtherKey "k2", None) |}.

Definition unsigned : Signing := mkSigning Samples.engine None.

(** The hand-off of [env.SendEmail] to one exchanger, and the signed
    bytes it carries. *)
Definition handoffTo (e : Env.Email) (envelope : bytes) (mx : MX) : Event :=
  EvSendMail (Host mx +:+ ":" +:+ GoStr.itoa 25) (Env.FromAddress e)
             [Env.ToAddress e] envelope.

Definition signedEnvelope (c : Env.Config) (n : EnvSend.Net) (e : Env.Email) : bytes :=
  fst (dkim_Sign (EnvSend.world n)
                 (fst (enmime_Encode (EnvSend.world n) (EnvSend.envelopeBuilder e)))
                 (Env.SMTP_DOMAIN c) "default").

(** A net whose URL parser takes the text after "email://" up to the
    last "@" as user and the rest as host. *)
Definition hostAfterAt (url : string) : option string :=
  match GoStr.cut at_sign url with
  | Some (_, host) => Some host
  | None => Some (substring 8 (String.length url - 8) url)
  end.

Definition sampleNet (w : World) : EnvSend.Net := EnvSend.mkNet w hostAfterAt.

Definition fourRanks (host : string) : list MX :=
  [mkMX ("mx4." +:+ host) 40; mkMX ("mx2." +:+ host) 20;
   mkMX ("mx1." +:+ host) 10; mkMX ("mx3." +:+ host) 30].

Definition envLetter : Env.Email :=
  Env.mkEmail "Alice" "alice@a.test" "Robot" "noreply@example.org" "Hello" "Hi" false [].

(** Building, encoding and signing succeed. *)
Definition envSigned (c : Env.Config) (n : EnvSend.Net) (e : Env.Email) : Prop :=
  enmime_Build (EnvSend.world n) (EnvSend.envelopeBuilder e) = None
  /\ snd (enmime_Encode (EnvSend.world n) (EnvSend.envelopeBuilder e)) = None
  /\ snd (dkim_Sign (EnvSend.world n)
                    (fst (enmime_Encode (EnvSend.world n) (EnvSend.envelopeBuilder e)))
                    (Env.SMTP_DOMAIN c) "default") = None.

(** Every exchanger of the list refuses, one after the other, with the
    given error texts. *)
Fixpoint refusedAll (w : World) (e : Env.Email) (envelope : bytes)
    (log : list Event) (mxs : list MX) (errs : list string) : Prop :=
  match mxs, errs with
  | [], [] => True
  | mx :: rest, m :: ms =>
      smtp_SendMail w log (Host mx +:+ ":" +:+ GoStr.itoa 25) (Env.FromAddress e)
                    [Env.ToAddress e] envelope = Some m
      /\ refusedAll w e envelope (log ++ [handoffTo e envelope mx])%list rest ms
  | _, _ => False
  end.

End MoreView.

(** ** Further samples for the relay *)
Module EnvMore.
Import Env EnvView.

(** Forwarding to a personal inbox is configured, and the auto-reply
    path is open. *)
Definition configForward : Config :=
  mkConfig "example.org" "dmarc" "noreply" "support" "me@home.test" "1".

Definition toSales : Reader := letter "sales@example.org" "alice@a.test".
Definition toDmarc : Reader := letter "dmarc@example.org" "reports@big.test".

(** A state whose queue, of capacity 1, is full. *)
Definition fullState : State :=
  mkState ∅ (Some (GoChan.mkChan [autoReply configForward toyLibs alice] 1 false)).

(** A state that holds an entry for Carol, which expires five seconds
    after the origin of time, and one email in its queue. *)
Definition carol : MailAddress := mkMailAddress "" "carol@c.test".

Definition remembering : State :=
  mkState (<["carol@c.test" := 5 * GoTime.Second]> ∅)
          (Some (GoChan.mkChan [autoReply configForward toyLibs carol] 1000 false)).

(** An environment in which only the given variable is set. *)
Definition onlySet (name value : string) : string -> string :=
  fun field => if String.eqb field name then value else "".

(** [close(emailQueue)] of the shutdown goroutine of [StartupWorkers]. *)
Definition closeQueue (st : State) : State :=
  mkState (emailDebounce st) (option_map GoChan.close (emailQueue st)).

(** The state with an open queue of the capacity given at package
    level. *)
Definition openQueue (st : State) : Prop :=
  GoChan.is_closed (emailQueue st) = false
  /\ (GoChan.len (emailQueue st) <= GoChan.capacity (emailQueue st))%nat.

End EnvMore.

(** ** Package [main]: the REST endpoint *)
Module Main.
Import Env.

Definition StatusOK : Z := 200.
Definition StatusCreated : Z := 201.
Definition StatusBadRequest : Z := 400.
Definition StatusUnauthorized : Z := 401.
Definition StatusMethodNotAllowed : Z := 405.
Definition StatusExpectationFailed : Z := 417.
Definition StatusUnprocessableEntity : Z := 422.

(** An [http.ResponseWriter] as the handler uses it: the status line,
    once written, and the body. *)
Record ResponseWriter : Type := mkResponse {
  wroteHeader : option Z;
  body : bytes
}.

(** [w.WriteHeader(code)]: the first call writes the status line, a
    later call only logs a superfluous-call line. *)
Definition WriteHeader (code : Z) (w : ResponseWriter) : ResponseWriter :=
  match wroteHeader w with
  | Some _ => w
  | None => mkResponse (Some code) (body w)
  end.

(** [w.Write(b)]: writes the status line with [StatusOK] first if none
    has been written. *)
Definition Write (b : bytes) (w : ResponseWriter) : ResponseWriter :=
  let w1 := WriteHeader StatusOK w in
  mkResponse (wroteHeader w1) (body w1 ++ b)%list.

(** The writer a handler is given, and the status the client reads
    when the handler has returned. *)
Definition newResponse : ResponseWriter := mkResponse None [].

Definition status (w : ResponseWriter) : Z :=
  default StatusOK (wroteHeader w).

(** What the handler reads of an [http.Request]. *)
Record Request : Type := mkRequest {
  Method : string;
  Authorization : string;          (* [r.Header.Get("Authorization")] *)
  Body : Reader
}.

(** [json.Unmarshal] into an [env.Email] and [validate.Struct]. *)
Record Libs : Type := mkLibs {
  json_Unmarshal : bytes -> option Email;
  validate_Struct : Email -> error
}.

(** The handler registered for ["/"] by [StartupHTTP]. *)
Definition handler (HTTP_PASSPHRASE : string) (l : Libs) (r : Request)
    (st : State) (w : ResponseWriter) : Res (State * ResponseWriter) :=
  if negb (String.eqb (Method r) "POST") then
    Val (st, WriteHeader StatusMethodNotAllowed w)
  else if negb (String.eqb (Authorization r) HTTP_PASSPHRASE) then
    Val (st, WriteHeader StatusUnauthorized w)
  else
    match readError (Body r) with
    | Some _ => Val (st, WriteHeader StatusExpectationFailed w)
    | None =>
        match json_Unmarshal l (stream (Body r)) with
        | None => Val (st, WriteHeader StatusUnprocessableEntity w)
        | Some incomingEmail =>
            match validate_Struct l incomingEmail with
            | Some err =>
                Val (st, WriteHeader StatusBadRequest
                           (Write (list_byte_of_string err) w))
            | None =>
                match QueueEmail st incomingEmail with
                | Val st' => Val (st', WriteHeader StatusCreated w)
                | Panic msg => Panic msg
                end
            end
        end
    end.

End Main.

Module MainView.
Import Env EnvView Main.

(** The request passes every check of the handler and carries [e]. *)
Definition accepted (passphrase : string) (l : Libs) (r : Request) (e : Email) : Prop :=
  Method r = "POST"
  /\ Authorization r = passphrase
  /\ readError (Body r) = None
  /\ json_Unmarshal l (stream (Body r)) = Some e
  /\ validate_Struct l e = None.

(** The body parses, and the validator refuses it with [err]. *)
Definition invalid (passphrase : string) (l : Libs) (r : Request) (err : string) : Prop :=
  Method r = "POST"
  /\ Authorization r = passphrase
  /\ readError (Body r) = None
  /\ exists e, json_Unmarshal l (stream (Body r)) = Some e
               /\ validate_Struct l e = Some err.

(** Toy libraries: the body is the recipient, a line feed and the
    sender; the validator wants a recipient. *)
Definition note (to from : string) : Email :=
  mkEmail "" to "" from "" "" false [].

Definition toyJson : Libs :=
  {| json_Unmarshal := fun data =>
       match GoStr.cut line_feed (string_of_list_byte data) with
       | Some (to, from) => Some (note to from)
       | None => None
       end;
     validate_Struct := fun e =>
       if String.eqb (ToAddress e) "" then Some "ToAddress is required" else None |}.

Definition post (to from : string) : Request :=
  mkRequest "POST" "teto" (letter to from).

End MainView.

(** * Properties *)

(** ** Strings *)
Module GoStrFacts.
Import GoStr.

Lemma cut_none c s : cut c s = None <-> contains c s = false.
Proof.
  induction s as [|a s IH]; simpl; [tauto|].
  destruct (Ascii.eqb a c); simpl; [split; discriminate|].
  destruct (cut c s) as [[pre post]|]; rewrite <- IH; split; congruence.
Qed.

Lemma cut_app c pre post :
  contains c pre = false -> cut c (pre +:+ String c post) = Some (pre, post).
Proof.
  induction pre as [|a pre IH]; simpl.
  - intros _. now rewrite Ascii.eqb_refl.
  - destruct (Ascii.eqb a c); simpl; [discriminate|].
    intros H. now rewrite (IH H).
Qed.

Lemma cut_some c s pre post :
  cut c s = Some (pre, post) ->
  s = pre +:+ String c post /\ contains c pre = false.
Proof.
  revert pre. induction s as [|a s IH]; simpl; intros pre; [discriminate|].
  destruct (Ascii.eqb_spec a c) as [->|Hne].
  - intros [= <- <-]. auto.
  - destruct (cut c s) as [[pre' post']|]; [|discriminate].
    intros [= <- <-]. destruct (IH pre' eq_refl) as [-> Hc].
    split; [reflexivity|]. simpl.
    destruct (Ascii.eqb_spec a c); [contradiction|exact Hc].
Qed.

End GoStrFacts.

(** ** The float64 quotient of the attempt budget *)
Module GoFloatFacts.
Import GoFloat.

(** The number of binary digits of a mantissa. *)
Lemma digits2_bounds (p : positive) :
  2 ^ (Zpos (digits2_pos p) - 1) <= Zpos p < 2 ^ Zpos (digits2_pos p).
Proof.
  induction p as [p IH|p IH|]; cbn [digits2_pos].
  - rewrite Pos2Z.inj_succ. replace (Z.succ (Zpos (digits2_pos p)) - 1)
      with (Z.succ (Zpos (digits2_pos p) - 1)) by lia.
    rewrite !Z.pow_succ_r by lia. lia.
  - rewrite Pos2Z.inj_succ. replace (Z.succ (Zpos (digits2_pos p)) - 1)
      with (Z.succ (Zpos (digits2_pos p) - 1)) by lia.
    rewrite !Z.pow_succ_r by lia. lia.
  - simpl. lia.
Qed.

Lemma digits2_unique (p : positive) (d : Z) :
  2 ^ (d - 1) <= Zpos p < 2 ^ d -> Zpos (digits2_pos p) = d.
Proof.
  intros [Hlo Hhi]. pose proof (digits2_bounds p) as [Blo Bhi].
  assert (0 < d).
  { destruct (Z.le_gt_cases d 0) as [Hd|Hd]; [|lia].
    assert (2 ^ d <= 2 ^ 0) by (apply Z.pow_le_mono_r; lia).
    simpl in H. lia. }
  destruct (Z.lt_trichotomy (Zpos (digits2_pos p)) d) as [Hlt|[Heq|Hgt]]; [|exact Heq|].
  - assert (2 ^ Zpos (digits2_pos p) <= 2 ^ (d - 1)) by (apply Z.pow_le_mono_r; lia). lia.
  - assert (2 ^ d <= 2 ^ (Zpos (digits2_pos p) - 1)) by (apply Z.pow_le_mono_r; lia). lia.
Qed.

Lemma iter_xO (d m : positive) : Zpos (Pos.iter xO m d) = Zpos m * 2 ^ Zpos d.
Proof.
  induction d as [|d IH] using Pos.peano_ind.
  - simpl. lia.
  - rewrite Pos.iter_succ, Pos2Z.inj_succ, Z.pow_succ_r by lia.
    rewrite Pos2Z.inj_xO, IH. lia.
Qed.

(** an exact mantissa of 53 digits is kept *)
Lemma round_aux_exact (s : bool) (m : positive) (e : Z) :
  Zpos (digits2_pos m) = 53 -> -1074 <= e <= 971 ->
  binary_round_aux prec emax s (Zpos m) e loc_Exact = S754_finite s m e.
Proof.
  intros Hd He. unfold binary_round_aux, shr_fexp, Zdigits2. rewrite Hd.
  unfold fexp, emin, prec, emax.
  replace (Z.max (53 + e - 53) (3 - 1024 - 53) - e) with 0 by lia.
  cbn [shr shr_record_of_loc shr_m loc_of_shr_record round_nearest_even Zdigits2].
  rewrite Hd.
  replace (Z.max (53 + e - 53) (3 - 1024 - 53) - e) with 0 by lia.
  cbn [shr shr_record_of_loc shr_m].
  destruct (Z.leb_spec e (1024 - 53)); [reflexivity|lia].
Qed.

Lemma ofInt_pos (T : Z) (d : Z) :
  0 < d <= 53 -> 2 ^ (d - 1) <= T < 2 ^ d ->
  exists m, ofInt T = S754_finite false m (d - 53)
            /\ Zpos m = T * 2 ^ (53 - d).
Proof.
  intros Hd HT.
  assert (Tpos : 0 < T).
  { assert (0 < 2 ^ (d - 1)) by (apply Z.pow_pos_nonneg; lia). lia. }
  destruct T as [|p|p]; try lia.
  pose proof (digits2_unique p d HT) as Hp.
  unfold ofInt, binary_normalize, binary_round. rewrite Hp.
  unfold fexp, emin, prec, emax, shl_align.
  replace (Z.max (d + 0 - 53) (3 - 1024 - 53) - 0) with (d - 53) by lia.
  replace (Z.max (d + 0 - 53) (3 - 1024 - 53)) with (d - 53) by lia.
  destruct (Z.eq_dec d 53) as [->|Hne].
  - simpl Z.sub. cbv iota beta.
    exists p. split; [|simpl; lia].
    apply (round_aux_exact false p 0); [exact Hp|lia].
  - destruct (d - 53) as [|q|q] eqn:Hq; try lia.
    exists (Pos.iter xO p q).
    assert (Hval : Zpos (Pos.iter xO p q) = Zpos p * 2 ^ (53 - d)).
    { rewrite iter_xO. f_equal. f_equal. lia. }
    split; [|exact Hval].
    apply (round_aux_exact false (Pos.iter xO p q) (Zneg q)); [|lia].
    apply digits2_unique. rewrite Hval.
    assert (E1 : 2 ^ (53 - 1) = 2 ^ (d - 1) * 2 ^ (53 - d))
      by (rewrite <- Z.pow_add_r by lia; f_equal; lia).
    assert (E2 : 2 ^ 53 = 2 ^ d * 2 ^ (53 - d))
      by (rewrite <- Z.pow_add_r by lia; f_equal; lia).
    assert (0 < 2 ^ (53 - d)) by (apply Z.pow_pos_nonneg; lia).
    rewrite E1, E2.
    split; [apply Z.mul_le_mono_nonneg_r; lia|apply Z.mul_lt_mono_pos_r; lia].
Qed.

(** the core of the division by ten *)
Lemma ofInt_10 : ofInt 10 = S754_finite false 5629499534213120 (-49).
Proof. reflexivity. Qed.


Lemma round_nearest_even_cases (m : Z) (l : location) :
  round_nearest_even m l = m \/ round_nearest_even m l = m + 1.
Proof.
  destruct l as [|[| |]]; simpl; auto. destruct (Z.even m); auto.
Qed.

Lemma loc_of_record (m : Z) (l : location) :
  loc_of_shr_record (shr_record_of_loc m l) = l
  /\ shr_m (shr_record_of_loc m l) = m.
Proof. destruct l as [|[| |]]; split; reflexivity. Qed.

(** The last step of [binary_round_aux] on a mantissa of 53 digits, or
    on 2^53. *)
Lemma final_step (s : bool) (r : Z) (e : Z) :
  2 ^ 52 <= r <= 2 ^ 53 -> -1074 <= e <= 970 ->
  exists m' e',
    (let '(mrs'', e'') := shr_fexp prec emax r e loc_Exact in
     match shr_m mrs'' with
     | Z0 => S754_zero s
     | Zpos m => if Z.leb e'' (Z.sub emax prec) then S754_finite s m e'' else S754_infinity s
     | _ => S754_nan
     end) = S754_finite s m' e'
    /\ e <= e' <= e + 1
    /\ Zpos m' * 2 ^ (e' - e) = r.
Proof.
  intros Hr He.
  destruct r as [|p|p]; try (simpl in Hr; lia).
  destruct (Z.eq_dec (Zpos p) (2 ^ 53)) as [Heq|Hne].
  - assert (Hp : p = 9007199254740992%positive) by (simpl in Heq; lia).
    subst p. exists 4503599627370496%positive, (e + 1).
    unfold shr_fexp, Zdigits2.
    change (Zpos (digits2_pos 9007199254740992)) with 54.
    unfold fexp, emin, prec, emax.
    replace (Z.max (54 + e - 53) (3 - 1024 - 53) - e) with 1 by lia.
    cbn [shr shr_record_of_loc iter_pos shr_1 shr_m orb].
    destruct (Z.leb_spec (e + 1) (1024 - 53)); [|lia].
    split; [reflexivity|]. split; [lia|].
    replace (e + 1 - e) with 1 by lia. reflexivity.
  - assert (Hd : Zpos (digits2_pos p) = 53).
    { apply digits2_unique. change (53 - 1) with 52. lia. }
    exists p, e. unfold shr_fexp, Zdigits2. rewrite Hd.
    unfold fexp, emin, prec, emax.
    replace (Z.max (53 + e - 53) (3 - 1024 - 53) - e) with 0 by lia.
    cbn [shr shr_record_of_loc shr_m].
    destruct (Z.leb_spec e (1024 - 53)); [|lia].
    split; [reflexivity|]. split; [lia|].
    rewrite Z.sub_diag. simpl. lia.
Qed.

Lemma round_aux_53 (s : bool) (q : positive) (e : Z) (l : location) :
  2 ^ 52 <= Zpos q < 2 ^ 53 -> -1074 <= e <= 970 ->
  exists m' e',
    binary_round_aux prec emax s (Zpos q) e l = S754_finite s m' e'
    /\ e <= e' <= e + 1
    /\ (Zpos m' * 2 ^ (e' - e) = Zpos q \/ Zpos m' * 2 ^ (e' - e) = Zpos q + 1).
Proof.
  intros Hq He.
  assert (Hd : Zpos (digits2_pos q) = 53).
  { apply digits2_unique. change (53 - 1) with 52. lia. }
  unfold binary_round_aux.
  assert (Hs : shr_fexp prec emax (Zpos q) e l = (shr_record_of_loc (Zpos q) l, e)).
  { unfold shr_fexp, Zdigits2. rewrite Hd. unfold fexp, emin, prec, emax.
    replace (Z.max (53 + e - 53) (3 - 1024 - 53) - e) with 0 by lia. reflexivity. }
  rewrite Hs. destruct (loc_of_record (Zpos q) l) as [-> ->].
  destruct (final_step s (round_nearest_even (Zpos q) l) e) as (m' & e' & Heq & He' & Hv).
  { destruct (round_nearest_even_cases (Zpos q) l) as [->| ->]; lia. }
  { exact He. }
  exists m', e'. split; [exact Heq|]. split; [exact He'|].
  rewrite Hv. apply round_nearest_even_cases.
Qed.

Lemma round_aux_54 (s : bool) (q : positive) (e : Z) (l : location) :
  2 ^ 53 <= Zpos q < 2 ^ 54 -> -1074 <= e <= 969 ->
  exists m' e',
    binary_round_aux prec emax s (Zpos q) e l = S754_finite s m' e'
    /\ e + 1 <= e' <= e + 2
    /\ (Zpos m' * 2 ^ (e' - (e + 1)) = Zpos q / 2
        \/ Zpos m' * 2 ^ (e' - (e + 1)) = Zpos q / 2 + 1).
Proof.
  intros Hq He.
  assert (Hd : Zpos (digits2_pos q) = 54).
  { apply digits2_unique. change (54 - 1) with 53. lia. }
  unfold binary_round_aux.
  assert (Hs : exists r0 s0,
             shr_fexp prec emax (Zpos q) e l
             = (Build_shr_record (Zpos q / 2) r0 s0, e + 1)).
  { unfold shr_fexp, Zdigits2. rewrite Hd. unfold fexp, emin, prec, emax.
    replace (Z.max (54 + e - 53) (3 - 1024 - 53) - e) with 1 by lia.
    cbn [shr iter_pos].
    destruct q as [p|p|]; [| |simpl in Hq; lia].
    - replace (Zpos p~1 / 2) with (Zpos p)
        by (apply (Z.div_unique _ 2 _ 1); lia).
      destruct l as [|[| |]]; simpl; eauto.
    - replace (Zpos p~0 / 2) with (Zpos p)
        by (apply (Z.div_unique _ 2 _ 0); lia).
      destruct l as [|[| |]]; simpl; eauto. }
  destruct Hs as (r0 & s0 & ->). cbn [shr_m].
  set (l' := loc_of_shr_record _).
  assert (Hhalf : 2 ^ 52 <= Zpos q / 2 < 2 ^ 53).
  { change (2 ^ 53) with (2 * 2 ^ 52) in Hq. change (2 ^ 54) with (2 * 2 ^ 53) in Hq.
    split; [apply Z.div_le_lower_bound; lia|apply Z.div_lt_upper_bound; lia]. }
  destruct (final_step s (round_nearest_even (Zpos q / 2) l') (e + 1))
    as (m' & e' & Heq & He' & Hv).
  { destruct (round_nearest_even_cases (Zpos q / 2) l') as [->| ->]; lia. }
  { lia. }
  exists m', e'. split; [exact Heq|]. split; [lia|].
  rewrite Hv. apply round_nearest_even_cases.
Qed.

Lemma floor_window (V K t : Z) : 0 < K -> t * K <= V < (t + 1) * K -> V / K = t.
Proof.
  intros HK HV. symmetry. apply (Z.div_unique V K t (V - t * K)); lia.
Qed.

Lemma quotient_window (T K : Z) :
  0 <= T -> 20 < K ->
  T / 10 * K <= T * K / 10 /\ T * K / 10 + 2 < (T / 10 + 1) * K.
Proof.
  intros HT HK.
  pose proof (Z.mul_div_le T 10 ltac:(lia)) as H1.
  pose proof (Z.mod_pos_bound T 10 ltac:(lia)) as H2.
  pose proof (Z.div_mod T 10 ltac:(lia)) as H3.
  pose proof (Z.mul_div_le (T * K) 10 ltac:(lia)) as H4.
  split.
  - apply Z.div_le_lower_bound; [lia|]. nia.
  - assert (T * K <= (10 * (T / 10) + 9) * K) by (apply Z.mul_le_mono_nonneg_r; lia).
    nia.
Qed.

(** The division by ten of a float that holds the integer [T]. *)
Lemma div10 (T d : Z) (m1 : positive) :
  0 < d <= 52 -> 2 ^ (d - 1) <= T < 2 ^ d ->
  Zpos m1 = T * 2 ^ (53 - d) ->
  exists l,
    SFdiv prec emax (S754_finite false m1 (d - 53)) (ofInt 10)
    = binary_round_aux prec emax false (T * 2 ^ (57 - d) / 10) (d - 57) l.
Proof.
  intros Hd HT Hm. rewrite ofInt_10.
  assert (Hp : 0 < 2 ^ (53 - d)) by (apply Z.pow_pos_nonneg; lia).
  assert (Hd1 : Zpos (digits2_pos m1) = 53).
  { apply digits2_unique. rewrite Hm.
    assert (E1 : 2 ^ (53 - 1) = 2 ^ (d - 1) * 2 ^ (53 - d))
      by (rewrite <- Z.pow_add_r by lia; f_equal; lia).
    assert (E2 : 2 ^ 53 = 2 ^ d * 2 ^ (53 - d))
      by (rewrite <- Z.pow_add_r by lia; f_equal; lia).
    rewrite E1, E2.
    split; [apply Z.mul_le_mono_nonneg_r; lia|apply Z.mul_lt_mono_pos_r; lia]. }
  unfold SFdiv, SFdiv_core_binary, Zdigits2. rewrite Hd1.
  change (Zpos (digits2_pos 5629499534213120)) with 53.
  unfold fexp, emin, prec, emax.
  replace (Z.min (Z.max (53 + (d - 53) - (53 + -49) - 53) (3 - 1024 - 53))
                 (d - 53 - -49)) with (d - 57) by lia.
  replace (d - 53 - -49 - (d - 57)) with 53 by lia.
  cbv iota beta.
  destruct (Z.div_eucl (Z.shiftl (Zpos m1) 53) (Zpos 5629499534213120))
    as [q r] eqn:Hdiv.
  assert (Hq : q = Z.shiftl (Zpos m1) 53 / 5629499534213120).
  { unfold Z.div. now rewrite Hdiv. }
  exists (new_location (Zpos 5629499534213120) r).
  cbn [xorb]. f_equal. rewrite Hq, Z.shiftl_mul_pow2 by lia. rewrite Hm.
  change 5629499534213120 with (10 * 2 ^ 49).
  replace (T * 2 ^ (53 - d) * 2 ^ 53) with (T * 2 ^ (57 - d) * 2 ^ 49).
  - apply Z.div_mul_cancel_r; [lia|]. apply Z.pow_nonzero; lia.
  - rewrite <- !Z.mul_assoc, <- !Z.pow_add_r by lia. do 2 f_equal. lia.
Qed.

Lemma toInt_finite (m : positive) (e : Z) :
  e < 0 -> toInt (S754_finite false m e) = Zpos m / 2 ^ (- e).
Proof.
  intros He. unfold toInt. destruct (Z.leb_spec 0 e); [lia|].
  apply Z.quot_div_nonneg; [lia|]. apply Z.pow_pos_nonneg; lia.
Qed.

(** [int(float64(T) / 10)] is [T / 10]. *)
Lemma div10_floor (T : Z) :
  0 < T < 2 ^ 52 ->
  toInt (SFdiv prec emax (ofInt T) (ofInt 10)) = T / 10.
Proof.
  intros HT.
  set (d := Z.log2 T + 1).
  assert (Hlog : 2 ^ (d - 1) <= T < 2 ^ d).
  { unfold d. replace (Z.log2 T + 1 - 1) with (Z.log2 T) by lia.
    apply Z.log2_spec. lia. }
  assert (Hd : 0 < d <= 52).
  { unfold d. pose proof (Z.log2_nonneg T).
    assert (Z.log2 T < 52) by (apply Z.log2_lt_pow2; lia). lia. }
  destruct (ofInt_pos T d ltac:(lia) Hlog) as (m1 & -> & Hm1).
  destruct (div10 T d m1 Hd Hlog Hm1) as (l & ->).
  set (K := 2 ^ (57 - d)).
  assert (HK : 32 <= K).
  { unfold K. change 32 with (2 ^ 5). apply Z.pow_le_mono_r; lia. }
  destruct (quotient_window T K ltac:(lia) ltac:(lia)) as [Hlo Hhi].
  fold K. set (q := T * K / 10) in *. set (t := T / 10) in *.
  assert (Ht : 0 <= t) by (apply Z.div_pos; lia).
  assert (Hq54 : 2 ^ 52 <= q < 2 ^ 54).
  { assert (HX : 2 ^ 56 <= T * K < 2 ^ 57).
    { assert (E1 : 2 ^ 56 = 2 ^ (d - 1) * K)
        by (unfold K; rewrite <- Z.pow_add_r by lia; f_equal; lia).
      assert (E2 : 2 ^ 57 = 2 ^ d * K)
        by (unfold K; rewrite <- Z.pow_add_r by lia; f_equal; lia).
      rewrite E1, E2.
      split; [apply Z.mul_le_mono_nonneg_r; lia|apply Z.mul_lt_mono_pos_r; lia]. }
    unfold q. split.
    - apply Z.div_le_lower_bound; [lia|]. simpl in *. lia.
    - apply Z.div_lt_upper_bound; [lia|]. simpl in *. lia. }
  assert (Hqpos : 0 < q) by (simpl in Hq54; lia).
  destruct q as [|qp|qp] eqn:Hqp; try lia.
  destruct (Z.lt_ge_cases (Zpos qp) (2 ^ 53)) as [H53|H54].
  - destruct (round_aux_53 false qp (d - 57) l ltac:(lia) ltac:(lia))
      as (m' & e' & -> & He' & Hv).
    rewrite toInt_finite by lia.
    assert (Hsame : Zpos m' / 2 ^ (- e') = (Zpos m' * 2 ^ (e' - (d - 57))) / K).
    { destruct (Z.eq_dec e' (d - 57)) as [->|Hne].
      - rewrite Z.sub_diag, Z.mul_1_r. unfold K. do 2 f_equal. lia.
      - replace (e' - (d - 57)) with 1 by lia.
        replace K with (2 ^ (- e') * 2 ^ 1)
          by (unfold K; rewrite <- Z.pow_add_r by lia; f_equal; lia).
        rewrite Z.div_mul_cancel_r; [reflexivity| |discriminate].
        apply Z.pow_nonzero; lia. }
    rewrite Hsame. apply floor_window; [lia|].
    destruct Hv as [-> | ->]; lia.
  - destruct (round_aux_54 false qp (d - 57) l ltac:(lia) ltac:(lia))
      as (m' & e' & -> & He' & Hv).
    rewrite toInt_finite by lia.
    set (K' := 2 ^ (56 - d)).
    assert (HKK : K = 2 * K').
    { unfold K, K'. replace (57 - d) with (Z.succ (56 - d)) by lia.
      apply Z.pow_succ_r. lia. }
    assert (Hsame : Zpos m' / 2 ^ (- e') = (Zpos m' * 2 ^ (e' - (d - 57 + 1))) / K').
    { destruct (Z.eq_dec e' (d - 57 + 1)) as [->|Hne].
      - rewrite Z.sub_diag, Z.mul_1_r. unfold K'. do 2 f_equal. lia.
      - replace (e' - (d - 57 + 1)) with 1 by lia.
        replace K' with (2 ^ (- e') * 2 ^ 1)
          by (unfold K'; rewrite <- Z.pow_add_r by lia; f_equal; lia).
        rewrite Z.div_mul_cancel_r; [reflexivity| |discriminate].
        apply Z.pow_nonzero; lia. }
    rewrite Hsame. apply floor_window; [lia|].
    pose proof (Z.mul_div_le (Zpos qp) 2 ltac:(lia)) as Hh1.
    pose proof (Z.mod_pos_bound (Zpos qp) 2 ltac:(lia)) as Hh2.
    pose proof (Z.div_mod (Zpos qp) 2 ltac:(lia)) as Hh3.
    destruct Hv as [-> | ->]; nia.
Qed.

Lemma secondsOver10_whole (T : Z) :
  0 <= T < 2 ^ 52 -> GoFloat.secondsOver10 (T * GoTime.Second) = T / 10.
Proof.
  intros HT. unfold secondsOver10, Seconds.
  rewrite Z.quot_mul, Z.rem_mul by (unfold GoTime.Second; lia).
  change (SFdiv prec emax (ofInt 0) (ofInt 1000000000)) with (S754_zero false).
  destruct (Z.eq_dec T 0) as [->|Hne]; [reflexivity|].
  assert (Hadd : SFadd prec emax (ofInt T) (S754_zero false) = ofInt T).
  { set (d := Z.log2 T + 1).
    assert (Hlog : 2 ^ (d - 1) <= T < 2 ^ d).
    { unfold d. replace (Z.log2 T + 1 - 1) with (Z.log2 T) by lia.
      apply Z.log2_spec. lia. }
    assert (Hd : 0 < d <= 53).
    { unfold d. pose proof (Z.log2_nonneg T).
      assert (Z.log2 T < 52) by (apply Z.log2_lt_pow2; lia). lia. }
    destruct (ofInt_pos T d Hd Hlog) as (m1 & -> & _). reflexivity. }
  rewrite Hadd. apply div10_floor. lia.
Qed.

End GoFloatFacts.

(** ** The insertion sort of [sort.Slice] *)
Module GoSortFacts.
Import GoSort GoSortView.
Local Open Scope nat_scope.
Local Open Scope list_scope.

Section Insertion.
Context {A : Type}.
Variable next : Z -> Z.
Variable less : A -> A -> bool.

Local Abbreviation sink := (GoSortView.sink less).

Lemma length_sink x rp : length (sink x rp) = S (length rp).
Proof.
  induction rp as [|y r IH]; simpl; [reflexivity|].
  destruct (less x y); simpl; [now rewrite IH|reflexivity].
Qed.

Lemma Swap_adjacent (pre suf : list A) (x y : A) :
  Swap (pre ++ y :: x :: suf) (S (length pre)) (length pre) = pre ++ x :: y :: suf.
Proof.
  unfold Swap.
  rewrite (lookup_app_r pre) by lia.
  replace (S (length pre) - length pre)%nat with 1%nat by lia. simpl.
  rewrite (lookup_app_r pre) by lia. rewrite Nat.sub_diag. simpl.
  rewrite (insert_app_r_alt pre) by lia. rewrite Nat.sub_diag. simpl.
  rewrite (insert_app_r_alt pre) by lia.
  replace (S (length pre) - length pre)%nat with 1%nat by lia. reflexivity.
Qed.

Lemma insertionShift_sink (rp suf : list A) (x : A) (fuel : nat) :
  (length rp <= fuel)%nat ->
  insertionShift less fuel (reverse rp ++ x :: suf) 0 (length rp)
  = reverse (sink x rp) ++ suf.
Proof.
  revert suf fuel. induction rp as [|y r IH]; intros suf fuel Hfuel.
  - destruct fuel; reflexivity.
  - destruct fuel as [|fuel]; [simpl in Hfuel; lia|].
    cbn [insertionShift length].
    rewrite reverse_cons, <- app_assoc. cbn [app].
    replace (S (length r) - 1)%nat with (length (reverse r))
      by (rewrite length_reverse; lia).
    replace (S (length r)) with (S (length (reverse r)))
      by (now rewrite length_reverse).
    assert (HL : Less less (reverse r ++ y :: x :: suf) (S (length (reverse r)))
                      (length (reverse r)) = less x y).
    { unfold Less. rewrite (lookup_app_r (reverse r)) by lia.
      replace (S (length (reverse r)) - length (reverse r))%nat with 1%nat by lia.
      simpl. rewrite (lookup_app_r (reverse r)) by lia.
      now rewrite Nat.sub_diag. }
    rewrite HL. cbn [Nat.ltb Nat.leb andb].
    destruct (less x y) eqn:Hxy; cbn [sink]; rewrite Hxy.
    + rewrite Swap_adjacent. rewrite length_reverse.
      rewrite IH by (simpl in Hfuel; lia).
      rewrite reverse_cons, <- app_assoc. reflexivity.
    + rewrite !reverse_cons, <- !app_assoc. reflexivity.
Qed.

Lemma insertionLoop_sink (rest rp : list A) (fuel : nat) :
  (length rest <= fuel)%nat ->
  insertionLoop less fuel (reverse rp ++ rest) 0 (length rp + length rest) (length rp)
  = reverse (foldl (fun acc x => sink x acc) rp rest).
Proof.
  revert rp fuel. induction rest as [|x rest IH]; intros rp fuel Hfuel.
  - rewrite app_nil_r. simpl. rewrite Nat.add_0_r.
    destruct fuel; simpl; [reflexivity|]. now rewrite Nat.ltb_irrefl.
  - destruct fuel as [|fuel]; [simpl in Hfuel; lia|].
    cbn [insertionLoop foldl length].
    destruct (Nat.ltb_spec (length rp) (length rp + S (length rest))) as [_|Hge]; [|lia].
    rewrite insertionShift_sink by lia.
    specialize (IH (sink x rp) fuel ltac:(simpl in Hfuel; lia)).
    rewrite length_sink in IH.
    replace (length rp + S (length rest))%nat with (S (length rp) + length rest)%nat by lia.
    replace (length rp + 1)%nat with (S (length rp)) by lia.
    exact IH.
Qed.

(** The insertion sort of the library on a whole slice. *)
Lemma insertionSort_sink (l : list A) :
  insertionSort_func less l 0 (length l)
  = reverse (foldl (fun acc x => sink x acc) [] l).
Proof.
  unfold insertionSort_func. rewrite Nat.sub_0_r.
  destruct l as [|x rest]; [reflexivity|].
  pose proof (insertionLoop_sink rest [x] (length (x :: rest))) as H.
  simpl in H. simpl. apply H. lia.
Qed.

(** [sort.Slice] on at most twelve elements is that insertion sort. *)
Lemma Slice_short (l : list A) :
  (length l <= 12)%nat ->
  Slice next less l = reverse (sunk less l).
Proof.
  intros Hlen. unfold Slice, pdqsort_func. rewrite Nat.sub_0_r, Nat.add_1_r.
  cbn [pdqsort_loop]. rewrite Nat.sub_0_r.
  destruct (Nat.leb_spec (length l) 12) as [_|Hgt]; [|lia].
  apply insertionSort_sink.
Qed.

Lemma sink_perm x rp : Permutation (x :: rp) (sink x rp).
Proof.
  induction rp as [|y r IH]; simpl; [reflexivity|].
  destruct (less x y); [|reflexivity].
  rewrite <- IH. apply perm_swap.
Qed.

Lemma foldl_sink_perm l acc :
  Permutation (l ++ acc) (foldl (fun acc x => sink x acc) acc l).
Proof.
  revert acc. induction l as [|x l IH]; intros acc; simpl; [reflexivity|].
  rewrite <- IH, <- sink_perm. apply Permutation_middle.
Qed.

Lemma sunk_perm l : Permutation l (reverse (sunk less l)).
Proof.
  rewrite reverse_Permutation. unfold sunk.
  rewrite <- foldl_sink_perm. now rewrite app_nil_r.
Qed.

End Insertion.
End GoSortFacts.

(** ** The delivery loop of package [env] *)
Module EnvLoopFacts.
Import Email EmailView MoreView.

Lemma deliverLoop_events (n : EnvSend.Net) (mxs : list MX) (e : Env.Email)
    (envelope : bytes) (acc : list string) (log : list Event) :
  exists k r,
    (k <= length mxs)%nat
    /\ EnvSend.deliverLoop n mxs e envelope acc log
       = ((log ++ map (handoffTo e envelope) (take k mxs))%list, Val r).
Proof.
  revert acc log. induction mxs as [|mx rest IH]; intros acc log.
  - exists 0%nat. eexists. split; [simpl; lia|]. simpl. unfold ret.
    now rewrite app_nil_r.
  - simpl. unfold bind, SendMail.
    destruct (smtp_SendMail (EnvSend.world n) log _ _ _ envelope) as [m|].
    + destruct (IH (acc ++ [m])%list (log ++ [handoffTo e envelope mx])%list)
        as (k & r & Hk & Heq).
      exists (S k), r. split; [lia|].
      unfold handoffTo in Heq at 1. rewrite Heq. rewrite <- app_assoc. reflexivity.
    + exists 1%nat. eexists. split; [lia|]. reflexivity.
Qed.

Lemma capAt3_take (l : list MX) : EnvSend.capAt3 l = take 3 l.
Proof.
  unfold EnvSend.capAt3. destruct (Nat.ltb_spec 3 (length l)); [reflexivity|].
  symmetry. apply take_ge. lia.
Qed.

Lemma deliverLoop_all_refused (n : EnvSend.Net) (e : Env.Email) (envelope : bytes)
    (mxs : list MX) (errs acc : list string) (log : list Event) :
  refusedAll (EnvSend.world n) e envelope log mxs errs ->
  EnvSend.deliverLoop n mxs e envelope acc log
  = ((log ++ map (handoffTo e envelope) mxs)%list, Val (Next (acc ++ errs)%list))
  /\ length errs = length mxs.
Proof.
  revert errs acc log. induction mxs as [|mx rest IH]; intros errs acc log Href.
  - destruct errs; [|destruct Href]. simpl. unfold ret. now rewrite !app_nil_r.
  - destruct errs as [|m ms]; [destruct Href|]. destruct Href as [Hm Hrest].
    simpl. unfold bind, SendMail. rewrite Hm.
    destruct (IH ms (acc ++ [m])%list _ Hrest) as [Heq Hlen].
    unfold handoffTo in Heq at 1. rewrite Heq, <- !app_assoc. simpl.
    split; [reflexivity|]. now rewrite Hlen.
Qed.

End EnvLoopFacts.

(** ** The engine *)
Module EmailSpec.
Import Email EmailView Samples.

(** *** The resolver rejects an address without a domain *)

Lemma extractHost_rejects address :
  lacksAt address \/ emptyDomain address ->
  extractHostFromAddress address = ("", Some ("invalid email address: " +:+ address)).
Proof.
  unfold extractHostFromAddress, GoStr.SplitN2.
  intros [H | (loc & Hloc & ->)].
  - apply GoStrFacts.cut_none in H. now rewrite H.
  - change (loc +:+ "@") with (loc +:+ String at_sign "").
    now rewrite (GoStrFacts.cut_app _ _ _ Hloc).
Qed.

Lemma extractHost_accepts loc dom :
  GoStr.contains at_sign loc = false -> dom <> "" ->
  extractHostFromAddress (loc +:+ String at_sign dom) = (dom, None).
Proof.
  intros Hloc Hdom. unfold extractHostFromAddress, GoStr.SplitN2.
  rewrite (GoStrFacts.cut_app _ _ _ Hloc).
  destruct (String.eqb_spec dom ""); [contradiction|reflexivity].
Qed.



(** *** The attempt loop *)

Section Attempts.
Variable w : World.
Variable records : list MX.
Variables from rcpt : string.
Variable complete : bytes.

Local Abbreviation attemptAddr := (EmailView.attemptAddr records).
Local Abbreviation attemptEvent := (EmailView.attemptEvent records from rcpt complete).
Local Abbreviation attemptEvents := (EmailView.attemptEvents records from rcpt complete).

Lemma attemptEvents_S i n :
  attemptEvents i (S n) = attemptEvent i :: attemptEvents (S i) n.
Proof. reflexivity. Qed.

Lemma recordAt_candidate i :
  records <> [] ->
  (i mod length records < length records)%nat
  /\ records !! (i mod length records)%nat = Some (candidate records i)
  /\ recordAt records (Z.of_nat i) = Val (candidate records i).
Proof.
  intros Hne.
  assert (Hlen : (length records <> 0)%nat) by (destruct records; simpl; congruence).
  assert (Hlt : (i mod length records < length records)%nat)
    by (apply Nat.mod_upper_bound; exact Hlen).
  assert (Hlk : records !! (i mod length records)%nat = Some (candidate records i)).
  { unfold candidate. rewrite nth_lookup.
    destruct (lookup_lt_is_Some_2 records _ Hlt) as [r Hr]. now rewrite Hr. }
  split; [exact Hlt|]. split; [exact Hlk|].
  unfold recordAt.
  destruct (Z.eqb_spec (Z.of_nat (length records)) 0) as [H0|_]; [lia|].
  cbv zeta. rewrite Z.rem_mod_nonneg by lia.
  rewrite <- Nat2Z.inj_mod.
  destruct (Z.ltb_spec (Z.of_nat (i mod length records)) 0) as [Hneg|_]; [lia|].
  rewrite Nat2Z.id. now rewrite Hlk.
Qed.

(** The loop never panics on a non-empty list. *)
Lemma attemptLoop_total n i total errs log :
  records <> [] ->
  exists fl, snd (attemptLoop w n (Z.of_nat i) total records from rcpt complete errs log)
             = Val fl.
Proof.
  intros Hne. revert i errs log.
  induction n as [|n IH]; intros i errs log; simpl; [eauto|].
  destruct (recordAt_candidate i Hne) as (_ & _ & ->).
  unfold bind, SendMail.
  destruct (smtp_SendMail w log _ from [rcpt] complete) as [m|]; [|simpl; eauto].
  replace (Z.of_nat i + 1) with (Z.of_nat (S i)) by lia. apply IH.
Qed.

(** Attempts that all fail: the loop falls through with one message
    for each. *)
Lemma attemptLoop_all_fail (errs : nat -> string) total n i acc log :
  records <> [] ->
  (forall j, (j < n)%nat ->
     smtp_SendMail w (log ++ attemptEvents i j)%list (attemptAddr (i + j))
                   from [rcpt] complete = Some (errs (i + j)%nat)) ->
  attemptLoop w n (Z.of_nat i) total records from rcpt complete acc log
  = ((log ++ attemptEvents i n)%list,
     Val (Next (acc ++ map (attemptMessage total errs) (seq i n))%list)).
Proof.
  intros Hne. revert i acc log.
  induction n as [|n IH]; intros i acc log Hans; simpl.
  - unfold ret. now rewrite !app_nil_r.
  - destruct (recordAt_candidate i Hne) as (_ & _ & ->).
    unfold bind, SendMail. fold (attemptAddr i).
    pose proof (Hans 0%nat ltac:(lia)) as H0.
    simpl in H0. rewrite app_nil_r, Nat.add_0_r in H0. rewrite H0.
    replace (Z.of_nat i + 1) with (Z.of_nat (S i)) by lia.
    rewrite IH.
    + fold (attemptEvent i). rewrite <- !app_assoc. simpl.
      unfold attemptMessage at 2.
      replace (Z.of_nat (S i)) with (Z.of_nat i + 1) by lia. reflexivity.
    + intros j Hj. specialize (Hans (S j) ltac:(lia)).
      rewrite attemptEvents_S in Hans. rewrite <- app_assoc. simpl.
      rewrite Nat.add_succ_r in Hans. exact Hans.
Qed.

(** Attempt [i + k] is the first to succeed: the function returns
    [nil] right after it. *)
Lemma attemptLoop_success (errs : nat -> string) total n k i acc log :
  records <> [] -> (k < n)%nat ->
  (forall j, (j < k)%nat ->
     smtp_SendMail w (log ++ attemptEvents i j)%list (attemptAddr (i + j))
                   from [rcpt] complete = Some (errs (i + j)%nat)) ->
  smtp_SendMail w (log ++ attemptEvents i k)%list (attemptAddr (i + k))
                from [rcpt] complete = None ->
  attemptLoop w n (Z.of_nat i) total records from rcpt complete acc log
  = ((log ++ attemptEvents i (S k))%list, Val (Return None)).
Proof.
  intros Hne. revert k i acc log.
  induction n as [|n IH]; intros k i acc log Hk Hans Hok; [lia|]. simpl.
  destruct (recordAt_candidate i Hne) as (_ & _ & ->).
  unfold bind, SendMail. fold (attemptAddr i).
  destruct k as [|k].
  - simpl in Hok. rewrite app_nil_r, Nat.add_0_r in Hok. rewrite Hok.
    reflexivity.
  - pose proof (Hans 0%nat ltac:(lia)) as H0.
    simpl in H0. rewrite app_nil_r, Nat.add_0_r in H0. rewrite H0.
    replace (Z.of_nat i + 1) with (Z.of_nat (S i)) by lia.
    rewrite (IH k).
    + rewrite <- app_assoc. reflexivity.
    + lia.
    + intros j Hj. specialize (Hans (S j) ltac:(lia)).
      rewrite attemptEvents_S in Hans. rewrite <- app_assoc. simpl.
      rewrite Nat.add_succ_r in Hans. exact Hans.
    + rewrite attemptEvents_S in Hok. rewrite <- app_assoc. simpl.
      rewrite Nat.add_succ_r in Hok. exact Hok.
Qed.

End Attempts.

(** *** The attempt budget *)

(** On a timeout of a whole number of seconds the budget is the
    integer quotient: the float64 quotient, truncated, is [T / 10] for
    every [time.Duration] of whole seconds. *)
Lemma attemptTotal_seconds (e : Engine) (T : Z) :
  0 <= T <= 9223372036 ->
  OutgoingTimeout e = T * GoTime.Second ->
  attemptTotal e = Z.max 1 (T / 10).
Proof.
  intros HT Hd. unfold attemptTotal. rewrite Hd.
  rewrite GoFloatFacts.secondsOver10_whole; [lia|].
  split; [lia|]. apply Z.le_lt_trans with 9223372036; [lia|reflexivity].
Qed.

Lemma attemptTotal_positive (e : Engine) : 1 <= attemptTotal e.
Proof. unfold attemptTotal. lia. Qed.

Lemma deliverEnvelope_all_fail
    (w : World) (e : Engine) (email : Email) (addressee : Address)
    (complete : bytes) (records : list MX) (log : list Event)
    (errs : nat -> string) :
  records <> [] ->
  (forall j, (j < Z.to_nat (attemptTotal e))%nat ->
     answered w records (Addr (From email)) (Addr addressee) complete log j
              (Some (errs j))) ->
  deliverEnvelope w e email addressee complete records log
  = ((log ++ attemptEvents records (Addr (From email)) (Addr addressee) complete
                           0 (Z.to_nat (attemptTotal e)))%list,
     Val (Some ("email delivery failed: "
                +:+ GoStr.Join (map (attemptMessage (attemptTotal e) errs)
                                    (seq 0 (Z.to_nat (attemptTotal e))))
                               (String "010"%char "")))).
Proof.
  intros Hne Hans. unfold deliverEnvelope, bind. cbv zeta.
  pose proof (attemptLoop_all_fail w records (Addr (From email)) (Addr addressee)
                complete errs (attemptTotal e) (Z.to_nat (attemptTotal e))
                0 [] log Hne Hans) as H.
  change (Z.of_nat 0) with 0 in H. rewrite H. reflexivity.
Qed.

Lemma deliverEnvelope_success
    (w : World) (e : Engine) (email : Email) (addressee : Address)
    (complete : bytes) (records : list MX) (log : list Event)
    (errs : nat -> string) (k : nat) :
  records <> [] ->
  (k < Z.to_nat (attemptTotal e))%nat ->
  (forall j, (j < k)%nat ->
     answered w records (Addr (From email)) (Addr addressee) complete log j
              (Some (errs j))) ->
  answered w records (Addr (From email)) (Addr addressee) complete log k None ->
  deliverEnvelope w e email addressee complete records log
  = ((log ++ attemptEvents records (Addr (From email)) (Addr addressee) complete
                           0 (S k))%list, Val None).
Proof.
  intros Hne Hk Hans Hok. unfold deliverEnvelope, bind. cbv zeta.
  pose proof (attemptLoop_success w records (Addr (From email)) (Addr addressee)
                complete errs (attemptTotal e) (Z.to_nat (attemptTotal e))
                k 0 [] log Hne Hk Hans Hok) as H.
  change (Z.of_nat 0) with 0 in H. rewrite H. reflexivity.
Qed.

(** C4, as the code has it.  On a list of candidates that is not
    empty, the engine takes a budget of
    [max(int(OutgoingTimeout.Seconds()/10), 1)] attempts, the quotient
    computed in float64.  If the server refuses every attempt, exactly
    that many hand-offs are made, attempt [i] going to candidate
    [i mod len(records)], and the error returned joins the message of
    every attempt.  If attempt [k] is the first to be accepted, the
    hand-offs stop with it and [nil] is returned.  On a timeout of [T]
    whole seconds, whatever [time.Duration] that is (the longest has
    9223372036 whole seconds), the budget is [max(1, floor(T/10))];
    with [T = 30] it is 3.  The loop of
    [SendEmail] of package [env] has no budget: it keeps the first
    three candidates and hands the envelope to each of them once, in
    order, until one accepts. *)
Theorem delivery_attempts
    (w : World) (e : Engine) (email : Email) (addressee : Address)
    (complete : bytes) (records : list MX) (log : list Event) :
  records <> [] ->
  let total := attemptTotal e in
  let from := Addr (From email) in
  let rcpt := Addr addressee in
  total = Z.max (GoFloat.toInt (SFdiv GoFloat.prec GoFloat.emax
                                      (GoFloat.Seconds (OutgoingTimeout e))
                                      (GoFloat.ofInt 10))) 1
  /\ (forall errs : nat -> string,
        (forall j, (j < Z.to_nat total)%nat ->
           answered w records from rcpt complete log j (Some (errs j))) ->
        deliverEnvelope w e email addressee complete records log
        = ((log ++ attemptEvents records from rcpt complete 0 (Z.to_nat total))%list,
           Val (Some ("email delivery failed: "
                      +:+ GoStr.Join (map (attemptMessage total errs)
                                          (seq 0 (Z.to_nat total)))
                                     (String "010"%char "")))))
  /\ (forall (errs : nat -> string) (k : nat),
        (k < Z.to_nat total)%nat ->
        (forall j, (j < k)%nat ->
           answered w records from rcpt complete log j (Some (errs j))) ->
        answered w records from rcpt complete log k None ->
        deliverEnvelope w e email addressee complete records log
        = ((log ++ attemptEvents records from rcpt complete 0 (S k))%list, Val None))
  /\ (forall i, attemptAddr records i
                = Host (nth (i mod length records) records (mkMX "" 0)) +:+ ":25")
  /\ (forall T, 0 <= T <= 9223372036 -> OutgoingTimeout e = T * GoTime.Second ->
                total = Z.max 1 (T / 10))
  /\ (OutgoingTimeout e = 30 * GoTime.Second -> total = 3)
  /\ (forall (n : EnvSend.Net) (m : Env.Email) (envelope : bytes),
        let kept := EnvSend.capAt3 records in
        length kept = Nat.min 3 (length records)
        /\ (exists k r,
              (k <= length kept)%nat
              /\ EnvSend.deliverLoop n kept m envelope [] log
                 = ((log ++ map (MoreView.handoffTo m envelope) (take k kept))%list,
                    Val r))
        /\ (forall errs,
              MoreView.refusedAll (EnvSend.world n) m envelope log kept errs ->
              EnvSend.deliverLoop n kept m envelope [] log
              = ((log ++ map (MoreView.handoffTo m envelope) kept)%list,
                 Val (Next errs)))).
Proof.
  intros Hne total from rcpt.
  split; [reflexivity|]. split; [|split; [|split; [|split; [|split]]]].
  - intros errs Hans.
    apply (deliverEnvelope_all_fail w e email addressee complete records log errs Hne).
    exact Hans.
  - intros errs k Hk Hans Hok.
    apply (deliverEnvelope_success w e email addressee complete records log errs k);
      [exact Hne | exact Hk | exact Hans | exact Hok].
  - reflexivity.
  - intros T HT Hd. exact (attemptTotal_seconds e T HT Hd).
  - intros Hd. unfold total. rewrite (attemptTotal_seconds e 30); [reflexivity|lia|exact Hd].
  - intros n m envelope kept. split; [|split].
    + unfold kept. rewrite EnvLoopFacts.capAt3_take, length_take. lia.
    + apply EnvLoopFacts.deliverLoop_events.
    + intros errs Href.
      destruct (EnvLoopFacts.deliverLoop_all_refused n m envelope kept errs [] log Href)
        as [Heq _].
      exact Heq.
Qed.

(** C10. On a list of candidates that is not empty, the index
    [i mod len(records)] of every attempt [i] lies inside the list,
    the access yields that record, and the attempt loop does not
    panic.  On the empty list, which no guard excludes, the first
    access divides by zero and [SendEmail] panics. *)
Theorem candidate_access_in_bounds
    (w : World) (e : Engine) (email : Email) (addressee : Address)
    (complete : bytes) (records : list MX) (log : list Event) :
  records <> [] ->
  (forall i : nat,
      (i mod length records < length records)%nat
      /\ recordAt records (Z.of_nat i)
         = Val (nth (i mod length records) records (mkMX "" 0)))
  /\ (exists r, snd (deliverEnvelope w e email addressee complete records log) = Val r)
  /\ deliverEnvelope w e email addressee complete [] log
     = (log, Panic "runtime error: integer divide by zero").
Proof.
  intros Hne. split; [|split].
  - intros i. destruct (recordAt_candidate records i Hne) as (Hlt & _ & Hr).
    split; [exact Hlt | exact Hr].
  - unfold deliverEnvelope, bind. change 0 with (Z.of_nat 0).
    destruct (attemptLoop_total w records (Addr (From email)) (Addr addressee)
                complete (Z.to_nat (attemptTotal e)) 0 (attemptTotal e) [] log Hne)
      as [fl Hfl].
    destruct (attemptLoop w _ _ _ records _ _ complete [] log) as [log' res].
    simpl in Hfl. subst res. destruct fl; simpl; eauto.
  - unfold deliverEnvelope, bind.
    pose proof (attemptTotal_positive e) as Hpos.
    destruct (Z.to_nat (attemptTotal e)) as [|n] eqn:Hn; [lia|].
    reflexivity.
Qed.

(** *** Instances *)


Lemma delivery_attempts_witness :
  mxOfAlice <> []
  /\ attemptTotal engine = 3
  /\ deliverEnvelope (world 5 sortKeepingTies) engine toAlice alice [] mxOfAlice []
     = ([EvSendMail "mx1.a.test:25" "noreply@example.org" ["alice@a.test"] [];
         EvSendMail "mx2.a.test:25" "noreply@example.org" ["alice@a.test"] [];
         EvSendMail "mx1.a.test:25" "noreply@example.org" ["alice@a.test"] []],
        Val (Some ("email delivery failed: attempt 1/3 failed: refused"
                   +:+ String "010"%char
                         ("attempt 2/3 failed: refused"
                          +:+ String "010"%char "attempt 3/3 failed: refused"))))
  /\ deliverEnvelope (world 1 sortKeepingTies) engine toAlice alice [] mxOfAlice []
     = ([EvSendMail "mx1.a.test:25" "noreply@example.org" ["alice@a.test"] [];
         EvSendMail "mx2.a.test:25" "noreply@example.org" ["alice@a.test"] []],
        Val None).
Proof.
  assert (Hne : mxOfAlice <> []) by discriminate.
  split; [exact Hne|].
  destruct (delivery_attempts (world 5 sortKeepingTies) engine toAlice alice []
              mxOfAlice [] Hne) as (_ & Hfail & _ & _ & _ & H30).
  destruct (delivery_attempts (world 1 sortKeepingTies) engine toAlice alice []
              mxOfAlice [] Hne) as (_ & _ & Hok & _).
  assert (Htot : attemptTotal engine = 3) by (apply H30; reflexivity).
  split; [exact Htot|]. split.
  - rewrite (Hfail (fun _ => "refused")).
    + rewrite Htot. reflexivity.
    + rewrite Htot. intros j Hj.
      destruct j as [|[|[|j]]]; [reflexivity | reflexivity | reflexivity |].
      exfalso. simpl in Hj. lia.
  - apply (Hok (fun _ => "refused") 1%nat).
    + rewrite Htot. simpl. lia.
    + intros j Hj. destruct j as [|j]; [reflexivity|lia].
    + reflexivity.
Defined.

(** C4 as stated fails in two places.  [SendEmail] of package [env],
    the second place the claim is read from, has no timeout and no
    wraparound: with one exchanger that refuses it makes one hand-off,
    not three.  And the budget of the engine is not [floor(T/10)] on
    every timeout: on 16777229.999999999 seconds the float64 quotient
    gives 1677723 attempts, the floor 1677722. *)
Lemma delivery_attempts_differ :
  EnvSend.SendEmail EnvView.configDefault
    (MoreView.sampleNet (worldWith oneExchanger 5 sortKeepingTies))
    MoreView.envLetter []
  = ([EvLookupMX "a.test";
      EvSendMail "mx1.a.test:25" "noreply@example.org" ["alice@a.test"]
                 (list_byte_of_string "alice@a.test")],
     Val (Some "cannot send email: refused"))
  /\ attemptTotal (mkEngine 16777229999999999 None [] false "default" "example.org")
     = 1677723
  /\ Z.max 1 (16777229999999999 / (10 * GoTime.Second)) = 1677722.
Proof.
  split; [vm_compute; reflexivity|]. split; vm_compute; reflexivity.
Qed.

Lemma candidate_access_in_bounds_witness :
  mxOfAlice <> []
  /\ recordAt mxOfAlice 2 = Val (mkMX "mx1.a.test" 10)
  /\ recordAt mxOfAlice 5 = Val (mkMX "mx2.a.test" 20)
  /\ SendEmail (worldWith (fun _ => []) 0 sortKeepingTies) engine toAlice []
     = ([EvLookupMX "a.test"], Panic "runtime error: integer divide by zero").
Proof.
  assert (Hne : mxOfAlice <> []) by discriminate.
  split; [exact Hne|].
  destruct (candidate_access_in_bounds (world 5 sortKeepingTies) engine toAlice alice
              [] mxOfAlice [] Hne) as (Hacc & _).
  split; [exact (proj2 (Hacc 2%nat))|].
  split; [exact (proj2 (Hacc 5%nat))|reflexivity].
Defined.

(** *** The loop over the recipients *)

Lemma sendOne_returns (w : World) (e : Engine) (email : Email) (a : Address)
    (log : list Event) :
  (exists log' r, sendOne w e email a log = (log', Val (Return r)))
  \/ (exists log' msg, sendOne w e email a log = (log', Panic msg)).
Proof.
  unfold sendOne.
  destruct (enmime_Build w _) as [berr|]; [left; eauto|].
  destruct (enmime_Encode w _) as [envelope [eerr|]]; [left; eauto|].
  destruct (if OutgoingDKIMEnabled e then _ else _) as [complete|msg];
    [|left; eauto].
  unfold bind.
  destruct (resolve w (Addr a) log) as [log1 [[records|msg]|msg]];
    [|left; eauto|right; eauto].
  destruct (deliverEnvelope w e email a complete records log1) as [log2 [r|msg]];
    [left; eauto|right; eauto].
Qed.

Lemma rangeTo_first (w : World) (e : Engine) (email : Email) (a : Address)
    (rest : list Address) (log : list Event) :
  rangeTo (a :: rest) (sendOne w e email) log = sendOne w e email a log.
Proof.
  simpl. unfold bind.
  destruct (sendOne_returns w e email a log) as [(log' & r & ->)|(log' & msg & ->)];
    reflexivity.
Qed.

(** C1 (the code departs from it). After the first recipient the loop
    over [email.To] is left on every path, so the recipients after the
    first have no effect at all; for a message to Alice and Bob, Bob
    gets no hand-off whether the delivery to Alice succeeds (the
    result is [nil]) or fails (the result is the error for Alice). *)
Theorem SendEmail_serves_first_recipient_only :
  (forall (w : World) (e : Engine) (email : Email) (a : Address)
          (rest : list Address) (log : list Event),
      rangeTo (a :: rest) (sendOne w e email) log
      = rangeTo [a] (sendOne w e email) log)
  /\ SendEmail (world 0 sortKeepingTies) engine toBoth []
     = ([EvLookupMX "a.test";
         EvSendMail "mx1.a.test:25" "noreply@example.org" ["alice@a.test"]
                    (list_byte_of_string "alice@a.test")],
        Val None)
  /\ List.filter (handsTo "bob@b.test")
       (fst (SendEmail (world 0 sortKeepingTies) engine toBoth [])) = []
  /\ snd (SendEmail (world 3 sortKeepingTies) engine toBoth [])
     = Val (Some ("email delivery failed: "
                  +:+ GoStr.Join ["attempt 1/3 failed: refused";
                                  "attempt 2/3 failed: refused";
                                  "attempt 3/3 failed: refused"]
                                 (String "010"%char "")))
  /\ List.filter (handsTo "bob@b.test")
       (fst (SendEmail (world 3 sortKeepingTies) engine toBoth [])) = [].
Proof.
  split.
  - intros. now rewrite !rangeTo_first.
  - repeat split; reflexivity.
Qed.

(** *** The queue *)

Lemma QueueEmail_below_capacity (e : Engine) (email : Email) (c : GoChan.Chan Email) :
  outgoingQueue e = Some c -> GoChan.closed c = false ->
  (length (GoChan.buf c) < GoChan.cap c)%nat ->
  QueueEmail e email
  = Val (withQueue e (Some (GoChan.mkChan (GoChan.buf c ++ [email]) (GoChan.cap c) false)),
         true).
Proof.
  intros Hq Hopen Hlt. unfold QueueEmail, GoChan.trySend. rewrite Hq, Hopen.
  destruct (Nat.ltb_spec (length (GoChan.buf c)) (GoChan.cap c)); [reflexivity|lia].
Qed.

Lemma QueueEmail_at_capacity (e : Engine) (email : Email) :
  GoChan.is_closed (outgoingQueue e) = false ->
  (GoChan.capacity (outgoingQueue e) <= GoChan.len (outgoingQueue e))%nat ->
  QueueEmail e email = Val (e, false).
Proof.
  unfold QueueEmail, GoChan.trySend. destruct (outgoingQueue e) as [c|]; simpl.
  - intros -> Hfull.
    destruct (Nat.ltb_spec (length (GoChan.buf c)) (GoChan.cap c)); [lia|reflexivity].
  - reflexivity.
Qed.

(** C6, as the code has it. On a queue that has not been closed,
    [QueueEmail] returns a boolean without blocking: below capacity it
    appends the message at the tail of the queue and returns [true];
    at capacity it returns [false] and leaves the engine as it was.
    The capacity does not change, and a queue within its capacity
    stays within it. *)
Theorem QueueEmail_open_queue (e : Engine) (email : Email) :
  GoChan.is_closed (outgoingQueue e) = false ->
  ((GoChan.len (outgoingQueue e) < GoChan.capacity (outgoingQueue e))%nat ->
     exists e', QueueEmail e email = Val (e', true)
       /\ GoChan.contents (outgoingQueue e')
          = (GoChan.contents (outgoingQueue e) ++ [email])%list
       /\ GoChan.capacity (outgoingQueue e') = GoChan.capacity (outgoingQueue e)
       /\ GoChan.is_closed (outgoingQueue e') = false
       /\ (GoChan.len (outgoingQueue e') <= GoChan.capacity (outgoingQueue e'))%nat)
  /\ ((GoChan.capacity (outgoingQueue e) <= GoChan.len (outgoingQueue e))%nat ->
        QueueEmail e email = Val (e, false))
  /\ (exists e' b, QueueEmail e email = Val (e', b)).
Proof.
  intros Hopen.
  assert (Hfull := QueueEmail_at_capacity e email Hopen).
  assert (Hroom : (GoChan.len (outgoingQueue e) < GoChan.capacity (outgoingQueue e))%nat ->
     exists e', QueueEmail e email = Val (e', true)
       /\ GoChan.contents (outgoingQueue e')
          = (GoChan.contents (outgoingQueue e) ++ [email])%list
       /\ GoChan.capacity (outgoingQueue e') = GoChan.capacity (outgoingQueue e)
       /\ GoChan.is_closed (outgoingQueue e') = false
       /\ (GoChan.len (outgoingQueue e') <= GoChan.capacity (outgoingQueue e'))%nat).
  { destruct (outgoingQueue e) as [c|] eqn:Hq; simpl in *; [|lia].
    intros Hlt. eexists. split.
    - apply (QueueEmail_below_capacity e email c Hq Hopen Hlt).
    - simpl. rewrite length_app. simpl. repeat split; try reflexivity. lia. }
  split; [exact Hroom|]. split; [exact Hfull|].
  destruct (Nat.lt_ge_cases (GoChan.len (outgoingQueue e))
                            (GoChan.capacity (outgoingQueue e))) as [Hlt|Hge].
  - destruct (Hroom Hlt) as (e' & He' & _). eauto.
  - rewrite (Hfull Hge). eauto.
Qed.

(** C6 as stated fails on a closed queue: the queue of the engine
    after [Shutdown] is empty, far below its capacity, and
    [QueueEmail] panics instead of returning a boolean. *)
Lemma QueueEmail_closed_queue_panics :
  (GoChan.len (outgoingQueue engineClosed)
     < GoChan.capacity (outgoingQueue engineClosed))%nat
  /\ closeQueue engine = Val engineClosed
  /\ QueueEmail engineClosed toAlice = Panic "send on closed channel"
  /\ ~ (exists e' b, QueueEmail engineClosed toAlice = Val (e', b)).
Proof.
  split; [vm_compute; lia|]. split; [reflexivity|]. split; [reflexivity|].
  intros (e' & b & H). discriminate H.
Qed.

Lemma QueueEmail_open_queue_witness :
  GoChan.is_closed (outgoingQueue engineFull) = false
  /\ QueueEmail engineFull toBoth = Val (engineFull, false)
  /\ (exists e', QueueEmail engine toBoth = Val (e', true)
        /\ GoChan.contents (outgoingQueue e') = [toBoth]).
Proof.
  split; [reflexivity|]. split.
  - apply (QueueEmail_open_queue engineFull toBoth eq_refl). vm_compute. lia.
  - destruct (QueueEmail_open_queue engine toBoth eq_refl) as (Hroom & _).
    destruct Hroom as (e' & He' & Hc & _); [vm_compute; lia|].
    exists e'. split; [exact He'|exact Hc].
Defined.

(** *** The order of the candidates *)

Lemma insertBefore_perm x l : Permutation (x :: l) (insertBefore lessByPref x l).
Proof.
  induction l as [|y l IH]; simpl; [reflexivity|].
  destruct (lessByPref y x); [|reflexivity].
  rewrite <- IH. apply perm_swap.
Qed.

Lemma insertBefore_sorted x l :
  StronglySorted byPref l -> StronglySorted byPref (insertBefore lessByPref x l).
Proof.
  induction 1 as [|y l Hs IH Hall]; simpl.
  - repeat constructor.
  - unfold lessByPref at 1. destruct (Z.ltb_spec (Pref y) (Pref x)) as [Hlt|Hge].
    + constructor; [exact IH|].
      rewrite <- (insertBefore_perm x l).
      constructor; [unfold byPref; lia|exact Hall].
    + constructor; [constructor; assumption|].
      constructor; [unfold byPref; lia|].
      apply Forall_forall. intros z Hz.
      rewrite Forall_forall in Hall. specialize (Hall z Hz).
      unfold byPref in *. lia.
Qed.

Lemma sortKeepingTies_sorts : sortsByPref (sortKeepingTies lessByPref).
Proof.
  intros l. unfold sortKeepingTies.
  induction l as [|x l [IHp IHs]]; simpl.
  - split; [reflexivity|constructor].
  - split.
    + rewrite <- insertBefore_perm. now constructor.
    + now apply insertBefore_sorted.
Qed.

Lemma sorted_ascending (l : list MX) :
  StronglySorted byPref l ->
  forall i j a b, (i < j)%nat -> l !! i = Some a -> l !! j = Some b ->
                  Pref a <= Pref b.
Proof.
  induction 1 as [|x l Hs IH Hall]; intros i j a b Hij Ha Hb.
  - now rewrite lookup_nil in Ha.
  - destruct j as [|j]; [lia|]. simpl in Hb.
    destruct i as [|i]; simpl in Ha.
    + injection Ha as ->. rewrite Forall_forall in Hall.
      apply (Hall b). eapply list_elem_of_lookup_2. exact Hb.
    + apply (IH i j); [lia|assumption|assumption].
Qed.

(** A slice in which no record is less by preference than the one
    before it is ascending by preference throughout. *)
Lemma sliceIsSorted_ascending (l : list MX) :
  sliceIsSorted lessByPref l -> ascendingByPref l.
Proof.
  intros Hadj i j. induction j as [|j IH]; intros a b Hij Ha Hb; [lia|].
  destruct (l !! j) as [c|] eqn:Hc.
  - pose proof (Hadj j c b Hc Hb) as Hcb. unfold lessByPref in Hcb.
    apply Z.ltb_ge in Hcb.
    destruct (decide (i = j)) as [->|Hne].
    + rewrite Hc in Ha. injection Ha as <-. exact Hcb.
    + pose proof (IH a c ltac:(lia) Ha eq_refl). lia.
  - apply lookup_ge_None in Hc. apply lookup_lt_Some in Hb. lia.
Qed.

(** The sorted prefix of the insertion sort, read from its end, never
    rises. *)
Lemma sink_descending (x : MX) (rp : list MX) :
  StronglySorted (flip byPref) rp ->
  StronglySorted (flip byPref) (GoSortView.sink lessByPref x rp).
Proof.
  induction 1 as [|y r Hs IH Hall]; simpl.
  - repeat constructor.
  - unfold lessByPref at 1. destruct (Z.ltb_spec (Pref x) (Pref y)) as [Hlt|Hge].
    + constructor; [exact IH|].
      rewrite <- (GoSortFacts.sink_perm lessByPref x r).
      constructor; [unfold flip, byPref; lia|exact Hall].
    + constructor; [constructor; assumption|].
      constructor; [unfold flip, byPref; lia|].
      apply Forall_forall. intros z Hz.
      rewrite Forall_forall in Hall. specialize (Hall z Hz).
      unfold flip, byPref in *. lia.
Qed.

Lemma sunk_descending (l acc : list MX) :
  StronglySorted (flip byPref) acc ->
  StronglySorted (flip byPref)
    (foldl (fun acc x => GoSortView.sink lessByPref x acc) acc l).
Proof.
  revert acc. induction l as [|x l IH]; intros acc Hacc; simpl; [exact Hacc|].
  apply IH, sink_descending, Hacc.
Qed.

Lemma descending_lookup (l : list MX) :
  StronglySorted (flip byPref) l ->
  forall i j a b, (i < j)%nat -> l !! i = Some a -> l !! j = Some b ->
                  Pref b <= Pref a.
Proof.
  induction 1 as [|x l Hs IH Hall]; intros i j a b Hij Ha Hb.
  - now rewrite lookup_nil in Ha.
  - destruct j as [|j]; [lia|]. simpl in Hb.
    destruct i as [|i]; simpl in Ha.
    + injection Ha as ->. rewrite Forall_forall in Hall.
      apply (Hall b). eapply list_elem_of_lookup_2. exact Hb.
    + apply (IH i j); [lia|assumption|assumption].
Qed.

Lemma reverse_sunk_ascending (l : list MX) :
  ascendingByPref (reverse (GoSortView.sunk lessByPref l)).
Proof.
  intros i j a b Hij Ha Hb.
  pose proof (lookup_lt_Some _ _ _ Ha) as Hi.
  pose proof (lookup_lt_Some _ _ _ Hb) as Hj.
  rewrite length_reverse in Hi, Hj.
  rewrite reverse_lookup in Ha by exact Hi.
  rewrite reverse_lookup in Hb by exact Hj.
  eapply (descending_lookup (GoSortView.sunk lessByPref l)
            (sunk_descending l [] (SSorted_nil _)));
    [|exact Hb|exact Ha]. lia.
Qed.

(** The insertion sort keeps the order of the records of a rank: a
    record moves only past records it is less than. *)
Lemma sink_ofRank (p : Z) (x : MX) (rp : list MX) :
  ofRank p (GoSortView.sink lessByPref x rp) = ofRank p (x :: rp).
Proof.
  induction rp as [|y r IH]; [reflexivity|].
  cbn [GoSortView.sink]. unfold lessByPref at 1.
  destruct (Z.ltb_spec (Pref x) (Pref y)) as [Hlt|Hge]; [|reflexivity].
  unfold ofRank in *. cbn [List.filter] in *. rewrite IH.
  destruct (Z.eqb_spec (Pref y) p) as [Hy|Hy];
    destruct (Z.eqb_spec (Pref x) p) as [Hx|Hx]; try reflexivity.
  lia.
Qed.

Lemma ofRank_reverse (p : Z) (l : list MX) :
  ofRank p (reverse l) = reverse (ofRank p l).
Proof.
  unfold ofRank. induction l as [|x l IH]; [reflexivity|].
  rewrite reverse_cons, List.filter_app, IH. cbn [List.filter].
  destruct (Pref x =? p).
  - now rewrite reverse_cons.
  - now rewrite app_nil_r.
Qed.

Lemma foldl_sink_ofRank (p : Z) (l acc : list MX) :
  ofRank p (foldl (fun acc x => GoSortView.sink lessByPref x acc) acc l)
  = (reverse (ofRank p l) ++ ofRank p acc)%list.
Proof.
  revert acc. induction l as [|x l IH]; intros acc; [reflexivity|].
  cbn [foldl]. rewrite IH, sink_ofRank. unfold ofRank. cbn [List.filter].
  destruct (Pref x =? p); [|reflexivity].
  rewrite reverse_cons, <- app_assoc. reflexivity.
Qed.

Lemma reverse_sunk_ofRank (p : Z) (l : list MX) :
  ofRank p (reverse (GoSortView.sunk lessByPref l)) = ofRank p l.
Proof.
  rewrite ofRank_reverse. unfold GoSortView.sunk.
  rewrite foldl_sink_ofRank. change (ofRank p []) with (@nil MX).
  now rewrite app_nil_r, reverse_involutive.
Qed.


(** The sort of the thirteen records below never draws from the
    generator: it is the same for every generator. *)
Lemma thirteen_whatever_the_generator (next : Z -> Z) :
  GoSort.Slice next lessByPref (thirteen "b.test") = goSlice lessByPref (thirteen "b.test").
Proof. vm_compute. reflexivity. Qed.



End EmailSpec.

(** ** The shutdown of the engine *)
Module LifeSpec.
Import Email EmailView.

Lemma inflight_insert (cs : list Call) (k : nat) (c c' : Call) :
  cs !! k = Some c ->
  exists l1 l2,
    inflight cs = (l1 ++ flagsOf c ++ l2)%list
    /\ inflight (<[k := c']> cs) = (l1 ++ flagsOf c' ++ l2)%list.
Proof.
  intros Hk.
  exists (inflight (take k cs)), (inflight (drop (S k) cs)).
  assert (Hlt : (k < length cs)%nat) by (eapply lookup_lt_Some; exact Hk).
  split.
  - rewrite <- (take_drop_middle cs k c Hk) at 1.
    unfold inflight. rewrite flat_map_app. simpl. reflexivity.
  - rewrite insert_take_drop by exact Hlt.
    unfold inflight. rewrite flat_map_app. simpl. reflexivity.
Qed.

Lemma drainCount_snoc p ds qc cr cs d x :
  drainCount d (mkLife p (ds ++ [x]) qc cr cs)
  = (drainCount d (mkLife p ds qc cr cs) + b2n (drain_eqb d x))%nat.
Proof.
  unfold drainCount. simpl. rewrite filter_app, length_app.
  f_equal. destruct d, x; reflexivity.
Qed.

Lemma lifeInv_init n : lifeInv (lifeInit n).
Proof.
  unfold lifeInv, lifeInit. simpl. split; [reflexivity|].
  split; [|split; [|split; reflexivity]].
  - induction n as [|n IH]; simpl; [reflexivity|exact IH].
  - apply Forall_replicate. discriminate.
Qed.

Lemma app_single_nil {A} (l1 l2 : list A) (x : A) :
  (l1 ++ [x] ++ l2)%list = [] -> False.
Proof. destruct l1; discriminate. Qed.

Lemma app_single_single {A} (l1 l2 : list A) (x y : A) :
  (l1 ++ [x] ++ l2)%list = [y] -> l1 = [] /\ l2 = [] /\ x = y.
Proof.
  destruct l1 as [|a l1]; simpl.
  - intros [= -> ->]. auto.
  - intros [= _ H]. destruct l1; discriminate H.
Qed.

Lemma app_nil_both {A} (l1 l2 : list A) :
  (l1 ++ [] ++ l2)%list = [] -> l1 = [] /\ l2 = [].
Proof. destruct l1; simpl; [auto|discriminate]. Qed.

(** A call inside the drain exists only while the [Once] is running,
    and then it is the only one. *)
Lemma draining_running (s : Life) (k : nat) (h sm q : bool) :
  lifeInv s -> calls s !! k = Some (Draining h sm q) ->
  activeClosing s = OnceRunning
  /\ inflight (calls s) = [(h, sm, q)]
  /\ (forall c', inflight (<[k := c']> (calls s)) = flagsOf c')
  /\ Forall (fun c => c <> Returned) (calls s)
  /\ drainCount DrainHTTP s = b2n h
  /\ drainCount DrainSMTP s = b2n sm
  /\ drainCount DrainQueue s = b2n q
  /\ queueClosed s = q /\ crashed s = false.
Proof.
  intros [Hcr Hinv] Hk.
  assert (Hdec : forall c', exists l1 l2,
             inflight (calls s) = (l1 ++ [(h, sm, q)] ++ l2)%list
             /\ inflight (<[k := c']> (calls s)) = (l1 ++ flagsOf c' ++ l2)%list)
    by (intros c'; exact (inflight_insert (calls s) k _ c' Hk)).
  destruct (activeClosing s).
  - destruct Hinv as (Hin & _). destruct (Hdec Entering) as (l1 & l2 & H1 & _).
    rewrite Hin in H1. symmetry in H1. destruct (app_single_nil _ _ _ H1).
  - destruct Hinv as (h0 & sm0 & q0 & Hin & Hall & Hh & Hs & Hq & Hqc).
    assert (Heq : (h, sm, q) = (h0, sm0, q0)).
    { destruct (Hdec Entering) as (l1 & l2 & H1 & _).
      rewrite Hin in H1. symmetry in H1.
      now destruct (app_single_single _ _ _ _ H1) as (_ & _ & ?). }
    injection Heq as <- <- <-.
    repeat (split; [first [reflexivity|assumption]|]); try assumption.
    split; [|repeat split; assumption].
    intros c'. destruct (Hdec c') as (l1 & l2 & H1 & H2).
    rewrite Hin in H1. symmetry in H1.
    destruct (app_single_single _ _ _ _ H1) as (-> & -> & _).
    rewrite H2. simpl. now rewrite app_nil_r.
  - destruct Hinv as (Hin & _). destruct (Hdec Entering) as (l1 & l2 & H1 & _).
    rewrite Hin in H1. symmetry in H1. destruct (app_single_nil _ _ _ H1).
Qed.

Lemma lifeStep_inv (a : Action) (s s' : Life) :
  lifeInv s -> lifeStep a s = Some s' -> lifeInv s'.
Proof.
  intros Hinv Hstep. destruct a as [k|k|k|k|k]; simpl in Hstep.
  - (* ADo *)
    destruct (calls s !! k) as [[| |]|] eqn:Hk; try discriminate Hstep.
    destruct (inflight_insert (calls s) k Entering (Draining false false false) Hk)
      as (l1 & l2 & H1 & H2).
    destruct (inflight_insert (calls s) k Entering Returned Hk)
      as (l1' & l2' & H1' & H2').
    destruct Hinv as [Hcr Hinv].
    destruct (activeClosing s) eqn:Hph; try discriminate Hstep;
      injection Hstep as <-; split; simpl; try exact Hcr.
    + destruct Hinv as (Hin & Hall & Hd & Hqc).
      rewrite Hin in H1. symmetry in H1.
      destruct (app_nil_both _ _ H1) as [-> ->].
      exists false, false, false. unfold setCall.
      split; [rewrite H2; reflexivity|].
      split; [apply Forall_insert; [exact Hall|discriminate]|].
      unfold drainCount. simpl. rewrite Hd. repeat split; try reflexivity.
      exact Hqc.
    + destruct Hinv as (Hin & Hcnt & Hqc). unfold setCall.
      split; [|split; [exact Hcnt|exact Hqc]].
      rewrite H2'. simpl in *. rewrite <- H1'. exact Hin.
  - (* AHttp *)
    destruct (calls s !! k) as [[|[|] sm q|]|] eqn:Hk; try discriminate Hstep.
    injection Hstep as <-.
    destruct (draining_running s k false sm q Hinv Hk)
      as (Hph & Hin & Hset & Hall & Hh & Hs & Hq & Hqc & Hcr).
    split; simpl; [exact Hcr|]. rewrite Hph.
    exists true, sm, q. unfold setCall. rewrite Hset.
    split; [reflexivity|].
    split; [apply Forall_insert; [exact Hall|discriminate]|].
    rewrite !drainCount_snoc. simpl.
    unfold drainCount in *. simpl in *. rewrite Hh, Hs, Hq.
    repeat split; try reflexivity; try lia. exact Hqc.
  - (* ASmtp *)
    destruct (calls s !! k) as [[|h [|] q|]|] eqn:Hk; try discriminate Hstep.
    injection Hstep as <-.
    destruct (draining_running s k h false q Hinv Hk)
      as (Hph & Hin & Hset & Hall & Hh & Hs & Hq & Hqc & Hcr).
    split; simpl; [exact Hcr|]. rewrite Hph.
    exists h, true, q. unfold setCall. rewrite Hset.
    split; [reflexivity|].
    split; [apply Forall_insert; [exact Hall|discriminate]|].
    rewrite !drainCount_snoc. simpl.
    unfold drainCount in *. simpl in *. rewrite Hh, Hs, Hq.
    repeat split; try reflexivity; try lia. exact Hqc.
  - (* AQueue *)
    destruct (calls s !! k) as [[|h sm [|]|]|] eqn:Hk; try discriminate Hstep.
    injection Hstep as <-.
    destruct (draining_running s k h sm false Hinv Hk)
      as (Hph & Hin & Hset & Hall & Hh & Hs & Hq & Hqc & Hcr).
    split; simpl; [rewrite Hcr, Hqc; reflexivity|]. rewrite Hph.
    exists h, sm, true. unfold setCall. rewrite Hset.
    split; [reflexivity|].
    split; [apply Forall_insert; [exact Hall|discriminate]|].
    rewrite !drainCount_snoc. simpl.
    unfold drainCount in *. simpl in *. rewrite Hh, Hs, Hq.
    repeat split; try reflexivity; lia.
  - (* AWait *)
    destruct (calls s !! k) as [[|[|] [|] [|]|]|] eqn:Hk; try discriminate Hstep.
    injection Hstep as <-.
    destruct (draining_running s k true true true Hinv Hk)
      as (Hph & Hin & Hset & Hall & Hh & Hs & Hq & Hqc & Hcr).
    split; simpl; [exact Hcr|].
    unfold setCall. rewrite Hset.
    split; [reflexivity|]. split; [|exact Hqc].
    intros d. unfold drainCount in *. simpl in *. destruct d; assumption.
Qed.

Lemma lifeRun_inv (schedule : list Action) (s s' : Life) :
  lifeInv s -> lifeRun schedule s = Some s' -> lifeInv s'.
Proof.
  revert s. induction schedule as [|a rest IH]; simpl; intros s Hinv Hrun.
  - now injection Hrun as <-.
  - destruct (lifeStep a s) as [s1|] eqn:Hstep; [|discriminate Hrun].
    apply (IH s1); [eapply lifeStep_inv; eassumption|exact Hrun].
Qed.

(** *** One call after the other *)

Lemma insert_at_length {A} (l1 l2 : list A) (x y : A) (k : nat) :
  k = length l1 -> <[k := y]> (l1 ++ x :: l2)%list = (l1 ++ y :: l2)%list.
Proof.
  intros ->. pose proof (insert_app_r l1 (x :: l2) 0 y) as H.
  rewrite Nat.add_0_r in H. exact H.
Qed.

Lemma sequential_rest (ds : list Drain) (m k : nat) :
  lifeRun (sequentialFrom false k m)
          (mkLife OnceDone ds true false
                  (replicate k Returned ++ replicate m Entering)%list)
  = Some (mkLife OnceDone ds true false (replicate (k + m) Returned)).
Proof.
  revert k. induction m as [|m IH]; intros k.
  - simpl. now rewrite app_nil_r, Nat.add_0_r.
  - cbn [sequentialFrom callAlone app lifeRun lifeStep replicate calls activeClosing
           drains queueClosed crashed].
    rewrite list_lookup_middle by (now rewrite length_replicate).
    unfold setCall. cbn [calls].
    rewrite insert_at_length by (now rewrite length_replicate).
    replace (replicate k Returned ++ Returned :: replicate m Entering)%list
      with (replicate (S k) Returned ++ replicate m Entering)%list
      by (rewrite replicate_S_end, <- app_assoc; reflexivity).
    rewrite (IH (S k)). now rewrite Nat.add_succ_r.
Qed.

Lemma sequential_completes (n : nat) :
  lifeRun (sequential n) (lifeInit n)
  = Some (match n with
          | O => lifeInit 0
          | S _ => mkLife OnceDone [DrainHTTP; DrainSMTP; DrainQueue] true false
                          (replicate n Returned)
          end).
Proof.
  destruct n as [|n]; [reflexivity|].
  unfold sequential, lifeInit.
  change (lifeRun (sequentialFrom true 0 (S n))
                  (mkLife OnceNew [] false false (replicate (S n) Entering)))
    with (lifeRun (sequentialFrom false 1 n)
                  (mkLife OnceDone [DrainHTTP; DrainSMTP; DrainQueue] true false
                          (replicate 1 Returned ++ replicate n Entering)%list)).
  now rewrite sequential_rest.
Qed.

(** C7. However the calls of [Shutdown] are interleaved, in every
    state they reach: no goroutine has panicked (the queue is closed
    at most once); each of the three drains has been performed at most
    once; while the drain runs no call has returned; a call that has
    returned finds the [Once] done with each of the three drains
    performed exactly once; and a call that reaches [Do] after that
    returns without a drain.  Run one after the other, [n] calls all
    return, with one drain sequence in all. *)
Theorem Shutdown_drains_once (n : nat) (schedule : list Action) (s : Life) :
  lifeRun schedule (lifeInit n) = Some s ->
  crashed s = false
  /\ (forall d, (drainCount d s <= 1)%nat)
  /\ (activeClosing s <> OnceDone -> forall k, calls s !! k <> Some Returned)
  /\ (forall k, calls s !! k = Some Returned ->
        activeClosing s = OnceDone
        /\ (forall d, drainCount d s = 1%nat)
        /\ queueClosed s = true)
  /\ (forall k s', activeClosing s = OnceDone -> lifeStep (ADo k) s = Some s' ->
        drains s' = drains s /\ calls s' !! k = Some Returned)
  /\ (exists s', lifeRun (sequential n) (lifeInit n) = Some s'
        /\ calls s' = replicate n Returned
        /\ ((0 < n)%nat -> drains s' = [DrainHTTP; DrainSMTP; DrainQueue])).
Proof.
  intros Hrun.
  pose proof (lifeRun_inv schedule _ _ (lifeInv_init n) Hrun) as [Hcr Hinv].
  assert (Hnot : forall cs : list Call,
             Forall (fun c => c <> Returned) cs ->
             forall k, cs !! k <> Some Returned).
  { intros cs Hall k Hk. rewrite Forall_forall in Hall.
    apply (Hall Returned); [|reflexivity].
    eapply list_elem_of_lookup_2. exact Hk. }
  split; [exact Hcr|].
  split; [|split; [|split; [|split]]].
  - intros d. destruct (activeClosing s).
    + destruct Hinv as (_ & _ & Hd & _). unfold drainCount. rewrite Hd. simpl. lia.
    + destruct Hinv as (h & sm & q & _ & _ & Hh & Hs & Hq & _).
      destruct d; [rewrite Hh|rewrite Hs|rewrite Hq];
        match goal with |- (b2n ?b <= 1)%nat => destruct b; simpl; lia end.
    + destruct Hinv as (_ & Hd & _). rewrite Hd. lia.
  - intros Hph. destruct (activeClosing s).
    + destruct Hinv as (_ & Hall & _). exact (Hnot _ Hall).
    + destruct Hinv as (h & sm & q & _ & Hall & _). exact (Hnot _ Hall).
    + contradiction.
  - intros k Hk. destruct (activeClosing s).
    + destruct Hinv as (_ & Hall & _). destruct (Hnot _ Hall k Hk).
    + destruct Hinv as (h & sm & q & _ & Hall & _). destruct (Hnot _ Hall k Hk).
    + destruct Hinv as (_ & Hd & Hqc). auto.
  - intros k s' Hph Hstep. simpl in Hstep.
    destruct (calls s !! k) as [[| |]|] eqn:Hk; try discriminate Hstep.
    rewrite Hph in Hstep. injection Hstep as <-. simpl.
    split; [reflexivity|]. unfold setCall.
    apply list_lookup_insert_eq. eapply lookup_lt_Some. exact Hk.
  - eexists. split; [apply sequential_completes|].
    destruct n; simpl; split; try reflexivity; intros; try lia; reflexivity.
Qed.

Lemma Shutdown_drains_once_witness :
  lifeRun [ADo 1; ASmtp 1; AQueue 1; AHttp 1; AWait 1; ADo 0] (lifeInit 2)
  = Some (mkLife OnceDone [DrainSMTP; DrainQueue; DrainHTTP] true false
                 [Returned; Returned])
  /\ (forall d, (drainCount d (mkLife OnceDone [DrainSMTP; DrainQueue; DrainHTTP]
                                      true false [Returned; Returned]) <= 1)%nat).
Proof.
  assert (Hrun : lifeRun [ADo 1; ASmtp 1; AQueue 1; AHttp 1; AWait 1; ADo 0] (lifeInit 2)
                 = Some (mkLife OnceDone [DrainSMTP; DrainQueue; DrainHTTP] true false
                                [Returned; Returned])) by reflexivity.
  split; [exact Hrun|].
  exact (proj1 (proj2 (Shutdown_drains_once 2 _ _ Hrun))).
Defined.

End LifeSpec.

(** ** The relay *)
Module EnvSpec.
Import Env EnvView.

(** *** [Rcpt] *)

Lemma Rcpt_accepts_iff (c : Config) (toAddress : string) :
  Session.Rcpt c toAddress = None
  <-> toAddress = SMTP_ADDRESS_DMARC c
      /\ toAddress = SMTP_ADDRESS_NOREPLY c
      /\ toAddress = SMTP_ADDRESS_FORWARD c.
Proof.
  unfold Session.Rcpt.
  destruct (String.eqb_spec toAddress (SMTP_ADDRESS_DMARC c));
    destruct (String.eqb_spec toAddress (SMTP_ADDRESS_NOREPLY c));
    destruct (String.eqb_spec toAddress (SMTP_ADDRESS_FORWARD c));
    simpl; split; try discriminate; try tauto; auto.
Qed.

Lemma Rcpt_rejects_when_inboxes_differ (c : Config) (toAddress : string) :
  SMTP_ADDRESS_DMARC c <> SMTP_ADDRESS_NOREPLY c
  \/ SMTP_ADDRESS_NOREPLY c <> SMTP_ADDRESS_FORWARD c ->
  Session.Rcpt c toAddress = Some ErrUnknownRecipient.
Proof.
  intros Hdiff.
  destruct (Session.Rcpt c toAddress) as [err|] eqn:HR.
  - unfold Session.Rcpt in HR.
    destruct (_ || _); [now injection HR as <-|discriminate HR].
  - apply Rcpt_accepts_iff in HR. destruct HR as (H1 & H2 & H3).
    destruct Hdiff as [Hd|Hd]; exfalso; apply Hd; congruence.
Qed.

(** C2 (the code departs from it). With the configuration that is
    loaded when no variable is set, [Rcpt] rejects each of the three
    inbox addresses with the unknown-recipient error; and whatever the
    configuration, an address is accepted only when the three inbox
    addresses are one and the same address. *)
Theorem Rcpt_rejects_the_inboxes :
  loadConfig (fun _ => "") = Some configDefault
  /\ Session.Rcpt configDefault "dmarc@example.org" = Some ErrUnknownRecipient
  /\ Session.Rcpt configDefault "noreply@example.org" = Some ErrUnknownRecipient
  /\ Session.Rcpt configDefault "support@example.org" = Some ErrUnknownRecipient
  /\ (forall (c : Config) (toAddress : string),
        Session.Rcpt c toAddress = None
        <-> toAddress = SMTP_ADDRESS_DMARC c
            /\ toAddress = SMTP_ADDRESS_NOREPLY c
            /\ toAddress = SMTP_ADDRESS_FORWARD c).
Proof.
  repeat (split; [reflexivity|]). exact Rcpt_accepts_iff.
Qed.

(** *** [Data] on the no-reply inbox *)

Ltac open_envelope l r c Hver :=
  destruct Hver as (Hread & GetHeader & Henv & HTo & HFrom & Hdkim);
  unfold Session.Data; rewrite Hread, Henv, HTo, HFrom, Hdkim;
  cbn [negb].

Lemma Data_noreply_variable_empty
    (c : Config) (l : Libs) (now : Z) (r : Reader) (st : State)
    (To From : MailAddress) :
  verified l r To From ->
  Address To = SMTP_ADDRESS_NOREPLY c ->
  Address To <> SMTP_ADDRESS_DMARC c ->
  SMTP_DISABLE_NOREPLY c = "" ->
  Session.Data c l now r st = Val (st, Some ErrUnknownRecipient).
Proof.
  intros Hver Hto Hnd Hvar. open_envelope l r c Hver.
  destruct (String.eqb_spec (Address To) (SMTP_ADDRESS_DMARC c)); [contradiction|].
  destruct (String.eqb_spec (Address To) (SMTP_ADDRESS_NOREPLY c)); [|contradiction].
  rewrite Hvar. reflexivity.
Qed.

Lemma Data_noreply_variable_set
    (c : Config) (l : Libs) (now : Z) (r : Reader) (st : State)
    (To From : MailAddress) :
  verified l r To From ->
  Address To = SMTP_ADDRESS_NOREPLY c ->
  Address To <> SMTP_ADDRESS_DMARC c ->
  SMTP_DISABLE_NOREPLY c <> "" ->
  Session.Data c l now r st
  = match emailDebounce st !! Address From with
    | Some _ => Val (st, None)
    | None =>
        match QueueEmail (mkState (<[Address From := now + GoTime.Hour]> (emailDebounce st))
                                  (emailQueue st))
                         (autoReply c l From) with
        | Val st2 => Val (st2, None)
        | Panic msg => Panic msg
        end
    end.
Proof.
  intros Hver Hto Hnd Hvar. open_envelope l r c Hver.
  destruct (String.eqb_spec (Address To) (SMTP_ADDRESS_DMARC c)); [contradiction|].
  destruct (String.eqb_spec (Address To) (SMTP_ADDRESS_NOREPLY c)); [|contradiction].
  destruct (String.eqb_spec (SMTP_DISABLE_NOREPLY c) ""); [contradiction|].
  reflexivity.
Qed.

(** C3 (the code departs from it). A verified message to the no-reply
    inbox under the default configuration, in which the variable
    [SMTP_DISABLE_NOREPLY] is empty, is rejected with the
    unknown-recipient error and nothing is queued; with the variable
    set, the sender gets a suppression entry and an auto-reply is
    queued. *)
Theorem Data_noreply_switch_is_inverted :
  verified toyLibs toNoreply (mkMailAddress "" "noreply@example.org") alice
  /\ SMTP_DISABLE_NOREPLY configDefault = ""
  /\ Session.Data configDefault toyLibs 0 toNoreply fresh
     = Val (fresh, Some ErrUnknownRecipient)
  /\ SMTP_DISABLE_NOREPLY configDisableSet = "1"
  /\ (exists st, Session.Data configDisableSet toyLibs 0 toNoreply fresh = Val (st, None)
        /\ GoChan.contents (emailQueue st) = [autoReply configDisableSet toyLibs alice]
        /\ emailDebounce st !! "alice@a.test" = Some GoTime.Hour).
Proof.
  split.
  { split; [reflexivity|]. eexists. repeat split; reflexivity. }
  split; [reflexivity|]. split; [reflexivity|]. split; [reflexivity|].
  eexists. split; [reflexivity|]. split; reflexivity.
Qed.

(** *** The suppression of repeated auto-replies *)

(** The lookup in [emailDebounce] does not look at the time stored. *)
Lemma Data_suppressed_whatever_the_time
    (c : Config) (l : Libs) (now expiry : Z) (r : Reader) (st : State)
    (To From : MailAddress) :
  verified l r To From ->
  Address To = SMTP_ADDRESS_NOREPLY c ->
  Address To <> SMTP_ADDRESS_DMARC c ->
  SMTP_DISABLE_NOREPLY c <> "" ->
  emailDebounce st !! Address From = Some expiry ->
  Session.Data c l now r st = Val (st, None).
Proof.
  intros Hver Hto Hnd Hvar Hentry.
  rewrite (Data_noreply_variable_set c l now r st To From Hver Hto Hnd Hvar).
  now rewrite Hentry.
Qed.

(** Once the timer has delivered its value, the goroutine of [init]
    does nothing more. *)
Lemma timer_spent (c : Config) (l : Libs) (now : Z) (rl : Relay) :
  timerFired rl = true -> relayStep c l now TimerChannel rl = Val (rl, None).
Proof. intros H. unfold relayStep. now rewrite H. Qed.

(** So an entry that is there when the timer has fired stays, and the
    sender gets no further auto-reply, however late. *)
Lemma suppressed_for_ever
    (c : Config) (l : Libs) (r : Reader) (To From : MailAddress) (expiry : Z)
    (inputs : list (Z * Input)) (rl : Relay) :
  verified l r To From ->
  Address To = SMTP_ADDRESS_NOREPLY c ->
  Address To <> SMTP_ADDRESS_DMARC c ->
  SMTP_DISABLE_NOREPLY c <> "" ->
  timerFired rl = true ->
  emailDebounce (state rl) !! Address From = Some expiry ->
  Forall (fun ti => snd ti = TimerChannel \/ snd ti = Inbound r) inputs ->
  relayRun c l inputs rl = Val rl.
Proof.
  intros Hver Hto Hnd Hvar Hfired Hentry Hin.
  induction Hin as [|[now i] rest [Hi|Hi] _ IH]; [reflexivity| |];
    cbn [snd] in Hi; subst i; cbn [relayRun].
  - rewrite (timer_spent c l now rl Hfired). exact IH.
  - unfold relayStep.
    rewrite (Data_suppressed_whatever_the_time c l now expiry r (state rl) To From)
      by assumption.
    destruct rl as [st t0 fired]. exact IH.
Qed.

(** C5 (the code departs from it). The first message of Alice to the
    no-reply inbox records an entry that expires an hour later and
    queues one auto-reply; her second message, within the hour, queues
    nothing.  Her third message arrives after the entry has expired,
    and after the goroutine of [init] has been scheduled again: the
    entry is still there and no second auto-reply is queued. *)
Theorem expired_entry_still_suppresses :
  queuedAfter configDisableSet toyLibs firstTrigger (relayInit 0)
    = Some [autoReply configDisableSet toyLibs alice]
  /\ entryAfter configDisableSet toyLibs firstTrigger (relayInit 0) "alice@a.test"
     = Some ((hour + second) + GoTime.Hour)
  /\ queuedAfter configDisableSet toyLibs secondTrigger (relayInit 0)
     = Some [autoReply configDisableSet toyLibs alice]
  /\ (hour + second) + GoTime.Hour < 3 * hour
  /\ queuedAfter configDisableSet toyLibs thirdTrigger (relayInit 0)
     = Some [autoReply configDisableSet toyLibs alice]
  /\ entryAfter configDisableSet toyLibs thirdTrigger (relayInit 0) "alice@a.test"
     = Some ((hour + second) + GoTime.Hour).
Proof.
  repeat split; vm_compute; reflexivity.
Qed.

End EnvSpec.


(** ** [SendEmail] and the network *)
Module SendSpec.
Import Email EmailView EmailMore MoreView.

Lemma SendEmail_withQueue (w : World) (e : Engine) (q : option (GoChan.Chan Email))
    (email : Email) (log : list Event) :
  SendEmail w (withQueue e q) email log = SendEmail w e email log.
Proof. destruct e. reflexivity. Qed.

(** Whatever the servers answer, the attempt loop adds the hand-offs of
    the first [m] attempts and nothing else, for some [m] within the
    number of iterations. *)
Lemma attemptLoop_events (w : World) (records : list MX) (from rcpt : string)
    (complete : bytes) (total : Z) (n i : nat) (acc : list string) (log : list Event) :
  exists m res,
    (m <= n)%nat
    /\ attemptLoop w n (Z.of_nat i) total records from rcpt complete acc log
       = ((log ++ attemptEvents records from rcpt complete i m)%list, res).
Proof.
  revert i acc log. induction n as [|n IH]; intros i acc log.
  - exists 0%nat. eexists. split; [lia|]. simpl. unfold ret.
    now rewrite app_nil_r.
  - simpl. destruct records as [|r0 rs] eqn:Hrec.
    + exists 0%nat. eexists. split; [lia|]. simpl. unfold panic.
      now rewrite app_nil_r.
    + rewrite <- Hrec in *.
      assert (Hne : records <> []) by (rewrite Hrec; discriminate).
      destruct (EmailSpec.recordAt_candidate records i Hne) as (_ & _ & ->).
      unfold bind, SendMail.
      destruct (smtp_SendMail w log _ from [rcpt] complete) as [msg|].
      * replace (Z.of_nat i + 1) with (Z.of_nat (S i)) by lia.
        destruct (IH (S i) (acc ++ ["attempt " +:+ GoStr.itoa (Z.of_nat (S i)) +:+ "/"
                                      +:+ GoStr.itoa total +:+ " failed: " +:+ msg])%list
                     (log ++ [attemptEvent records from rcpt complete i])%list)
          as (m & res & Hm & Heq).
        exists (S m), res. split; [lia|].
        unfold attemptEvent, attemptAddr in Heq. rewrite Heq.
        rewrite <- app_assoc. reflexivity.
      * exists 1%nat. eexists. split; [lia|]. reflexivity.
Qed.

Lemma sendOne_events (w : World) (e : Engine) (email : Email) (a : Address)
    (log : list Event) :
  exists evs res,
    sendOne w e email a log = ((log ++ evs)%list, res)
    /\ deliveryEvents w e email a log evs.
Proof.
  assert (Hnone : forall res : Res (Flow unit error),
             exists evs res',
               (log, res) = ((log ++ evs)%list, res')
               /\ deliveryEvents w e email a log evs).
  { intros res. exists [], res. split; [now rewrite app_nil_r | now left]. }
  unfold sendOne, handedOff.
  destruct (enmime_Build w _) as [berr|]; [apply Hnone|].
  destruct (enmime_Encode w (envelopeBuilder email a)) as [envelope eerr] eqn:Henc.
  destruct eerr as [eerr|]; [apply Hnone|].
  assert (Hgo : forall complete : bytes,
             complete = handedOff w e email a ->
             exists evs res,
               (let* rs := resolve w (Addr a) in
                match rs with
                | inl records =>
                    let* r := deliverEnvelope w e email a complete records in
                    ret (@Return unit error r)
                | inr msg => ret (@Return unit error (Some msg))
                end) log = ((log ++ evs)%list, res)
               /\ deliveryEvents w e email a log evs).
  { intros complete Hc. unfold resolve.
    destruct (extractHostFromAddress (Addr a)) as [host [xerr|]] eqn:Hx;
      [apply Hnone|].
    unfold bind at 1. unfold bind at 1. unfold LookupMX.
    destruct (net_LookupMX w log host) as [raw lerr] eqn:Hlook.
    destruct lerr as [le|].
    - exists [EvLookupMX host].
      destruct (isDNSError le && IsNotFound le); eexists;
        (split; [reflexivity|]);
        right; exists host, 0%nat; (split; [exact Hx|]); (split; [lia|]);
        reflexivity.
    - unfold ret at 1. unfold deliverEnvelope, bind.
      destruct (attemptLoop_events w (sort_Slice_byPref w raw) (Addr (From email))
                  (Addr a) complete (attemptTotal e) (Z.to_nat (attemptTotal e)) 0 []
                  (log ++ [EvLookupMX host])%list) as (m & res & Hm & Heq).
      change (Z.of_nat 0) with 0 in Heq. rewrite Heq.
      exists (EvLookupMX host
              :: attemptEvents (sort_Slice_byPref w raw) (Addr (From email)) (Addr a)
                               complete 0 m).
      assert (Hev : deliveryEvents w e email a log
                      (EvLookupMX host
                       :: attemptEvents (sort_Slice_byPref w raw) (Addr (From email))
                                        (Addr a) complete 0 m)).
      { right. exists host, m. split; [exact Hx|]. split; [exact Hm|].
        rewrite Hlook, Hc. reflexivity. }
      rewrite <- app_assoc. simpl.
      destruct res as [[errs|r]|msg]; eexists; (split; [reflexivity|exact Hev]). }
  unfold handedOff in Hgo. rewrite Henc in Hgo. simpl in Hgo.
  destruct (OutgoingDKIMEnabled e).
  - destruct (dkim_Sign w _ _ _) as [written [serr|]]; [apply Hnone|].
    apply Hgo. reflexivity.
  - apply Hgo. reflexivity.
Qed.

Lemma recipients_guard (tos : list Address) :
  tos <> [] -> (Z.of_nat (length tos) =? 0) = false.
Proof. destruct tos; [contradiction|]. intros _. reflexivity. Qed.

Lemma SendEmail_no_recipients (w : World) (e : Engine) (email : Email)
    (log : list Event) :
  To email = [] -> SendEmail w e email log = (log, Val (Some "no recipients")).
Proof. intros H. unfold SendEmail. now rewrite H. Qed.

Lemma SendEmail_first (w : World) (e : Engine) (email email' : Email) (a : Address)
    (rest : list Address) (log : list Event) :
  To email <> [] ->
  runMiddleware (outgoingMiddleware e) email = (email', None) ->
  To email' = a :: rest ->
  SendEmail w e email log
  = match sendOne w e email' a log with
    | (log', Val (Return r)) => (log', Val r)
    | (log', Val (Next _)) => (log', Val None)
    | (log', Panic msg) => (log', Panic msg)
    end.
Proof.
  intros Hto Hmw Hfirst. unfold SendEmail.
  rewrite (recipients_guard _ Hto), Hmw, Hfirst.
  unfold bind at 1. rewrite EmailSpec.rangeTo_first.
  destruct (sendOne w e email' a log) as [log' [[u|r]|msg]]; reflexivity.
Qed.

(** The events of a whole [SendEmail]: none, or those of the delivery
    to the first recipient of the email as the middleware left it. *)
Lemma SendEmail_events (w : World) (e : Engine) (email : Email) (log : list Event) :
  exists evs res,
    SendEmail w e email log = ((log ++ evs)%list, res)
    /\ (evs = []
        \/ exists email' a rest,
             runMiddleware (outgoingMiddleware e) email = (email', None)
             /\ To email' = a :: rest
             /\ deliveryEvents w e email' a log evs).
Proof.
  assert (Hnone : forall res : Res error,
             exists evs res',
               (log, res) = ((log ++ evs)%list, res')
               /\ (evs = []
                   \/ exists email' a rest,
                        runMiddleware (outgoingMiddleware e) email = (email', None)
                        /\ To email' = a :: rest
                        /\ deliveryEvents w e email' a log evs)).
  { intros res. exists [], res. split; [now rewrite app_nil_r | now left]. }
  destruct (To email) as [|b bs] eqn:Hto.
  { rewrite (SendEmail_no_recipients w e email log Hto). apply Hnone. }
  destruct (runMiddleware (outgoingMiddleware e) email) as [email' [verr|]] eqn:Hmw.
  assert (Hne : To email <> []) by (rewrite Hto; discriminate).
  { unfold SendEmail. rewrite (recipients_guard _ Hne), Hmw. apply Hnone. }
  assert (Hne : To email <> []) by (rewrite Hto; discriminate).
  destruct (To email') as [|a rest] eqn:Hfirst.
  { unfold SendEmail. rewrite (recipients_guard _ Hne), Hmw, Hfirst. apply Hnone. }
  rewrite (SendEmail_first w e email email' a rest log Hne Hmw Hfirst).
  destruct (sendOne_events w e email' a log) as (evs & res & Heq & Hev).
  rewrite Heq. exists evs.
  destruct res as [[u|r]|msg]; eexists; (split; [reflexivity|]);
    right; exists email', a, rest; auto.
Qed.

Lemma attemptEvents_handoffs (records : list MX) (from rcpt : string)
    (complete : bytes) (i m : nat) :
  List.filter isHandoff (attemptEvents records from rcpt complete i m)
  = attemptEvents records from rcpt complete i m
  /\ length (attemptEvents records from rcpt complete i m) = m.
Proof.
  unfold attemptEvents. revert i. induction m as [|m IH]; intros i; simpl.
  - auto.
  - destruct (IH (S i)) as [Hf Hl]. rewrite Hf, Hl. auto.
Qed.

Lemma runMiddleware_app (pre post : list HandlerMiddleware) (email : Email) :
  runMiddleware (pre ++ post) email
  = match runMiddleware pre email with
    | (email1, None) => runMiddleware post email1
    | (email1, Some err) => (email1, Some err)
    end.
Proof.
  revert email. induction pre as [|mw pre IH]; intros email; simpl; [reflexivity|].
  destruct (mw email) as [email1 [proceed err]].
  destruct proceed; [apply IH|reflexivity].
Qed.

(** For every world, engine and email, [SendEmail] only appends to the
    event log.  What it appends is nothing, or one MX lookup for the
    host of the first recipient followed by hand-offs to that recipient
    alone, from [email.From.Address], on port 25 of candidate
    [i mod len] of the sorted answer for attempt [i]; it makes no more
    hand-offs than the attempt budget and no second lookup. *)
Theorem SendEmail_network_discipline
    (w : World) (e : Engine) (email : Email) (log : list Event) :
  exists evs,
    fst (SendEmail w e email log) = (log ++ evs)%list
    /\ (length (List.filter isHandoff evs) <= Z.to_nat (attemptTotal e))%nat
    /\ (length evs <= 1 + length (List.filter isHandoff evs))%nat
    /\ (evs = []
        \/ exists email' a rest,
             runMiddleware (outgoingMiddleware e) email = (email', None)
             /\ To email' = a :: rest
             /\ deliveryEvents w e email' a log evs).
Proof.
  destruct (SendEmail_events w e email log) as (evs & res & Heq & Hev).
  exists evs. rewrite Heq. split; [reflexivity|].
  assert (Hcount : (length (List.filter isHandoff evs) <= Z.to_nat (attemptTotal e))%nat
                   /\ (length evs <= 1 + length (List.filter isHandoff evs))%nat).
  { destruct Hev as [->|(email' & a & rest & _ & _ & Hd)]; [simpl; lia|].
    destruct Hd as [->|(host & m & _ & Hm & ->)]; [simpl; lia|].
    simpl.
    destruct (attemptEvents_handoffs
                (sort_Slice_byPref w (fst (net_LookupMX w log host)))
                (Addr (From email')) (Addr a) (handedOff w e email' a) 0 m) as [Hf Hl].
    rewrite Hf, Hl. lia. }
  destruct Hcount as [H1 H2]. auto.
Qed.

(** With signing enabled, the buffer handed to [smtp.SendMail] is the
    one [dkim.Sign] was given to read, which nothing has written:
    every hand-off carries an empty message, whatever the email. *)
Theorem signed_handoffs_are_empty
    (w : World) (e : Engine) (email : Email) (log evs : list Event)
    (addr from : string) (to : list string) (msg : bytes) :
  OutgoingDKIMEnabled e = true ->
  fst (SendEmail w e email log) = (log ++ evs)%list ->
  In (EvSendMail addr from to msg) evs ->
  msg = [].
Proof.
  intros Hdkim Hlog Hin.
  destruct (SendEmail_events w e email log) as (evs' & res & Heq & Hev).
  rewrite Heq in Hlog. simpl in Hlog. apply app_inv_head in Hlog. subst evs'.
  destruct Hev as [->|(email' & a & rest & _ & _ & Hd)]; [destruct Hin|].
  destruct Hd as [->|(host & m & _ & _ & ->)]; [destruct Hin|].
  destruct Hin as [Hin|Hin]; [discriminate Hin|].
  unfold attemptEvents in Hin. apply in_map_iff in Hin.
  destruct Hin as (i & Hi & _). unfold attemptEvent in Hi.
  injection Hi as _ _ _ <-. unfold handedOff. now rewrite Hdkim.
Qed.

(** A middleware that does not proceed ends [SendEmail] with its
    error: the middlewares registered after it are not consulted and
    nothing reaches the network, whatever the world. *)
Theorem SendEmail_first_veto_wins
    (w : World) (e : Engine) (email email1 email2 : Email) (log : list Event)
    (pre post : list HandlerMiddleware) (mw : HandlerMiddleware) (err : error) :
  To email <> [] ->
  outgoingMiddleware e = (pre ++ mw :: post)%list ->
  runMiddleware pre email = (email1, None) ->
  mw email1 = (email2, (false, err)) ->
  SendEmail w e email log
  = (log, Val (Some ("cancelled by middleware: " +:+ fmt_error err))).
Proof.
  intros Hto Hmws Hpre Hmw. unfold SendEmail.
  rewrite (recipients_guard _ Hto), Hmws, runMiddleware_app, Hpre.
  simpl. rewrite Hmw. reflexivity.
Qed.

(** A failure to build, encode or sign the envelope of the first
    recipient ends [SendEmail] with an error before anything reaches the
    network: no message leaves unsigned when signing is on. *)
Theorem SendEmail_envelope_failure
    (w : World) (e : Engine) (email email' : Email) (a : Address)
    (rest : list Address) (log : list Event) :
  To email <> [] ->
  runMiddleware (outgoingMiddleware e) email = (email', None) ->
  To email' = a :: rest ->
  ~ envelopeReady w e email' a ->
  exists err, SendEmail w e email log = (log, Val (Some ("unable to " +:+ err))).
Proof.
  intros Hto Hmw Hfirst Hnot.
  rewrite (SendEmail_first w e email email' a rest log Hto Hmw Hfirst).
  unfold sendOne. unfold envelopeReady in Hnot.
  destruct (enmime_Build w (envelopeBuilder email' a)) as [berr|] eqn:Hb;
    [eexists; reflexivity|].
  destruct (enmime_Encode w (envelopeBuilder email' a)) as [envelope [eerr|]] eqn:Hen;
    [eexists; reflexivity|].
  destruct (OutgoingDKIMEnabled e) eqn:Hd.
  - destruct (dkim_Sign w [] (Domain e) (OutgoingSelectorName e)) as [wr [serr|]] eqn:Hs;
      [eexists; reflexivity|].
    exfalso. apply Hnot. simpl. auto.
  - exfalso. apply Hnot. simpl. repeat split; auto. discriminate.
Qed.

(** When the MX lookup fails, [SendEmail] returns the lookup error
    ("no mx records present" for a DNS error flagged not-found,
    "mx records unresolvable" otherwise) having made that one lookup
    and no hand-off. *)
Theorem SendEmail_lookup_failure
    (w : World) (e : Engine) (email email' : Email) (a : Address)
    (rest : list Address) (log : list Event) (host : string)
    (raw : list MX) (le : LookupError) :
  To email <> [] ->
  runMiddleware (outgoingMiddleware e) email = (email', None) ->
  To email' = a :: rest ->
  envelopeReady w e email' a ->
  extractHostFromAddress (Addr a) = (host, None) ->
  net_LookupMX w log host = (raw, Some le) ->
  SendEmail w e email log
  = ((log ++ [EvLookupMX host])%list, Val (Some (lookupFailure host le))).
Proof.
  intros Hto Hmw Hfirst (Hb & Hen & Hs) Hx Hlook.
  rewrite (SendEmail_first w e email email' a rest log Hto Hmw Hfirst).
  unfold sendOne. rewrite Hb.
  destruct (enmime_Encode w (envelopeBuilder email' a)) as [envelope eerr].
  simpl in Hen. subst eerr.
  assert (Hres : resolve w (Addr a) log
                 = ((log ++ [EvLookupMX host])%list, Val (inr (lookupFailure host le)))).
  { unfold resolve. rewrite Hx. unfold bind, LookupMX. rewrite Hlook.
    unfold lookupFailure. destruct (isDNSError le && IsNotFound le); reflexivity. }
  destruct (OutgoingDKIMEnabled e).
  - destruct (dkim_Sign w [] (Domain e) (OutgoingSelectorName e)) as [wr serr].
    simpl in Hs. rewrite (Hs eq_refl). unfold bind. rewrite Hres. reflexivity.
  - unfold bind. rewrite Hres. reflexivity.
Qed.

(** [UseOutgoing] registers the handler behind those already there: it
    sees the email as they left it, it is not consulted when one of
    them did not proceed, and the rest of the engine stays as it was. *)
Theorem UseOutgoing_runs_last (e : Engine) (h : HandlerMiddleware) (email : Email) :
  runMiddleware (outgoingMiddleware (UseOutgoing e h)) email
  = match runMiddleware (outgoingMiddleware e) email with
    | (email1, Some err) => (email1, Some err)
    | (email1, None) =>
        let '(email2, (proceed, err)) := h email1 in
        if proceed then (email2, None)
        else (email2, Some ("cancelled by middleware: " +:+ fmt_error err))
    end
  /\ outgoingQueue (UseOutgoing e h) = outgoingQueue e
  /\ attemptTotal (UseOutgoing e h) = attemptTotal e
  /\ OutgoingDKIMEnabled (UseOutgoing e h) = OutgoingDKIMEnabled e.
Proof.
  split; [|repeat split].
  simpl. rewrite runMiddleware_app.
  destruct (runMiddleware (outgoingMiddleware e) email) as [email1 [err|]];
    [reflexivity|].
  simpl. destruct (h email1) as [email2 [proceed err]].
  destruct proceed; reflexivity.
Qed.

(** *** Instances *)

Lemma signed_handoffs_are_empty_witness :
  OutgoingDKIMEnabled engineSigning = true
  /\ fst (SendEmail (Samples.world 0 Samples.sortKeepingTies) engineSigning
                    Samples.toAlice [])
     = ([] ++ [EvLookupMX "a.test";
               EvSendMail "mx1.a.test:25" "noreply@example.org" ["alice@a.test"] []])%list
  /\ (@nil Byte.byte) = [].
Proof.
  assert (H1 : OutgoingDKIMEnabled engineSigning = true) by reflexivity.
  assert (H2 : fst (SendEmail (Samples.world 0 Samples.sortKeepingTies) engineSigning
                              Samples.toAlice [])
               = ([] ++ [EvLookupMX "a.test";
                         EvSendMail "mx1.a.test:25" "noreply@example.org"
                                    ["alice@a.test"] []])%list) by reflexivity.
  split; [exact H1|]. split; [exact H2|].
  apply (signed_handoffs_are_empty _ _ _ _ _ "mx1.a.test:25" "noreply@example.org"
           ["alice@a.test"] [] H1 H2).
  right. left. reflexivity.
Defined.

Lemma SendEmail_first_veto_wins_witness :
  SendEmail (Samples.world 0 Samples.sortKeepingTies)
            (UseOutgoing (UseOutgoing (UseOutgoing Samples.engine tagSubject) block)
                         tagSubject)
            Samples.toBoth []
  = ([], Val (Some "cancelled by middleware: blocked")).
Proof.
  apply (SendEmail_first_veto_wins _ _ Samples.toBoth
           (fst (tagSubject Samples.toBoth)) (fst (tagSubject Samples.toBoth)) []
           [tagSubject] [tagSubject] block (Some "blocked"));
    [discriminate | reflexivity | reflexivity | reflexivity].
Defined.

Lemma SendEmail_envelope_failure_witness :
  ~ envelopeReady worldSignerFails engineSigning Samples.toAlice Samples.alice
  /\ exists err,
       SendEmail worldSignerFails engineSigning Samples.toAlice []
       = ([], Val (Some ("unable to " +:+ err))).
Proof.
  assert (Hnot : ~ envelopeReady worldSignerFails engineSigning Samples.toAlice
                     Samples.alice).
  { intros (_ & _ & Hs). specialize (Hs eq_refl). discriminate Hs. }
  split; [exact Hnot|].
  apply (SendEmail_envelope_failure worldSignerFails engineSigning Samples.toAlice
           Samples.toAlice Samples.alice [] []);
    [discriminate | reflexivity | reflexivity | exact Hnot].
Defined.

Lemma SendEmail_lookup_failure_witness :
  SendEmail worldNoSuchHost Samples.engine Samples.toBoth []
  = ([EvLookupMX "a.test"], Val (Some "no mx records present for a.test")).
Proof.
  apply (SendEmail_lookup_failure worldNoSuchHost Samples.engine Samples.toBoth
           Samples.toBoth Samples.alice [Samples.bob] [] "a.test" []
           (mkLookupError true true "no such host"));
    [discriminate | reflexivity | reflexivity | | reflexivity | reflexivity].
  split; [reflexivity|]. split; [reflexivity|]. discriminate.
Defined.

End SendSpec.

(** ** The queue and the worker *)
Module QueueSpec.
Import Email EmailView EmailMore MoreView.

(** Calls of [QueueEmail] in a row on an open queue never block or
    panic: the emails are accepted, in order, as long as there is room,
    and every later one gets [false]; the queue then holds what it held
    followed by the accepted emails, in the order of the calls. *)
Theorem QueueEmails_accepts_while_room (e : Engine) (emails : list Email) :
  GoChan.is_closed (outgoingQueue e) = false ->
  (GoChan.len (outgoingQueue e) <= GoChan.capacity (outgoingQueue e))%nat ->
  let room := (GoChan.capacity (outgoingQueue e) - GoChan.len (outgoingQueue e))%nat in
  exists e',
    QueueEmails e emails
    = Val (e', (replicate (Nat.min room (length emails)) true
                ++ replicate (length emails - room) false)%list)
    /\ GoChan.contents (outgoingQueue e')
       = (GoChan.contents (outgoingQueue e) ++ take room emails)%list
    /\ GoChan.capacity (outgoingQueue e') = GoChan.capacity (outgoingQueue e)
    /\ GoChan.is_closed (outgoingQueue e') = false.
Proof.
  revert e. induction emails as [|email rest IH]; intros e Hopen Hle room.
  - exists e. simpl. rewrite Nat.min_0_r, take_nil. simpl.
    split; [reflexivity|]. split; [now rewrite app_nil_r|]. auto.
  - destruct (Nat.lt_ge_cases (GoChan.len (outgoingQueue e))
                              (GoChan.capacity (outgoingQueue e))) as [Hlt|Hge].
    + destruct (outgoingQueue e) as [c|] eqn:Hq; simpl in Hopen, Hle, Hlt; [|lia].
      pose proof (EmailSpec.QueueEmail_below_capacity e email c Hq Hopen Hlt) as Hone.
      destruct (IH (withQueue e (Some (GoChan.mkChan (GoChan.buf c ++ [email])
                                                     (GoChan.cap c) false))))
        as (e' & Hrun & Hc & Hcap & Hcl).
      { reflexivity. }
      { simpl. rewrite length_app. simpl. lia. }
      simpl in Hrun, Hc, Hcap. rewrite length_app in Hrun, Hc. simpl in Hrun, Hc.
      exists e'. cbn [QueueEmails]. rewrite Hone, Hrun.
      assert (Hroom : room = S (GoChan.cap c - (length (GoChan.buf c) + 1)))
        by (unfold room; simpl; lia).
      rewrite Hroom. simpl.
      split; [reflexivity|]. split; [|split; assumption].
      rewrite Hc, <- app_assoc. reflexivity.
    + destruct (IH e Hopen Hle) as (e' & Hrun & Hc & Hcap & Hcl).
      assert (Hroom : room = 0%nat) by (unfold room; lia).
      fold room in Hrun, Hc. rewrite Hroom in Hrun, Hc. rewrite Hroom.
      simpl in Hrun. rewrite Nat.sub_0_r in Hrun. rewrite take_0 in Hc.
      exists e'. cbn [QueueEmails].
      rewrite (EmailSpec.QueueEmail_at_capacity e email Hopen Hge), Hrun.
      simpl. split; [reflexivity|]. split; [|split; assumption].
      rewrite Hc. reflexivity.
Qed.


(** Once [Shutdown] has closed the queue, the emails queued so far are
    still there for the workers, every later [QueueEmail] panics, and a
    second close panics as well. *)
Theorem closeQueue_ends_enqueueing (e e' : Engine) :
  closeQueue e = Val e' ->
  GoChan.contents (outgoingQueue e') = GoChan.contents (outgoingQueue e)
  /\ GoChan.capacity (outgoingQueue e') = GoChan.capacity (outgoingQueue e)
  /\ (forall email, QueueEmail e' email = Panic "send on closed channel")
  /\ (forall email rest, QueueEmails e' (email :: rest) = Panic "send on closed channel")
  /\ closeQueue e' = Panic "close of closed channel".
Proof.
  unfold closeQueue. destruct (outgoingQueue e) as [c|] eqn:Hq; [|discriminate].
  destruct (GoChan.closed c) eqn:Hc; [discriminate|].
  intros [= <-]. repeat split; try reflexivity.
Qed.

(** *** The worker *)

Lemma Delivered_withQueue (w : World) (e : Engine) (q : option (GoChan.Chan Email))
    (emails : list Email) (log : list Event) (rs : list error) (log' : list Event) :
  Delivered w (withQueue e q) emails log rs log' -> Delivered w e emails log rs log'.
Proof.
  induction 1 as [log|email rest log log1 r rs log2 Hsend _ IH].
  - constructor.
  - econstructor; [|exact IH]. now rewrite <- (SendSpec.SendEmail_withQueue w e q).
Qed.

Lemma Delivered_snoc_front (w : World) (e : Engine) (email : Email)
    (rest : list Email) (log log1 : list Event) (r : error) (rs : list error)
    (log2 : list Event) :
  SendEmail w e email log = (log1, Val r) ->
  Delivered w e rest log1 rs log2 ->
  Delivered w e (email :: rest) log (r :: rs) log2.
Proof. intros H1 H2. econstructor; eassumption. Qed.

(** A worker with enough iterations for the emails in the queue calls
    [SendEmail] for them one by one, oldest first, each on the log the
    one before left; every error returned is given to [HandlerError],
    in that order, and does not stop the loop.  The worker ends when the
    queue is empty (finished if the queue is closed, waiting if it is
    open), or at the first email on which [SendEmail] panics: that panic
    is not recovered, and the emails behind it stay in the queue. *)
Theorem worker_serves_queue (w : World) (fuel : nat) (p : Pool) (c : GoChan.Chan Email) :
  outgoingQueue (engine p) = Some c ->
  (length (GoChan.buf c) < fuel)%nat ->
  exists served results log',
    Delivered w (engine p) served (netlog p) results log'
    /\ handled (fst (worker w fuel p)) = (handled p ++ errorsOf results)%list
    /\ ((GoChan.buf c = served
         /\ snd (worker w fuel p) = (if GoChan.closed c then Finished else Waiting)
         /\ netlog (fst (worker w fuel p)) = log'
         /\ GoChan.contents (outgoingQueue (engine (fst (worker w fuel p)))) = [])
        \/ (exists email rest msg,
              GoChan.buf c = (served ++ email :: rest)%list
              /\ snd (worker w fuel p) = Crashed msg
              /\ SendEmail w (engine p) email log'
                 = (netlog (fst (worker w fuel p)), Panic msg)
              /\ GoChan.contents (outgoingQueue (engine (fst (worker w fuel p)))) = rest)).
Proof.
  revert p c. induction fuel as [|fuel IH]; intros p c Hq Hfuel; [lia|].
  cbn [worker]. unfold recv. rewrite Hq.
  destruct (GoChan.buf c) as [|email rest] eqn:Hbuf.
  - exists [], [], (netlog p). split; [constructor|].
    destruct (GoChan.closed c); simpl; (split; [now rewrite app_nil_r|]);
      left; rewrite ?Hq, ?Hbuf; repeat split; simpl; now rewrite ?Hq, ?Hbuf.
  - set (e1 := withQueue (engine p) (Some (GoChan.mkChan rest (GoChan.cap c)
                                                         (GoChan.closed c)))).
    pose proof (SendSpec.SendEmail_withQueue w (engine p)
                  (Some (GoChan.mkChan rest (GoChan.cap c) (GoChan.closed c)))
                  email (netlog p)) as Hsame.
    fold e1 in Hsame.
    destruct (SendEmail w e1 email (netlog p)) as [log1 [r|msg]] eqn:Hsend.
    + assert (Hnext : forall handled1,
                 exists served results log',
                   Delivered w (engine p) served (netlog p) results log'
                   /\ handled (fst (worker w fuel (mkPool e1 log1 handled1)))
                      = (handled1 ++ errorsOf (tail results))%list
                   /\ head results = Some r
                   /\ ((email :: rest = served
                        /\ snd (worker w fuel (mkPool e1 log1 handled1))
                           = (if GoChan.closed c then Finished else Waiting)
                        /\ netlog (fst (worker w fuel (mkPool e1 log1 handled1))) = log'
                        /\ GoChan.contents
                             (outgoingQueue
                                (engine (fst (worker w fuel (mkPool e1 log1 handled1)))))
                           = [])
                       \/ (exists email' rest' msg,
                             email :: rest = (served ++ email' :: rest')%list
                             /\ snd (worker w fuel (mkPool e1 log1 handled1))
                                = Crashed msg
                             /\ SendEmail w (engine p) email' log'
                                = (netlog (fst (worker w fuel (mkPool e1 log1 handled1))),
                                   Panic msg)
                             /\ GoChan.contents
                                  (outgoingQueue
                                     (engine (fst (worker w fuel
                                                          (mkPool e1 log1 handled1)))))
                                = rest'))).
      { intros handled1.
        destruct (IH (mkPool e1 log1 handled1)
                     (GoChan.mkChan rest (GoChan.cap c) (GoChan.closed c)))
          as (served & results & log' & Hdel & Hh & Hend).
        { reflexivity. }
        { simpl. simpl in Hfuel. lia. }
        simpl in Hdel, Hh, Hend.
        apply Delivered_withQueue in Hdel.
        exists (email :: served), (r :: results), log'.
        split; [eapply Delivered_snoc_front; [rewrite <- Hsame; reflexivity|exact Hdel]|].
        split; [exact Hh|]. split; [reflexivity|].
        destruct Hend as [(Hs & Hx & Hl & Hc)|(email' & rest' & msg & Hs & Hx & Hp & Hc)].
        - left. rewrite Hs. auto.
        - right. exists email', rest', msg. rewrite Hs.
          unfold e1 in Hp.
          rewrite (SendSpec.SendEmail_withQueue w (engine p)) in Hp. auto. }
      destruct r as [err|].
      * destruct (Hnext (handled p ++ [err])%list)
          as (served & results & log' & Hdel & Hh & Hhd & Hend).
        exists served, results, log'. split; [exact Hdel|].
        split; [|exact Hend].
        rewrite Hh. destruct results as [|r0 rs]; [discriminate Hhd|].
        simpl in Hhd. injection Hhd as ->. simpl. now rewrite <- app_assoc.
      * destruct (Hnext (handled p))
          as (served & results & log' & Hdel & Hh & Hhd & Hend).
        exists served, results, log'. split; [exact Hdel|].
        split; [|exact Hend].
        rewrite Hh. destruct results as [|r0 rs]; [discriminate Hhd|].
        simpl in Hhd. injection Hhd as ->. reflexivity.
    + exists [], [], (netlog p). split; [constructor|].
      simpl. split; [now rewrite app_nil_r|].
      right. exists email, rest, msg. rewrite <- Hsame. auto.
Qed.

Lemma worker_serves_queue_witness :
  worker (Samples.world 3 Samples.sortKeepingTies) 3
         (poolClosed [Samples.toAlice; toBob])
  = (mkPool (withQueue Samples.engine (Some (GoChan.mkChan [] 1024 true)))
            (netlog (fst (worker (Samples.world 3 Samples.sortKeepingTies) 3
                                 (poolClosed [Samples.toAlice; toBob]))))
            ["email delivery failed: "
             +:+ GoStr.Join ["attempt 1/3 failed: refused";
                             "attempt 2/3 failed: refused";
                             "attempt 3/3 failed: refused"] (String "010"%char "")],
     Finished)
  /\ worker worldNoExchanger 3 (poolClosed [toBob; Samples.toAlice])
     = (mkPool (withQueue Samples.engine (Some (GoChan.mkChan [Samples.toAlice] 1024 true)))
               [EvLookupMX "b.test"] [],
        Crashed "runtime error: integer divide by zero")
  /\ exists served results log',
       Delivered (Samples.world 3 Samples.sortKeepingTies) Samples.engine
                 served [] results log'
       /\ length served = length results.
Proof.
  split; [reflexivity|]. split; [reflexivity|].
  destruct (worker_serves_queue (Samples.world 3 Samples.sortKeepingTies) 3
              (poolClosed [Samples.toAlice; toBob])
              (GoChan.mkChan [Samples.toAlice; toBob] 1024 true) eq_refl)
    as (served & results & log' & Hdel & _); [simpl; lia|].
  exists served, results, log'. split.
  - apply (Delivered_withQueue _ _ _ _ _ _ _ Hdel).
  - clear -Hdel. induction Hdel; simpl; congruence.
Defined.

Lemma QueueEmails_accepts_while_room_witness :
  GoChan.is_closed (outgoingQueue Samples.engine) = false
  /\ (GoChan.len (outgoingQueue Samples.engine)
      <= GoChan.capacity (outgoingQueue Samples.engine))%nat
  /\ exists e',
       QueueEmails Samples.engine (replicate 1026 Samples.toAlice)
       = Val (e', (replicate 1024 true ++ [false; false])%list)
       /\ GoChan.contents (outgoingQueue e') = replicate 1024 Samples.toAlice.
Proof.
  assert (H1 : GoChan.is_closed (outgoingQueue Samples.engine) = false) by reflexivity.
  assert (H2 : (GoChan.len (outgoingQueue Samples.engine)
                <= GoChan.capacity (outgoingQueue Samples.engine))%nat)
    by (vm_compute; lia).
  split; [exact H1|]. split; [exact H2|].
  destruct (QueueEmails_accepts_while_room Samples.engine
              (replicate 1026 Samples.toAlice) H1 H2) as (e' & Hrun & Hc & _).
  exists e'. split; [exact Hrun|exact Hc].
Defined.

Lemma closeQueue_ends_enqueueing_witness :
  closeQueue Samples.engineFull
  = Val (withQueue Samples.engine
                   (Some (GoChan.mkChan [Samples.toAlice; Samples.toAlice] 2 true)))
  /\ GoChan.contents
       (outgoingQueue (withQueue Samples.engine
                         (Some (GoChan.mkChan [Samples.toAlice; Samples.toAlice] 2 true))))
     = [Samples.toAlice; Samples.toAlice].
Proof.
  assert (H : closeQueue Samples.engineFull
              = Val (withQueue Samples.engine
                       (Some (GoChan.mkChan [Samples.toAlice; Samples.toAlice] 2 true))))
    by reflexivity.
  split; [exact H|].
  exact (proj1 (closeQueue_ends_enqueueing _ _ H)).
Defined.

End QueueSpec.


(** ** [Shutdown]: progress *)
Module LifeMore.
Import Email EmailView EmailMore MoreView.

Lemma entering_app (l1 l2 : list Call) :
  entering (l1 ++ l2) = (entering l1 + entering l2)%nat.
Proof. unfold entering. now rewrite List.filter_app, length_app. Qed.

Lemma entering_cons (c : Call) (l : list Call) :
  entering (c :: l) = (isEntering c + entering l)%nat.
Proof. unfold entering. destruct c; reflexivity. Qed.

Lemma entering_insert (cs : list Call) (k : nat) (c c' : Call) :
  cs !! k = Some c ->
  (entering (<[k := c']> cs) + isEntering c = entering cs + isEntering c')%nat.
Proof.
  intros Hk.
  assert (Hlt : (k < length cs)%nat) by (eapply lookup_lt_Some; exact Hk).
  rewrite insert_take_drop by exact Hlt.
  rewrite <- (take_drop_middle cs k c Hk) at 3.
  rewrite !entering_app, !entering_cons. lia.
Qed.

Lemma entering_replicate (n : nat) : entering (replicate n Entering) = n.
Proof.
  induction n as [|n IH]; [reflexivity|].
  simpl replicate. rewrite entering_cons, IH. reflexivity.
Qed.

Lemma drains_length (s : Life) :
  length (drains s)
  = (drainCount DrainHTTP s + drainCount DrainSMTP s + drainCount DrainQueue s)%nat.
Proof.
  unfold drainCount. induction (drains s) as [|d ds IH]; [reflexivity|].
  rewrite !filter_cons. simpl length. rewrite IH.
  destruct d; simpl; lia.
Qed.

(** Every move uses up one of the moves left. *)
Lemma lifeStep_moves (a : Action) (s s' : Life) :
  lifeInv s -> lifeStep a s = Some s' -> movesLeft s = S (movesLeft s').
Proof.
  intros Hinv Hstep. unfold movesLeft.
  destruct a as [k|k|k|k|k]; simpl in Hstep.
  - destruct (calls s !! k) as [[| |]|] eqn:Hk; try discriminate Hstep.
    pose proof (entering_insert (calls s) k Entering (Draining false false false) Hk) as H1.
    pose proof (entering_insert (calls s) k Entering Returned Hk) as H2.
    simpl in H1, H2.
    destruct Hinv as [_ Hinv].
    destruct (activeClosing s) eqn:Hph; try discriminate Hstep;
      injection Hstep as <-; simpl; unfold setCall.
    + destruct Hinv as (_ & _ & Hd & _). rewrite Hd. simpl. lia.
    + lia.
  - destruct (calls s !! k) as [[|[|] sm q|]|] eqn:Hk; try discriminate Hstep.
    injection Hstep as <-.
    destruct (LifeSpec.draining_running s k false sm q Hinv Hk)
      as (Hph & _ & _ & _ & Hh & Hs & Hq & _).
    pose proof (entering_insert (calls s) k _ (Draining true sm q) Hk) as H1.
    pose proof (drains_length s) as Hl. rewrite Hh, Hs, Hq in Hl.
    simpl in *. unfold setCall. rewrite Hph, length_app. simpl.
    destruct sm, q; simpl in Hl; lia.
  - destruct (calls s !! k) as [[|h [|] q|]|] eqn:Hk; try discriminate Hstep.
    injection Hstep as <-.
    destruct (LifeSpec.draining_running s k h false q Hinv Hk)
      as (Hph & _ & _ & _ & Hh & Hs & Hq & _).
    pose proof (entering_insert (calls s) k _ (Draining h true q) Hk) as H1.
    pose proof (drains_length s) as Hl. rewrite Hh, Hs, Hq in Hl.
    simpl in *. unfold setCall. rewrite Hph, length_app. simpl.
    destruct h, q; simpl in Hl; lia.
  - destruct (calls s !! k) as [[|h sm [|]|]|] eqn:Hk; try discriminate Hstep.
    injection Hstep as <-.
    destruct (LifeSpec.draining_running s k h sm false Hinv Hk)
      as (Hph & _ & _ & _ & Hh & Hs & Hq & _).
    pose proof (entering_insert (calls s) k _ (Draining h sm true) Hk) as H1.
    pose proof (drains_length s) as Hl. rewrite Hh, Hs, Hq in Hl.
    simpl in *. unfold setCall. rewrite Hph, length_app. simpl.
    destruct h, sm; simpl in Hl; lia.
  - destruct (calls s !! k) as [[|[|] [|] [|]|]|] eqn:Hk; try discriminate Hstep.
    injection Hstep as <-.
    destruct (LifeSpec.draining_running s k true true true Hinv Hk)
      as (Hph & _ & _ & _ & Hh & Hs & Hq & _).
    pose proof (entering_insert (calls s) k _ Returned Hk) as H1.
    pose proof (drains_length s) as Hl. rewrite Hh, Hs, Hq in Hl.
    simpl in *. unfold setCall. rewrite Hph. lia.
Qed.

Lemma lifeRun_moves (schedule : list Action) (s s' : Life) :
  lifeInv s -> lifeRun schedule s = Some s' ->
  movesLeft s = (length schedule + movesLeft s')%nat.
Proof.
  revert s. induction schedule as [|a rest IH]; simpl; intros s Hinv Hrun.
  - now injection Hrun as <-.
  - destruct (lifeStep a s) as [s1|] eqn:Hstep; [|discriminate Hrun].
    rewrite (lifeStep_moves a s s1 Hinv Hstep).
    rewrite (IH s1 (LifeSpec.lifeStep_inv a s s1 Hinv Hstep) Hrun). lia.
Qed.

(** However [n] calls of [Shutdown] are interleaved, they make [n + 4]
    moves at most: each call reaches [Do] once and the drain takes four
    moves, once.  The moves made and the moves left always add up to
    [n + 4]. *)
Theorem Shutdown_terminates (n : nat) (schedule : list Action) (s : Life) :
  lifeRun schedule (lifeInit n) = Some s ->
  (length schedule + movesLeft s = n + 4)%nat
  /\ (length schedule <= n + 4)%nat
  /\ (movesLeft s = 0%nat -> forall k c, calls s !! k = Some c -> c = Returned).
Proof.
  intros Hrun.
  pose proof (lifeRun_moves schedule _ _ (LifeSpec.lifeInv_init n) Hrun) as Hm.
  assert (Hinit : movesLeft (lifeInit n) = (n + 4)%nat).
  { unfold movesLeft, lifeInit. simpl. now rewrite entering_replicate. }
  rewrite Hinit in Hm. split; [lia|]. split; [lia|].
  intros H0 k c Hk.
  pose proof (LifeSpec.lifeRun_inv schedule _ _ (LifeSpec.lifeInv_init n) Hrun)
    as [_ Hinv].
  unfold movesLeft in H0.
  destruct c as [|h sm q|]; [| |reflexivity].
  - exfalso.
    pose proof (entering_insert (calls s) k Entering Returned Hk) as H1.
    simpl in H1. lia.
  - exfalso.
    assert (Hfull : lifeInv s)
      by exact (LifeSpec.lifeRun_inv schedule _ _ (LifeSpec.lifeInv_init n) Hrun).
    destruct (LifeSpec.draining_running s k h sm q Hfull Hk)
      as (Hph & _ & _ & _ & Hh & Hs & Hq & _).
    pose proof (drains_length s) as Hl. rewrite Hh, Hs, Hq in Hl.
    rewrite Hph in H0. destruct h, sm, q; simpl in Hl; lia.
Qed.

Lemma inflight_single (cs : list Call) (x : bool * bool * bool) :
  inflight cs = [x] ->
  exists k, cs !! k = Some (Draining (fst (fst x)) (snd (fst x)) (snd x)).
Proof.
  induction cs as [|c cs IH]; [discriminate|].
  unfold inflight. simpl. fold (inflight cs).
  destruct c as [|h sm q|]; simpl.
  - intros H. destruct (IH H) as [k Hk]. now exists (S k).
  - intros [= <- _]. now exists 0%nat.
  - intros H. destruct (IH H) as [k Hk]. now exists (S k).
Qed.

Lemma draining_can_move (s : Life) (k : nat) (h sm q : bool) :
  calls s !! k = Some (Draining h sm q) ->
  exists a s', lifeStep a s = Some s'.
Proof.
  intros Hk. destruct h.
  - destruct sm.
    + destruct q.
      * exists (AWait k). simpl. rewrite Hk. eauto.
      * exists (AQueue k). simpl. rewrite Hk. eauto.
    + exists (ASmtp k). simpl. rewrite Hk. eauto.
  - exists (AHttp k). simpl. rewrite Hk. eauto.
Qed.

(** The calls of [Shutdown] never lock each other out: in every state
    they can reach, as long as one call has not returned, some call can
    move. *)
Theorem Shutdown_never_deadlocks (n : nat) (schedule : list Action) (s : Life)
    (k : nat) (c : Call) :
  lifeRun schedule (lifeInit n) = Some s ->
  calls s !! k = Some c -> c <> Returned ->
  exists a s', lifeStep a s = Some s'.
Proof.
  intros Hrun Hk Hc.
  pose proof (LifeSpec.lifeRun_inv schedule _ _ (LifeSpec.lifeInv_init n) Hrun)
    as [_ Hinv].
  destruct c as [|h sm q|]; [| |contradiction].
  - destruct (activeClosing s) eqn:Hph.
    + exists (ADo k). simpl. rewrite Hk, Hph. eauto.
    + destruct Hinv as (h & sm & q & Hin & _).
      destruct (inflight_single _ _ Hin) as [k' Hk']. simpl in Hk'.
      exact (draining_can_move s k' h sm q Hk').
    + exists (ADo k). simpl. rewrite Hk, Hph. eauto.
  - exact (draining_can_move s k h sm q Hk).
Qed.

Lemma Shutdown_terminates_witness :
  lifeRun [ADo 1; ASmtp 1; AQueue 1; AHttp 1; AWait 1; ADo 0] (lifeInit 2)
  = Some (mkLife OnceDone [DrainSMTP; DrainQueue; DrainHTTP] true false
                 [Returned; Returned])
  /\ (length [ADo 1; ASmtp 1; AQueue 1; AHttp 1; AWait 1; ADo 0] <= 2 + 4)%nat.
Proof.
  assert (Hrun : lifeRun [ADo 1; ASmtp 1; AQueue 1; AHttp 1; AWait 1; ADo 0] (lifeInit 2)
                 = Some (mkLife OnceDone [DrainSMTP; DrainQueue; DrainHTTP] true false
                                [Returned; Returned])) by reflexivity.
  split; [exact Hrun|].
  exact (proj1 (proj2 (Shutdown_terminates 2 _ _ Hrun))).
Defined.

Lemma Shutdown_never_deadlocks_witness :
  lifeRun [ADo 1; ASmtp 1] (lifeInit 2)
  = Some (mkLife OnceRunning [DrainSMTP] false false
                 [Entering; Draining false true false])
  /\ exists a s',
       lifeStep a (mkLife OnceRunning [DrainSMTP] false false
                          [Entering; Draining false true false]) = Some s'.
Proof.
  assert (Hrun : lifeRun [ADo 1; ASmtp 1] (lifeInit 2)
                 = Some (mkLife OnceRunning [DrainSMTP] false false
                                [Entering; Draining false true false])) by reflexivity.
  split; [exact Hrun|].
  apply (Shutdown_never_deadlocks 2 _ _ 0 Entering Hrun); [reflexivity|discriminate].
Defined.

End LifeMore.


(** ** [SetupDKIM] *)
Module SetupSpec.
Import Email EmailView EmailMore MoreView.

(** [SetupDKIM] either enables signing with the RSA key of the file,
    leaving queue, middleware, timeout and domain as they were; or
    returns an error (unreadable file, unparsable key, a key that is not
    RSA) with the engine untouched; or panics, which happens exactly
    when the file can be read and holds no PEM block. *)
Theorem SetupDKIM_outcomes (f : KeyFiles) (s : Signing) (key : string) :
  match SetupDKIM f s key with
  | Val (s', None) =>
      OutgoingDKIMEnabled (base s') = true
      /\ (exists block id,
            pem_Decode f (fst (os_ReadFile f key)) = Some block
            /\ x509_ParsePKCS8PrivateKey f block = (RSAKey id, None)
            /\ OutgoingDKIMSigner s' = Some id)
      /\ outgoingQueue (base s') = outgoingQueue (base s)
      /\ outgoingMiddleware (base s') = outgoingMiddleware (base s)
      /\ attemptTotal (base s') = attemptTotal (base s)
      /\ Domain (base s') = Domain (base s)
  | Val (s', Some _) => s' = s
  | Panic _ =>
      snd (os_ReadFile f key) = None
      /\ pem_Decode f (fst (os_ReadFile f key)) = None
  end.
Proof.
  unfold SetupDKIM.
  destruct (os_ReadFile f key) as [b [rerr|]]; simpl; [reflexivity|].
  destruct (pem_Decode f b) as [block|] eqn:Hpem; simpl; [|auto].
  destruct (x509_ParsePKCS8PrivateKey f block) as [[id|id] [perr|]] eqn:Hparse;
    simpl; try reflexivity.
  split; [reflexivity|]. split; [|repeat split].
  exists block, id. auto.
Qed.

(** The outcomes on sample files. *)
Example SetupDKIM_samples :
  SetupDKIM sampleFiles unsigned "rsa.pem"
  = Val (mkSigning (enableDKIM Samples.engine) (Some "k1"), None)
  /\ SetupDKIM sampleFiles unsigned "ec.pem"
     = Val (unsigned, Some "expected rsa private key")
  /\ SetupDKIM sampleFiles unsigned "missing.pem"
     = Val (unsigned, Some "open: no such file or directory")
  /\ SetupDKIM sampleFiles unsigned "notes.txt"
     = Panic "runtime error: invalid memory address or nil pointer dereference".
Proof. repeat split; reflexivity. Qed.

End SetupSpec.


(** ** [SendEmail] of package [env] *)
Module EnvSendSpec.
Import Email EmailView MoreView EnvLoopFacts.

Ltac no_events :=
  exists []; eexists;
  split; [unfold ret; rewrite app_nil_r; reflexivity | left; reflexivity].

(** Whatever the libraries and the servers answer, [SendEmail] of
    package [env] returns without a panic and only appends to the event
    log: nothing, or one MX lookup for the host of the address followed
    by hand-offs to the first exchangers of the sorted answer, in that
    order and three at most.  A hand-off is made only when building,
    encoding and signing have succeeded, and it carries the signed
    bytes. *)
Theorem env_SendEmail_network_discipline
    (c : Env.Config) (n : EnvSend.Net) (e : Env.Email) (log : list Event) :
  exists evs r,
    EnvSend.SendEmail c n e log = ((log ++ evs)%list, Val r)
    /\ (evs = []
        \/ exists host k,
             envSigned c n e
             /\ EnvSend.url_Parse_Hostname n ("email://" +:+ Env.ToAddress e) = Some host
             /\ (k <= 3)%nat
             /\ evs = EvLookupMX host
                      :: map (handoffTo e (signedEnvelope c n e))
                             (take k (sort_Slice_byPref (EnvSend.world n)
                                        (fst (net_LookupMX (EnvSend.world n) log host))))).
Proof.
  unfold EnvSend.SendEmail, signedEnvelope, envSigned.
  destruct (enmime_Build (EnvSend.world n) _) as [berr|] eqn:Hb; [no_events|].
  destruct (enmime_Encode (EnvSend.world n) _) as [output [eerr|]] eqn:Hen;
    [no_events|].
  destruct (dkim_Sign (EnvSend.world n) output _ _) as [envelope [serr|]] eqn:Hs;
    [no_events|].
  destruct (EnvSend.url_Parse_Hostname n _) as [host|] eqn:Hu; [|no_events].
  unfold bind at 1. unfold LookupMX.
  destruct (net_LookupMX (EnvSend.world n) log host) as [raw [le|]] eqn:Hl.
  - exists [EvLookupMX host].
    destruct (isDNSError le && IsNotFound le); eexists;
      (split; [reflexivity|]); right; exists host, 0%nat; simpl;
      rewrite ?Hs, ?Hl; simpl; repeat split; try reflexivity; try assumption; try lia.
  - unfold bind.
    destruct (deliverLoop_events n (EnvSend.capAt3 (sort_Slice_byPref (EnvSend.world n) raw))
                e envelope [] (log ++ [EvLookupMX host])%list) as (k & r & Hk & Heq).
    rewrite Heq. rewrite capAt3_take in Hk |- *.
    rewrite length_take in Hk. rewrite take_take.
    exists (EvLookupMX host
            :: map (handoffTo e envelope)
                   (take (Nat.min k 3) (sort_Slice_byPref (EnvSend.world n) raw))).
    rewrite <- app_assoc. simpl.
    destruct r as [errs|r]; eexists; (split; [reflexivity|]);
      right; exists host, (Nat.min k 3); simpl;
      rewrite ?Hs, ?Hl; simpl; repeat split; try reflexivity; try assumption; try lia.
Qed.

(** When every exchanger kept refuses, [SendEmail] of package [env]
    has tried each of them once, in sorted order, and returns the
    refusals joined by ", " behind "cannot send email: ".  When the
    lookup answers with no exchanger at all, that is the bare
    "cannot send email: " after the lookup alone: the loop over an empty
    list does nothing, and nothing panics. *)
Theorem env_SendEmail_all_refused
    (c : Env.Config) (n : EnvSend.Net) (e : Env.Email) (log : list Event)
    (host : string) (raw : list MX) (errs : list string) :
  envSigned c n e ->
  EnvSend.url_Parse_Hostname n ("email://" +:+ Env.ToAddress e) = Some host ->
  net_LookupMX (EnvSend.world n) log host = (raw, None) ->
  refusedAll (EnvSend.world n) e (signedEnvelope c n e) (log ++ [EvLookupMX host])%list
             (take 3 (sort_Slice_byPref (EnvSend.world n) raw)) errs ->
  EnvSend.SendEmail c n e log
  = ((log ++ EvLookupMX host
          :: map (handoffTo e (signedEnvelope c n e))
                 (take 3 (sort_Slice_byPref (EnvSend.world n) raw)))%list,
     Val (Some ("cannot send email: " +:+ GoStr.Join errs ", ")))
  /\ length errs = Nat.min 3 (length (sort_Slice_byPref (EnvSend.world n) raw))
  /\ (sort_Slice_byPref (EnvSend.world n) raw = [] ->
      EnvSend.SendEmail c n e log
      = ((log ++ [EvLookupMX host])%list, Val (Some "cannot send email: "))).
Proof.
  intros (Hb & Hen & Hs) Hu Hl Href.
  assert (Hrun : EnvSend.SendEmail c n e log
                 = ((log ++ EvLookupMX host
                         :: map (handoffTo e (signedEnvelope c n e))
                                (take 3 (sort_Slice_byPref (EnvSend.world n) raw)))%list,
                    Val (Some ("cannot send email: " +:+ GoStr.Join errs ", ")))
                 /\ length errs
                    = length (take 3 (sort_Slice_byPref (EnvSend.world n) raw))).
  { unfold EnvSend.SendEmail, signedEnvelope in *. rewrite Hb.
    destruct (enmime_Encode (EnvSend.world n) _) as [output eerr] eqn:Henc.
    simpl in Hen, Hs, Href |- *. subst eerr.
    destruct (dkim_Sign (EnvSend.world n) output _ _) as [envelope serr] eqn:Hsig.
    simpl in Hs, Href |- *. subst serr. rewrite Hu.
    unfold bind at 1. unfold LookupMX. rewrite Hl. unfold bind.
    rewrite capAt3_take.
    destruct (deliverLoop_all_refused n e envelope _ errs [] _ Href) as [Heq Hlen].
    rewrite Heq. simpl. rewrite <- app_assoc. split; [reflexivity|exact Hlen]. }
  destruct Hrun as [Hrun Hlen]. split; [exact Hrun|].
  split; [now rewrite Hlen, length_take|].
  intros Hempty. rewrite Hrun. rewrite Hempty in Hlen |- *.
  destruct errs; [reflexivity|discriminate Hlen].
Qed.

(** Of the sorted answer, [SendEmail] of package [env] keeps the first
    three exchangers: whatever sort [sort.Slice] performs within its
    contract, no exchanger left out has a smaller preference number
    than one that is kept, and together they are the answer of the
    lookup. *)
Theorem capAt3_keeps_most_preferred
    (sorter : list MX -> list MX) (raw : list MX) (kept dropped : MX) :
  sortsByPref sorter ->
  kept ∈ EnvSend.capAt3 (sorter raw) ->
  dropped ∈ drop 3 (sorter raw) ->
  Pref kept <= Pref dropped
  /\ length (EnvSend.capAt3 (sorter raw)) = 3%nat
  /\ Permutation raw (EnvSend.capAt3 (sorter raw) ++ drop 3 (sorter raw)).
Proof.
  intros Hsort Hkept Hdropped. destruct (Hsort raw) as [Hperm Hsorted].
  rewrite capAt3_take in *.
  apply list_elem_of_lookup_1 in Hkept. destruct Hkept as [i Hi].
  apply list_elem_of_lookup_1 in Hdropped. destruct Hdropped as [j Hj].
  apply lookup_take_Some in Hi. destruct Hi as [Hi Hlt].
  rewrite lookup_drop in Hj.
  split; [|split].
  - apply (EmailSpec.sorted_ascending _ Hsorted i (3 + j)); [lia|assumption|assumption].
  - rewrite length_take. apply lookup_lt_Some in Hj. lia.
  - now rewrite take_drop.
Qed.

Lemma env_SendEmail_all_refused_witness :
  EnvSend.SendEmail EnvView.configDefault
    (sampleNet (Samples.worldWith fourRanks 10 Samples.sortKeepingTies)) envLetter []
  = ([EvLookupMX "a.test";
      EvSendMail "mx1.a.test:25" "noreply@example.org" ["alice@a.test"]
                 (list_byte_of_string "alice@a.test");
      EvSendMail "mx2.a.test:25" "noreply@example.org" ["alice@a.test"]
                 (list_byte_of_string "alice@a.test");
      EvSendMail "mx3.a.test:25" "noreply@example.org" ["alice@a.test"]
                 (list_byte_of_string "alice@a.test")],
     Val (Some "cannot send email: refused, refused, refused")).
Proof.
  apply (env_SendEmail_all_refused EnvView.configDefault
           (sampleNet (Samples.worldWith fourRanks 10 Samples.sortKeepingTies))
           envLetter [] "a.test" (fourRanks "a.test") ["refused"; "refused"; "refused"]).
  - repeat split; reflexivity.
  - reflexivity.
  - reflexivity.
  - simpl. repeat split; reflexivity.
Defined.

Lemma capAt3_keeps_most_preferred_witness :
  sortsByPref (Samples.sortKeepingTies lessByPref)
  /\ mkMX "mx3.a.test" 30 ∈ EnvSend.capAt3 (Samples.sortKeepingTies lessByPref (fourRanks "a.test"))
  /\ mkMX "mx4.a.test" 40 ∈ drop 3 (Samples.sortKeepingTies lessByPref (fourRanks "a.test"))
  /\ Pref (mkMX "mx3.a.test" 30) <= Pref (mkMX "mx4.a.test" 40).
Proof.
  assert (H1 : sortsByPref (Samples.sortKeepingTies lessByPref))
    by exact EmailSpec.sortKeepingTies_sorts.
  assert (H2 : mkMX "mx3.a.test" 30
               ∈ EnvSend.capAt3 (Samples.sortKeepingTies lessByPref (fourRanks "a.test"))).
  { vm_compute. apply list_elem_of_In. simpl. auto. }
  assert (H3 : mkMX "mx4.a.test" 40
               ∈ drop 3 (Samples.sortKeepingTies lessByPref (fourRanks "a.test"))).
  { vm_compute. apply list_elem_of_In. simpl. auto. }
  split; [exact H1|]. split; [exact H2|]. split; [exact H3|].
  exact (proj1 (capAt3_keeps_most_preferred _ _ _ _ H1 H2 H3)).
Defined.

End EnvSendSpec.

(** ** The inbound session and the suppression map *)
Module DataSpec.
Import Env EnvView EnvMore.

Ltac open_verified Hver :=
  destruct Hver as (Hread & GetHeader & Henv & HTo & HFrom & Hdkim);
  unfold Session.Data; rewrite Hread, Henv, HTo, HFrom, Hdkim; cbn [negb].

(** [Data] answers with the data-reset error exactly when the libraries
    do not accept the data as a signed message with parsable sender and
    recipient (read error, unparsable envelope or address, failed DKIM
    verification); the state is then as it was. *)
Theorem Data_reset_iff_unverified
    (c : Config) (l : Libs) (now : Z) (r : Reader) (st : State) :
  (exists st', Session.Data c l now r st = Val (st', Some ErrDataReset))
  <-> ~ (exists To From, verified l r To From).
Proof.
  split.
  - intros [st' Hdata] (To & From & Hread & GetHeader & Henv & HTo & HFrom & Hdkim).
    revert Hdata. unfold Session.Data. rewrite Hread, Henv, HTo, HFrom, Hdkim.
    cbn [negb].
    destruct (String.eqb _ (SMTP_ADDRESS_DMARC c)); [discriminate|].
    destruct (String.eqb _ (SMTP_ADDRESS_NOREPLY c)).
    + destruct (String.eqb (SMTP_DISABLE_NOREPLY c) ""); [discriminate|].
      destruct (emailDebounce st !! Address From); [discriminate|].
      destruct (QueueEmail _ _); discriminate.
    + destruct (String.eqb (SMTP_FORWARD_ADDRESS c) ""); [discriminate|].
      destruct (QueueEmail _ _); discriminate.
  - intros Hnot. exists st. unfold Session.Data.
    destruct (readError r) as [rerr|] eqn:Hread; [reflexivity|].
    destruct (enmime_ReadEnvelope l (stream r)) as [GetHeader|] eqn:Henv; [|reflexivity].
    destruct (mail_ParseAddress l (GetHeader "To")) as [To|] eqn:HTo; [|reflexivity].
    destruct (mail_ParseAddress l (GetHeader "From")) as [From|] eqn:HFrom; [|reflexivity].
    destruct (dkim_Verify l (stream r)) eqn:Hdkim; [|reflexivity].
    exfalso. apply Hnot. exists To, From. split; [exact Hread|].
    exists GetHeader. auto.
Qed.

Lemma QueueEmail_grows (st st' : State) (e : Email) :
  QueueEmail st e = Val st' ->
  emailDebounce st' = emailDebounce st
  /\ GoChan.capacity (emailQueue st') = GoChan.capacity (emailQueue st)
  /\ (GoChan.contents (emailQueue st') = GoChan.contents (emailQueue st)
      \/ GoChan.contents (emailQueue st')
         = (GoChan.contents (emailQueue st) ++ [e])%list).
Proof.
  unfold QueueEmail, GoChan.trySend.
  destruct (emailQueue st) as [q|] eqn:Hq.
  - destruct (GoChan.closed q); [discriminate|].
    destruct (length (GoChan.buf q) <? GoChan.cap q)%nat; intros [= <-]; simpl;
      rewrite ?Hq; simpl; auto.
  - intros [= <-]. rewrite Hq. auto.
Qed.

Lemma Data_effect
    (c : Config) (l : Libs) (now : Z) (r : Reader) (st st' : State)
    (err : option SessionError) :
  Session.Data c l now r st = Val (st', err) ->
  emailDebounce st ⊆ emailDebounce st'
  /\ (exists added, GoChan.contents (emailQueue st')
                    = (GoChan.contents (emailQueue st) ++ added)%list
                    /\ (length added <= 1)%nat)
  /\ GoChan.capacity (emailQueue st') = GoChan.capacity (emailQueue st)
  /\ (err <> None -> st' = st).
Proof.
  assert (Hsame : forall err0 : option SessionError,
             Val (st, err0) = Val (st', err) ->
             emailDebounce st ⊆ emailDebounce st'
             /\ (exists added, GoChan.contents (emailQueue st')
                               = (GoChan.contents (emailQueue st) ++ added)%list
                               /\ (length added <= 1)%nat)
             /\ GoChan.capacity (emailQueue st') = GoChan.capacity (emailQueue st)
             /\ (err <> None -> st' = st)).
  { intros err0 [= <- _]. split; [reflexivity|]. split; [|auto].
    exists []. rewrite app_nil_r. simpl. auto. }
  unfold Session.Data.
  destruct (readError r); [apply Hsame|].
  destruct (enmime_ReadEnvelope l (stream r)) as [GetHeader|]; [|apply Hsame].
  destruct (mail_ParseAddress l (GetHeader "To")) as [To|]; [|apply Hsame].
  destruct (mail_ParseAddress l (GetHeader "From")) as [From|]; [|apply Hsame].
  destruct (dkim_Verify l (stream r)); cbn [negb]; [|apply Hsame].
  destruct (String.eqb _ (SMTP_ADDRESS_DMARC c)); [apply Hsame|].
  destruct (String.eqb _ (SMTP_ADDRESS_NOREPLY c)).
  - destruct (String.eqb (SMTP_DISABLE_NOREPLY c) ""); [apply Hsame|].
    destruct (emailDebounce st !! Address From) eqn:Hentry; [apply Hsame|].
    destruct (QueueEmail _ _) as [st2|msg] eqn:Hq; [|discriminate].
    intros [= <- <-]. destruct (QueueEmail_grows _ _ _ Hq) as (Hd & Hcap & Hc).
    simpl in Hd, Hcap, Hc. rewrite Hd.
    split; [now apply insert_subseteq|]. split; [|split; [exact Hcap|congruence]].
    destruct Hc as [Hc|Hc]; rewrite Hc.
    + exists []. rewrite app_nil_r. simpl. auto.
    + eexists. split; [reflexivity|]. simpl. lia.
  - destruct (String.eqb (SMTP_FORWARD_ADDRESS c) ""); [apply Hsame|].
    destruct (QueueEmail _ _) as [st2|msg] eqn:Hq; [|discriminate].
    intros [= <- <-]. destruct (QueueEmail_grows _ _ _ Hq) as (Hd & Hcap & Hc).
    rewrite Hd. split; [reflexivity|]. split; [|split; [exact Hcap|congruence]].
    destruct Hc as [Hc|Hc]; rewrite Hc.
    + exists []. rewrite app_nil_r. simpl. auto.
    + eexists. split; [reflexivity|]. simpl. lia.
Qed.

(** Whatever arrives, [Data] changes the state only by recording a
    suppression entry and by queueing: it removes no entry, takes
    nothing from the queue and puts at most one email at its tail, keeps
    the capacity, and leaves the state untouched whenever it returns an
    error.  An entry it adds expires one hour after the time of the
    call. *)
Theorem Data_only_adds
    (c : Config) (l : Libs) (now : Z) (r : Reader) (st st' : State)
    (err : option SessionError) :
  Session.Data c l now r st = Val (st', err) ->
  emailDebounce st ⊆ emailDebounce st'
  /\ (exists added, GoChan.contents (emailQueue st')
                    = (GoChan.contents (emailQueue st) ++ added)%list
                    /\ (length added <= 1)%nat)
  /\ GoChan.capacity (emailQueue st') = GoChan.capacity (emailQueue st)
  /\ (err <> None -> st' = st)
  /\ (forall sender expiry,
        emailDebounce st' !! sender = Some expiry ->
        emailDebounce st !! sender = None ->
        expiry = now + GoTime.Hour /\ err = None).
Proof.
  intros Hdata.
  destruct (Data_effect c l now r st st' err Hdata) as (Hsub & Hadd & Hcap & Herr).
  repeat (split; [assumption|]).
  intros sender expiry Hnew Hold.
  assert (Hsame : forall err0 : option SessionError,
             Val (st, err0) = Val (st', err) -> expiry = now + GoTime.Hour /\ err = None).
  { intros err0 [= <- _]. congruence. }
  revert Hdata. unfold Session.Data.
  destruct (readError r); [apply Hsame|].
  destruct (enmime_ReadEnvelope l (stream r)) as [GetHeader|]; [|apply Hsame].
  destruct (mail_ParseAddress l (GetHeader "To")) as [To|]; [|apply Hsame].
  destruct (mail_ParseAddress l (GetHeader "From")) as [From|]; [|apply Hsame].
  destruct (dkim_Verify l (stream r)); cbn [negb]; [|apply Hsame].
  destruct (String.eqb _ (SMTP_ADDRESS_DMARC c)); [apply Hsame|].
  destruct (String.eqb _ (SMTP_ADDRESS_NOREPLY c)).
  - destruct (String.eqb (SMTP_DISABLE_NOREPLY c) ""); [apply Hsame|].
    destruct (emailDebounce st !! Address From); [apply Hsame|].
    destruct (QueueEmail _ _) as [st2|msg] eqn:Hq; [|discriminate].
    intros [= <- <-]. destruct (QueueEmail_grows _ _ _ Hq) as (Hd & _).
    simpl in Hd. rewrite Hd in Hnew.
    apply lookup_insert_Some in Hnew as [[_ <-]|[_ Hnew]]; [auto|congruence].
  - destruct (String.eqb (SMTP_FORWARD_ADDRESS c) ""); [apply Hsame|].
    destruct (QueueEmail _ _) as [st2|msg] eqn:Hq; [|discriminate].
    intros [= <- <-]. destruct (QueueEmail_grows _ _ _ Hq) as (Hd & _). congruence.
Qed.

(** A verified message addressed to the compliance-reports address is
    accepted and dropped: [Data] returns [nil] and the state is exactly
    as it was, whatever the configuration and even on a closed queue;
    the check comes before the no-reply and the forward branches. *)
Theorem Data_dmarc_is_dropped
    (c : Config) (l : Libs) (now : Z) (r : Reader) (st : State)
    (To From : MailAddress) :
  verified l r To From ->
  Address To = SMTP_ADDRESS_DMARC c ->
  Session.Data c l now r st = Val (st, None).
Proof.
  intros Hver Hto. open_verified Hver.
  rewrite Hto, String.eqb_refl. reflexivity.
Qed.

(** [Data] forwards every verified message that is addressed neither
    to the compliance-reports nor to the no-reply address, whatever its
    recipient: with no forward destination configured it answers
    unknown recipient, otherwise it queues one email to the destination
    whose single attachment is the raw data as received, and records no
    suppression entry. *)
Theorem Data_forwards_everything_else
    (c : Config) (l : Libs) (now : Z) (r : Reader) (st : State)
    (To From : MailAddress) (q : GoChan.Chan Email) :
  verified l r To From ->
  Address To <> SMTP_ADDRESS_DMARC c ->
  Address To <> SMTP_ADDRESS_NOREPLY c ->
  emailQueue st = Some q -> GoChan.closed q = false ->
  (length (GoChan.buf q) < GoChan.cap q)%nat ->
  (SMTP_FORWARD_ADDRESS c = "" ->
   Session.Data c l now r st = Val (st, Some ErrUnknownRecipient))
  /\ (SMTP_FORWARD_ADDRESS c <> "" ->
      exists subject,
        Session.Data c l now r st
        = Val (mkState (emailDebounce st)
                       (Some (GoChan.mkChan
                                (GoChan.buf q ++ [forwarded c From subject (stream r)])
                                (GoChan.cap q) false)),
               None)
        /\ ToAddress (forwarded c From subject (stream r)) = SMTP_FORWARD_ADDRESS c
        /\ map Data (Attachments (forwarded c From subject (stream r))) = [stream r]).
Proof.
  intros Hver Hnd Hnn Hq Hopen Hroom.
  destruct Hver as (Hread & GetHeader & Henv & HTo & HFrom & Hdkim).
  unfold Session.Data. rewrite Hread, Henv, HTo, HFrom, Hdkim. cbn [negb].
  destruct (String.eqb_spec (Address To) (SMTP_ADDRESS_DMARC c)); [contradiction|].
  destruct (String.eqb_spec (Address To) (SMTP_ADDRESS_NOREPLY c)); [contradiction|].
  split.
  - intros ->. reflexivity.
  - intros Hfw. destruct (String.eqb_spec (SMTP_FORWARD_ADDRESS c) ""); [contradiction|].
    exists (GetHeader "Subject").
    unfold QueueEmail, GoChan.trySend. rewrite Hq. cbv beta iota. rewrite Hopen.
    destruct (Nat.ltb_spec (length (GoChan.buf q)) (GoChan.cap q)); [|lia].
    simpl. auto.
Qed.

(** On a full queue [Data] still answers [nil] to the peer although
    the email it built is dropped; on the no-reply path the suppression
    entry of the sender is recorded all the same, so the sender has got
    no auto-reply and later messages of the sender are suppressed. *)
Theorem Data_full_queue_is_silent
    (c : Config) (l : Libs) (now : Z) (r : Reader) (st : State)
    (To From : MailAddress) :
  verified l r To From ->
  Address To <> SMTP_ADDRESS_DMARC c ->
  GoChan.is_closed (emailQueue st) = false ->
  (GoChan.capacity (emailQueue st) <= GoChan.len (emailQueue st))%nat ->
  (Address To = SMTP_ADDRESS_NOREPLY c -> SMTP_DISABLE_NOREPLY c <> "" ->
   emailDebounce st !! Address From = None ->
   Session.Data c l now r st
   = Val (mkState (<[Address From := now + GoTime.Hour]> (emailDebounce st))
                  (emailQueue st), None)
   /\ forall later r',
        verified l r' To From ->
        Session.Data c l later r'
          (mkState (<[Address From := now + GoTime.Hour]> (emailDebounce st))
                   (emailQueue st))
        = Val (mkState (<[Address From := now + GoTime.Hour]> (emailDebounce st))
                       (emailQueue st), None))
  /\ (Address To <> SMTP_ADDRESS_NOREPLY c -> SMTP_FORWARD_ADDRESS c <> "" ->
      Session.Data c l now r st = Val (st, None)).
Proof.
  intros Hver Hnd Hopen Hfull.
  assert (Hdrop : forall (m : gmap string Z) (e : Email),
             QueueEmail (mkState m (emailQueue st)) e = Val (mkState m (emailQueue st))).
  { intros m e. unfold QueueEmail, GoChan.trySend. simpl.
    destruct (emailQueue st) as [q|]; simpl in *; [|reflexivity].
    rewrite Hopen. destruct (Nat.ltb_spec (length (GoChan.buf q)) (GoChan.cap q));
      [lia|reflexivity]. }
  split.
  - intros Hto Hvar Hentry. split.
    + rewrite (EnvSpec.Data_noreply_variable_set c l now r st To From Hver Hto Hnd Hvar).
      rewrite Hentry, Hdrop. reflexivity.
    + intros later r' Hver'.
      rewrite (EnvSpec.Data_noreply_variable_set c l later r' _ To From Hver' Hto Hnd Hvar).
      simpl. now rewrite lookup_insert_eq.
  - intros Hnn Hfw.
    destruct Hver as (Hread & GetHeader & Henv & HTo & HFrom & Hdkim).
    unfold Session.Data. rewrite Hread, Henv, HTo, HFrom, Hdkim. cbn [negb].
    destruct (String.eqb_spec (Address To) (SMTP_ADDRESS_DMARC c)); [contradiction|].
    destruct (String.eqb_spec (Address To) (SMTP_ADDRESS_NOREPLY c)); [contradiction|].
    destruct (String.eqb_spec (SMTP_FORWARD_ADDRESS c) ""); [contradiction|].
    destruct st as [m q0]. simpl in *. now rewrite Hdrop.
Qed.

(** *** The sweep and the timer *)

(** The sweep keeps exactly the entries that have not expired before
    the time of the sweep (an entry that expires at that very instant
    stays); sweeping again changes nothing, and a sweep removes nothing
    that a later sweep would keep. *)
Theorem sweep_keeps_unexpired (now later : Z) (m : gmap string Z) (sender : string)
    (expiry : Z) :
  (sweep now m !! sender = Some expiry <-> m !! sender = Some expiry /\ now <= expiry)
  /\ sweep now (sweep now m) = sweep now m
  /\ (now <= later -> sweep later (sweep now m) = sweep later m).
Proof.
  assert (Hlook : forall t k x (mm : gmap string Z),
             sweep t mm !! k = Some x <-> mm !! k = Some x /\ t <= x).
  { intros t k x mm. unfold sweep. rewrite map_lookup_filter_Some. simpl.
    unfold GoTime.After. rewrite Z.ltb_ge. reflexivity. }
  split; [apply Hlook|].
  assert (Hcomp : forall t1 t2, t1 <= t2 -> sweep t2 (sweep t1 m) = sweep t2 m).
  { intros t1 t2 Hle. apply map_eq. intros k. apply option_eq. intros x.
    rewrite !Hlook. split; [tauto|]. intros [H1 H2]. repeat split; auto. lia. }
  split; [apply Hcomp; lia|apply Hcomp].
Qed.

Lemma relayStep_after_timer (c : Config) (l : Libs) (now : Z) (i : Input)
    (rl rl' : Relay) (err : option SessionError) :
  timerFired rl = true ->
  relayStep c l now i rl = Val (rl', err) ->
  timerFired rl' = true
  /\ emailDebounce (state rl) ⊆ emailDebounce (state rl')
  /\ exists added, queued rl' = (queued rl ++ added)%list /\ (length added <= 1)%nat.
Proof.
  intros Hfired. unfold relayStep. destruct i as [|r].
  - rewrite Hfired. simpl. intros [= <- _].
    split; [exact Hfired|]. split; [reflexivity|]. exists [].
    rewrite app_nil_r. simpl. auto.
  - destruct (Session.Data c l now r (state rl)) as [[st err0]|msg] eqn:Hdata;
      [|discriminate].
    intros [= <- <-]. simpl.
    destruct (Data_effect c l now r (state rl) st err0 Hdata)
      as (Hsub & (added & Hadd & Hlen) & _).
    split; [exact Hfired|]. split; [exact Hsub|].
    exists added. unfold queued. simpl. auto.
Qed.

(** Once the timer has delivered its value, no run of the relay ever
    removes a suppression entry again, whatever arrives and however
    often the goroutine is scheduled; the queue only grows at its tail,
    by at most one email for each input. *)
Theorem relay_keeps_entries_after_timer
    (c : Config) (l : Libs) (inputs : list (Z * Input)) (rl rl' : Relay) :
  timerFired rl = true ->
  relayRun c l inputs rl = Val rl' ->
  timerFired rl' = true
  /\ emailDebounce (state rl) ⊆ emailDebounce (state rl')
  /\ exists added, queued rl' = (queued rl ++ added)%list
                   /\ (length added <= length inputs)%nat.
Proof.
  revert rl. induction inputs as [|[now i] rest IH]; intros rl Hfired; cbn [relayRun].
  - intros [= <-]. split; [exact Hfired|]. split; [reflexivity|].
    exists []. rewrite app_nil_r. simpl. auto.
  - destruct (relayStep c l now i rl) as [[rl1 err]|msg] eqn:Hstep; [|discriminate].
    intros Hrun.
    destruct (relayStep_after_timer c l now i rl rl1 err Hfired Hstep)
      as (Hfired1 & Hsub1 & added1 & Hadd1 & Hlen1).
    destruct (IH rl1 Hfired1 Hrun) as (Hfired' & Hsub & added & Hadd & Hlen).
    split; [exact Hfired'|]. split; [now transitivity (emailDebounce (state rl1))|].
    exists (added1 ++ added)%list. rewrite Hadd, Hadd1, app_assoc, length_app.
    split; [reflexivity|]. simpl. lia.
Qed.

Lemma relay_keeps_entries_after_timer_witness :
  timerFired (mkRelay remembering 0 true) = true
  /\ emailDebounce remembering !! "carol@c.test" = Some (5 * GoTime.Second)
  /\ exists rl', relayRun configDisableSet toyLibs thirdTrigger (mkRelay remembering 0 true)
                 = Val rl'
                 /\ emailDebounce (state rl') !! "carol@c.test" = Some (5 * GoTime.Second)
                 /\ exists added,
                      queued rl' = ([autoReply configForward toyLibs carol] ++ added)%list
                      /\ (length added <= 5)%nat.
Proof.
  split; [reflexivity|].
  assert (Hcarol : emailDebounce remembering !! "carol@c.test" = Some (5 * GoTime.Second))
    by (vm_compute; reflexivity).
  split; [exact Hcarol|].
  destruct (relayRun configDisableSet toyLibs thirdTrigger (mkRelay remembering 0 true))
    as [rl'|msg] eqn:Hrun; [|vm_compute in Hrun; discriminate].
  exists rl'. split; [reflexivity|].
  destruct (relay_keeps_entries_after_timer configDisableSet toyLibs
              thirdTrigger (mkRelay remembering 0 true) rl' eq_refl Hrun)
    as (_ & Hsub & added & Hadd & Hlen).
  split; [exact (lookup_weaken _ _ _ _ Hcarol Hsub)|].
  exists added. split; [exact Hadd|exact Hlen].
Defined.

Lemma QueueEmail_open (st : State) (e : Email) :
  openQueue st -> exists st', QueueEmail st e = Val st' /\ openQueue st'.
Proof.
  intros [Hopen Hlen]. unfold QueueEmail, GoChan.trySend, openQueue in *.
  destruct st as [m [q|]]; simpl in *.
  - rewrite Hopen. destruct (Nat.ltb_spec (length (GoChan.buf q)) (GoChan.cap q)).
    + eexists. split; [reflexivity|]. simpl. rewrite length_app. simpl. split; [auto|lia].
    + eexists. split; [reflexivity|]. simpl. auto.
  - eexists. split; [reflexivity|]. simpl. auto.
Qed.

Lemma Data_open (c : Config) (l : Libs) (now : Z) (r : Reader) (st : State) :
  openQueue st ->
  exists st' err, Session.Data c l now r st = Val (st', err) /\ openQueue st'.
Proof.
  intros Hopen. unfold Session.Data.
  destruct (readError r); [eauto|].
  destruct (enmime_ReadEnvelope l (stream r)) as [GetHeader|]; [|eauto].
  destruct (mail_ParseAddress l (GetHeader "To")) as [To|]; [|eauto].
  destruct (mail_ParseAddress l (GetHeader "From")) as [From|]; [|eauto].
  destruct (dkim_Verify l (stream r)); cbn [negb]; [|eauto].
  destruct (String.eqb _ (SMTP_ADDRESS_DMARC c)); [eauto|].
  destruct (String.eqb _ (SMTP_ADDRESS_NOREPLY c)).
  - destruct (String.eqb (SMTP_DISABLE_NOREPLY c) ""); [eauto|].
    destruct (emailDebounce st !! Address From); [eauto|].
    match goal with |- context [QueueEmail ?s ?e] =>
      destruct (QueueEmail_open s e) as (st2 & -> & Hopen2); [exact Hopen|eauto] end.
  - destruct (String.eqb (SMTP_FORWARD_ADDRESS c) ""); [eauto|].
    destruct (QueueEmail_open st (forwarded c From (GetHeader "Subject") (stream r)))
      as (st2 & -> & Hopen2); [exact Hopen|eauto].
Qed.

(** As long as nothing closes the queue the relay never panics: from
    the state the package starts in, every sequence of timer wake-ups
    and inbound messages runs to its end, and the queue never holds
    more than its 1000 places. *)
Theorem relay_run_returns
    (c : Config) (l : Libs) (t0 : Z) (inputs : list (Z * Input)) :
  exists rl', relayRun c l inputs (relayInit t0) = Val rl'
              /\ (length (queued rl') <= 1000)%nat
              /\ GoChan.capacity (emailQueue (state rl')) = 1000%nat.
Proof.
  assert (Hgen : forall rl, openQueue (state rl) ->
             exists rl', relayRun c l inputs rl = Val rl'
                         /\ openQueue (state rl')
                         /\ GoChan.capacity (emailQueue (state rl'))
                            = GoChan.capacity (emailQueue (state rl))).
  { induction inputs as [|[now i] rest IH]; intros rl Hopen; cbn [relayRun].
    - eauto.
    - destruct i as [|r]; cbn [relayStep].
      + destruct (negb (timerFired rl) && (initTime rl + GoTime.Hour <=? now)).
        * destruct (IH (mkRelay (mkState (sweep now (emailDebounce (state rl)))
                                         (emailQueue (state rl)))
                                (initTime rl) true) Hopen)
            as (rl' & Hrun & Hopen' & Hcap).
          exists rl'. auto.
        * apply IH, Hopen.
      + destruct (Data_open c l now r (state rl) Hopen) as (st' & err & Hdata & Hopen').
        rewrite Hdata.
        destruct (Data_effect c l now r (state rl) st' err Hdata) as (_ & _ & Hcap & _).
        destruct (IH (mkRelay st' (initTime rl) (timerFired rl)) Hopen')
          as (rl' & Hrun & Hopen2 & Hcap2).
        exists rl'. split; [exact Hrun|]. split; [exact Hopen2|].
        simpl in Hcap2. congruence. }
  destruct (Hgen (relayInit t0)) as (rl' & Hrun & [_ Hlen] & Hcap).
  { split; simpl; [reflexivity|lia]. }
  exists rl'. split; [exact Hrun|]. simpl in Hcap. unfold queued.
  unfold GoChan.len, GoChan.capacity, GoChan.contents in *.
  destruct (emailQueue (state rl')); simpl in *; split; lia || auto.
Qed.

(** With [SMTP_FORWARD_ADDRESS] and [SMTP_DISABLE_NOREPLY] unset or
    empty the configuration loads (no variable is required, the
    process never exits), and the relay it gives never queues an email
    nor records a sender: [Data] leaves the state as it was for every
    message. *)
Theorem unconfigured_relay_queues_nothing (getenv : string -> string) :
  getenv "SMTP_FORWARD_ADDRESS" = "" ->
  getenv "SMTP_DISABLE_NOREPLY" = "" ->
  exists c, loadConfig getenv = Some c
            /\ forall l now r st, exists err, Session.Data c l now r st = Val (st, err).
Proof.
  intros Hfw Hdis.
  assert (Henv : forall field initial, initial <> String "000"%char "" ->
             exists v, envString getenv field initial = Some v
                       /\ (getenv field = "" -> v = initial)).
  { intros field initial Hne. unfold envString.
    destruct (String.eqb_spec (getenv field) "") as [He|He].
    - destruct (String.eqb_spec initial (String "000"%char "")); [contradiction|].
      eauto.
    - exists (getenv field). split; [reflexivity|]. intros. contradiction. }
  unfold loadConfig.
  destruct (Henv "SMTP_DOMAIN" "example.org") as (v1 & -> & _); [discriminate|].
  destruct (Henv "SMTP_USERNAME_DMARC" "dmarc") as (v2 & -> & _); [discriminate|].
  destruct (Henv "SMTP_USERNAME_NOREPLY" "noreply") as (v3 & -> & _); [discriminate|].
  destruct (Henv "SMTP_USERNAME_FORWARD" "support") as (v4 & -> & _); [discriminate|].
  destruct (Henv "SMTP_FORWARD_ADDRESS" "") as (v5 & -> & H5); [discriminate|].
  destruct (Henv "SMTP_DISABLE_NOREPLY" "") as (v6 & -> & H6); [discriminate|].
  rewrite (H5 Hfw), (H6 Hdis). simpl.
  eexists. split; [reflexivity|]. intros l now r st. unfold Session.Data.
  destruct (readError r); [eauto|].
  destruct (enmime_ReadEnvelope l (stream r)) as [GetHeader|]; [|eauto].
  destruct (mail_ParseAddress l (GetHeader "To")) as [To|]; [|eauto].
  destruct (mail_ParseAddress l (GetHeader "From")) as [From|]; [|eauto].
  destruct (dkim_Verify l (stream r)); cbn [negb]; [|eauto].
  destruct (String.eqb _ _); [eauto|].
  destruct (String.eqb _ _); simpl; eauto.
Qed.

Lemma unconfigured_relay_queues_nothing_witness :
  exists c, loadConfig (onlySet "SMTP_DOMAIN" "mail.test") = Some c
            /\ SMTP_ADDRESS_NOREPLY c = "noreply@mail.test"
            /\ forall l now r st, exists err, Session.Data c l now r st = Val (st, err).
Proof.
  destruct (unconfigured_relay_queues_nothing (onlySet "SMTP_DOMAIN" "mail.test")
              eq_refl eq_refl) as (c & Hload & Hdata).
  exists c. split; [exact Hload|]. split; [|exact Hdata].
  vm_compute in Hload. injection Hload as <-. reflexivity.
Defined.

Lemma Data_only_adds_witness :
  emailDebounce remembering !! "carol@c.test" = Some (5 * GoTime.Second)
  /\ exists st', Session.Data configDisableSet toyLibs (2 * GoTime.Hour) toNoreply remembering
                 = Val (st', None)
       /\ emailDebounce st' !! "carol@c.test" = Some (5 * GoTime.Second)
       /\ (exists added,
             GoChan.contents (emailQueue st')
             = ([autoReply configForward toyLibs carol] ++ added)%list
             /\ (length added <= 1)%nat)
       /\ GoChan.capacity (emailQueue st') = 1000%nat
       /\ emailDebounce st' !! "alice@a.test" = Some (2 * GoTime.Hour + GoTime.Hour).
Proof.
  assert (Hcarol : emailDebounce remembering !! "carol@c.test" = Some (5 * GoTime.Second))
    by (vm_compute; reflexivity).
  split; [exact Hcarol|].
  destruct (Session.Data configDisableSet toyLibs (2 * GoTime.Hour) toNoreply remembering)
    as [[st' err]|msg] eqn:Hdata; [|vm_compute in Hdata; discriminate].
  assert (Herr : err = None).
  { vm_compute in Hdata. congruence. }
  subst err. exists st'. split; [reflexivity|].
  destruct (Data_only_adds configDisableSet toyLibs (2 * GoTime.Hour) toNoreply
              remembering st' None Hdata) as (Hsub & Hadd & Hcap & _ & Hnew).
  split; [exact (lookup_weaken _ _ _ _ Hcarol Hsub)|].
  split; [exact Hadd|]. split; [exact Hcap|].
  destruct (emailDebounce st' !! "alice@a.test") as [expiry|] eqn:Halice.
  - destruct (Hnew "alice@a.test" expiry Halice) as [-> _]; [|reflexivity].
    vm_compute. reflexivity.
  - exfalso. vm_compute in Hdata. injection Hdata as <-.
    vm_compute in Halice. discriminate.
Defined.

Lemma verified_letter (to from : string) :
  to <> "" -> from <> "" ->
  GoStr.cut line_feed (to +:+ String line_feed from) = Some (to, from) ->
  verified toyLibs (letter to from) (mkMailAddress "" to) (mkMailAddress "" from).
Proof.
  intros Hto Hfrom Hcut. split; [reflexivity|].
  unfold toyLibs, letter. simpl.
  rewrite string_of_list_byte_of_string, Hcut. eexists. split; [reflexivity|]. simpl.
  destruct (String.eqb_spec to ""); [contradiction|].
  destruct (String.eqb_spec from ""); [contradiction|]. auto.
Qed.

Lemma Data_dmarc_is_dropped_witness :
  Session.Data configForward toyLibs 0 toDmarc (closeQueue fullState)
  = Val (closeQueue fullState, None).
Proof.
  apply (Data_dmarc_is_dropped configForward toyLibs 0 toDmarc (closeQueue fullState)
           (mkMailAddress "" "dmarc@example.org") (mkMailAddress "" "reports@big.test")).
  - apply verified_letter; [discriminate|discriminate|reflexivity].
  - reflexivity.
Defined.

Lemma Data_forwards_everything_else_witness :
  exists subject,
    Session.Data configForward toyLibs 0 toSales fresh
    = Val (mkState ∅ (Some (GoChan.mkChan
                              [forwarded configForward alice subject (stream toSales)]
                              1000 false)), None).
Proof.
  destruct (Data_forwards_everything_else configForward toyLibs 0 toSales fresh
              (mkMailAddress "" "sales@example.org") alice (GoChan.mkChan [] 1000 false))
    as [_ Hfw].
  - apply verified_letter; [discriminate|discriminate|reflexivity].
  - discriminate.
  - discriminate.
  - reflexivity.
  - reflexivity.
  - simpl. lia.
  - destruct Hfw as (subject & Hdata & _); [discriminate|].
    exists subject. exact Hdata.
Defined.

Lemma Data_full_queue_is_silent_witness :
  Session.Data configForward toyLibs 0 toSales fullState = Val (fullState, None)
  /\ Session.Data configForward toyLibs 0
       (letter "noreply@example.org" "bob@b.test") fullState
     = Val (mkState (<[ "bob@b.test" := 0 + GoTime.Hour ]> ∅) (emailQueue fullState),
            None).
Proof.
  split.
  - apply (Data_full_queue_is_silent configForward toyLibs 0 toSales fullState
             (mkMailAddress "" "sales@example.org") alice).
    + apply verified_letter; [discriminate|discriminate|reflexivity].
    + discriminate.
    + reflexivity.
    + simpl. lia.
    + discriminate.
    + discriminate.
  - apply (Data_full_queue_is_silent configForward toyLibs 0
             (letter "noreply@example.org" "bob@b.test") fullState
             (mkMailAddress "" "noreply@example.org") (mkMailAddress "" "bob@b.test")).
    + apply verified_letter; [discriminate|discriminate|reflexivity].
    + discriminate.
    + reflexivity.
    + simpl. lia.
    + reflexivity.
    + discriminate.
    + reflexivity.
Defined.

End DataSpec.

(** ** The REST endpoint and the queue it shares with the sessions *)
Module MainSpec.
Import Env EnvView EnvMore Main MainView.

Ltac run_handler :=
  unfold handler;
  repeat match goal with
         | H : _ = _ |- _ => rewrite H
         end; cbn [negb].

(** The handler answers with one of 405, 401, 417, 422, 200 and 201
    and never with 400: a body the validator refuses is answered with
    200, because the error text is written before the status, and the
    later [WriteHeader(400)] has no effect.  It answers 201 exactly when
    the request passes every check, and touches the queue in no other
    case. *)
Theorem handler_never_answers_bad_request
    (passphrase : string) (l : Libs) (r : Request) (st st' : State)
    (w' : ResponseWriter) :
  handler passphrase l r st newResponse = Val (st', w') ->
  In (status w') [StatusMethodNotAllowed; StatusUnauthorized; StatusExpectationFailed;
                  StatusUnprocessableEntity; StatusOK; StatusCreated]
  /\ (status w' = StatusCreated <-> exists e, accepted passphrase l r e)
  /\ (status w' = StatusOK <->
      exists err, invalid passphrase l r err /\ body w' = list_byte_of_string err)
  /\ (status w' <> StatusCreated -> st' = st).
Proof.
  unfold handler, accepted, invalid.
  destruct (String.eqb_spec (Method r) "POST") as [Hm|Hm]; cbn [negb].
  2:{ intros [= <- <-]. simpl. split; [auto|].
      split; [split; [discriminate|intros (e & H & _); contradiction]|].
      split; [split; [discriminate|intros (e & (H & _) & _); contradiction]|auto]. }
  destruct (String.eqb_spec (Authorization r) passphrase) as [Ha|Ha]; cbn [negb].
  2:{ intros [= <- <-]. simpl. split; [auto|].
      split; [split; [discriminate|intros (e & _ & H & _); contradiction]|].
      split; [split; [discriminate|intros (e & (_ & H & _) & _); contradiction]|auto]. }
  destruct (readError (Body r)) as [rerr|] eqn:Hread.
  { intros [= <- <-]. simpl. split; [auto 6|].
    split; [split; [discriminate|intros (e & _ & _ & H & _); discriminate]|].
    split; [split; [discriminate|intros (e & (_ & _ & H & _) & _); discriminate]|auto]. }
  destruct (json_Unmarshal l (stream (Body r))) as [e|] eqn:Hjson.
  2:{ intros [= <- <-]. simpl. split; [auto 6|].
      split; [split; [discriminate|intros (e & _ & _ & _ & H & _); discriminate]|].
      split; [split; [discriminate|
                      intros (e & (_ & _ & _ & e' & H & _) & _); discriminate]|auto]. }
  destruct (validate_Struct l e) as [err|] eqn:Hval.
  - intros [= <- <-]. simpl. split; [auto 8|].
    split; [split; [discriminate|
                    intros (e' & _ & _ & _ & H1 & H2); congruence]|].
    split; [|auto]. split; [|auto]. intros _. exists err. eauto 10.
  - destruct (QueueEmail st e) as [st2|msg]; [|discriminate].
    intros [= <- <-]. simpl. split; [auto 8|].
    split; [split; [eauto 10|reflexivity]|].
    split; [|intros H; now contradiction H].
    split; [discriminate|]. intros (err & (_ & _ & _ & e' & H1 & H2) & _). congruence.
Qed.

Lemma handler_never_answers_bad_request_witness :
  exists w', handler "teto" toyJson (post "" "alice@a.test") fresh newResponse
             = Val (fresh, w')
             /\ status w' = StatusOK
             /\ body w' = list_byte_of_string "ToAddress is required".
Proof.
  destruct (handler "teto" toyJson (post "" "alice@a.test") fresh newResponse)
    as [[st' w']|msg] eqn:Hrun; [|vm_compute in Hrun; discriminate].
  destruct (handler_never_answers_bad_request "teto" toyJson (post "" "alice@a.test")
              fresh st' w' Hrun) as (_ & _ & [_ Hok] & Hst).
  assert (Hbody : body w' = list_byte_of_string "ToAddress is required").
  { vm_compute in Hrun. injection Hrun as _ <-. reflexivity. }
  assert (Hstatus : status w' = StatusOK).
  { apply Hok. exists "ToAddress is required". split; [|exact Hbody].
    unfold invalid. repeat split. exists (note "" "alice@a.test"). split; reflexivity. }
  rewrite Hst by (rewrite Hstatus; discriminate).
  exists w'. auto.
Defined.

(** A request that passes every check is answered with 201 whether or
    not its email is queued: with room in the queue the email goes to
    its tail, on a full queue it is dropped, the state is as it was and
    the client is told the same. *)
Theorem handler_created_even_when_dropped
    (passphrase : string) (l : Libs) (r : Request) (e : Email) (st : State)
    (q : GoChan.Chan Email) :
  accepted passphrase l r e ->
  emailQueue st = Some q -> GoChan.closed q = false ->
  exists st', handler passphrase l r st newResponse
              = Val (st', mkResponse (Some StatusCreated) [])
    /\ ((length (GoChan.buf q) < GoChan.cap q)%nat ->
        st' = mkState (emailDebounce st)
                      (Some (GoChan.mkChan (GoChan.buf q ++ [e]) (GoChan.cap q) false)))
    /\ ((GoChan.cap q <= length (GoChan.buf q))%nat -> st' = st).
Proof.
  intros (Hm & Ha & Hread & Hjson & Hval) Hq Hopen.
  unfold handler. rewrite Hm, Ha, String.eqb_refl, Hread, Hjson, Hval. cbn [negb].
  rewrite String.eqb_refl. cbn [negb].
  unfold QueueEmail, GoChan.trySend. rewrite Hq. cbv beta iota. rewrite Hopen.
  destruct (Nat.ltb_spec (length (GoChan.buf q)) (GoChan.cap q)).
  - eexists. split; [reflexivity|]. split; [intros _; reflexivity|lia].
  - eexists. split; [reflexivity|]. split; [lia|reflexivity].
Qed.

Lemma handler_created_even_when_dropped_witness :
  handler "teto" toyJson (post "bob@b.test" "alice@a.test") fullState newResponse
  = Val (fullState, mkResponse (Some StatusCreated) []).
Proof.
  destruct (handler_created_even_when_dropped "teto" toyJson
              (post "bob@b.test" "alice@a.test") (note "bob@b.test" "alice@a.test")
              fullState (GoChan.mkChan [autoReply configForward toyLibs alice] 1 false))
    as (st' & Hrun & _ & Hfull).
  - unfold accepted. repeat split.
  - reflexivity.
  - reflexivity.
  - rewrite Hrun, Hfull; [reflexivity|simpl; lia].
Defined.

(** After the shutdown goroutine of [StartupWorkers] has closed the
    queue, both producers panic instead of dropping: the handler on
    every request that passes its checks, and [Data] on every verified
    message it would forward or answer. *)
Theorem producers_panic_after_close
    (c : Config) (el : Env.Libs) (now : Z) (rd : Reader) (To From : MailAddress)
    (passphrase : string) (l : Libs) (r : Request) (e : Email) (st : State)
    (q : GoChan.Chan Email) :
  emailQueue st = Some q ->
  (accepted passphrase l r e ->
   handler passphrase l r (closeQueue st) newResponse = Panic "send on closed channel")
  /\ (verified el rd To From ->
      Address To <> SMTP_ADDRESS_DMARC c ->
      Address To <> SMTP_ADDRESS_NOREPLY c ->
      SMTP_FORWARD_ADDRESS c <> "" ->
      Session.Data c el now rd (closeQueue st) = Panic "send on closed channel")
  /\ (verified el rd To From ->
      Address To <> SMTP_ADDRESS_DMARC c ->
      Address To = SMTP_ADDRESS_NOREPLY c ->
      SMTP_DISABLE_NOREPLY c <> "" ->
      emailDebounce st !! Address From = None ->
      Session.Data c el now rd (closeQueue st) = Panic "send on closed channel").
Proof.
  intros Hq.
  assert (Hpanic : forall (m : gmap string Z) (x : Email),
             QueueEmail (mkState m (emailQueue (closeQueue st))) x
             = Panic "send on closed channel").
  { intros m x. unfold QueueEmail, GoChan.trySend, closeQueue. simpl.
    rewrite Hq. reflexivity. }
  split; [|split].
  - intros (Hm & Ha & Hread & Hjson & Hval).
    unfold handler. rewrite Hm, Ha, String.eqb_refl, Hread, Hjson, Hval. cbn [negb].
    rewrite String.eqb_refl. cbn [negb].
    change (closeQueue st) with (mkState (emailDebounce st) (emailQueue (closeQueue st))).
    now rewrite Hpanic.
  - intros (Hread & GetHeader & Henv & HTo & HFrom & Hdkim) Hnd Hnn Hfw.
    unfold Session.Data. rewrite Hread, Henv, HTo, HFrom, Hdkim. cbn [negb].
    destruct (String.eqb_spec (Address To) (SMTP_ADDRESS_DMARC c)); [contradiction|].
    destruct (String.eqb_spec (Address To) (SMTP_ADDRESS_NOREPLY c)); [contradiction|].
    destruct (String.eqb_spec (SMTP_FORWARD_ADDRESS c) ""); [contradiction|].
    change (closeQueue st) with (mkState (emailDebounce st) (emailQueue (closeQueue st))).
    now rewrite Hpanic.
  - intros Hver Hnd Hto Hvar Hentry.
    rewrite (EnvSpec.Data_noreply_variable_set c el now rd _ To From Hver Hto Hnd Hvar).
    simpl. rewrite Hentry. now rewrite Hpanic.
Qed.

Lemma producers_panic_after_close_witness :
  handler "teto" toyJson (post "bob@b.test" "alice@a.test") (closeQueue fresh) newResponse
  = Panic "send on closed channel"
  /\ Session.Data configForward toyLibs 0 toSales (closeQueue fresh)
     = Panic "send on closed channel".
Proof.
  destruct (producers_panic_after_close configForward toyLibs 0 toSales
              (mkMailAddress "" "sales@example.org") alice
              "teto" toyJson (post "bob@b.test" "alice@a.test")
              (note "bob@b.test" "alice@a.test") fresh (GoChan.mkChan [] 1000 false)
              eq_refl) as (Hh & Hd & _).
  split.
  - apply Hh. unfold accepted. repeat split.
  - apply Hd.
    + apply DataSpec.verified_letter; [discriminate|discriminate|reflexivity].
    + discriminate.
    + discriminate.
    + discriminate.
Defined.

End MainSpec.
